(** * Wine Application Manager: the process supervisor

    A shallow embedding of the process supervisor of the Wine Application
    Manager: [ProcessMonitor] (process table, monitor loop, signal
    operations) and [WineExecutor] (environment set-up, path resolution,
    executable validation, launch, synchronous wait), followed by the
    properties of the specification that concern them. The string and
    path helpers of [Utils], the escaping of [RegistryManager],
    [ConfigurationParser], the loading and saving of [WineConfiguration]
    and [PathResolver] follow, with the properties their code shows.

    Conventions of the embedding.
    - [pid_t], [int] and time points are [Z]; [size_t] is [Z] with its
      64-bit wrap-around written out; [std::string] is [string], taken free
      of NUL characters so that [c_str()] is the identity.
    - [std::map<pid_t, ProcessInfo>] is an association list kept in
      increasing key order, because the monitor loop iterates over it and
      the order of the observer calls follows that iteration.
      [std::map<std::string, std::string>] is a [gmap string string].
    - Everything the code asks of the operating system (signals, the clock,
      /proc, stat, getcwd, popen, pipe, fork, waitpid) is answered by an
      [OS] record, fixed for the duration of one operation.
    - What the code does to the outside (logger calls, observer calls,
      signals, hooks, the spawned child) is appended to the [trace] of the
      [World]. *)

From Stdlib Require Import ZArith QArith String Ascii List Bool Lia.
From stdpp Require Import gmap strings list sorting pretty.

Local Open Scope string_scope.
Local Open Scope list_scope.
Local Open Scope Z_scope.

(** ** Data model (wine_wrapper.hpp) *)

Inductive ProcessState :=
| IDLE | STARTING | RUNNING | PAUSED | STOPPING | STOPPED | ERROR | KILLED.

Inductive LogLevel := DEBUG | INFO | WARNING | ERROR_LOG | CRITICAL.

Inductive WineArchitecture := WIN32 | WIN64 | AUTO_DETECT.

Record ProcessInfo := mkProcessInfo {
  pid : Z;
  state : ProcessState;
  executable_path : string;
  arguments : list string;
  environment : gmap string string;
  start_time : Z;
  end_time : Z;
  exit_code : Z;
  stdout_data : string;
  stderr_data : string;
  memory_usage : Z;
  cpu_usage : Q;
  wine_prefix : string;
  architecture : WineArchitecture
}.

(** [ProcessInfo()]: value-initialisation of an aggregate without a
    user-provided constructor zeroes every scalar member ([pid] 0, the first
    enumerator of each enumeration) and default-constructs the others. *)
Definition ProcessInfo_default : ProcessInfo :=
  {| pid := 0; state := IDLE; executable_path := ""; arguments := [];
     environment := ∅; start_time := 0; end_time := 0; exit_code := 0;
     stdout_data := ""; stderr_data := ""; memory_usage := 0;
     cpu_usage := 0%Q; wine_prefix := ""; architecture := WIN32 |}.

Definition set_state (s : ProcessState) (i : ProcessInfo) : ProcessInfo :=
  {| pid := pid i; state := s; executable_path := executable_path i;
     arguments := arguments i; environment := environment i;
     start_time := start_time i; end_time := end_time i;
     exit_code := exit_code i; stdout_data := stdout_data i;
     stderr_data := stderr_data i; memory_usage := memory_usage i;
     cpu_usage := cpu_usage i; wine_prefix := wine_prefix i;
     architecture := architecture i |}.

Definition set_end_time (t : Z) (i : ProcessInfo) : ProcessInfo :=
  {| pid := pid i; state := state i; executable_path := executable_path i;
     arguments := arguments i; environment := environment i;
     start_time := start_time i; end_time := t;
     exit_code := exit_code i; stdout_data := stdout_data i;
     stderr_data := stderr_data i; memory_usage := memory_usage i;
     cpu_usage := cpu_usage i; wine_prefix := wine_prefix i;
     architecture := architecture i |}.

Definition set_memory_usage (m : Z) (i : ProcessInfo) : ProcessInfo :=
  {| pid := pid i; state := state i; executable_path := executable_path i;
     arguments := arguments i; environment := environment i;
     start_time := start_time i; end_time := end_time i;
     exit_code := exit_code i; stdout_data := stdout_data i;
     stderr_data := stderr_data i; memory_usage := m;
     cpu_usage := cpu_usage i; wine_prefix := wine_prefix i;
     architecture := architecture i |}.

Definition set_cpu_usage (c : Q) (i : ProcessInfo) : ProcessInfo :=
  {| pid := pid i; state := state i; executable_path := executable_path i;
     arguments := arguments i; environment := environment i;
     start_time := start_time i; end_time := end_time i;
     exit_code := exit_code i; stdout_data := stdout_data i;
     stderr_data := stderr_data i; memory_usage := memory_usage i;
     cpu_usage := c; wine_prefix := wine_prefix i;
     architecture := architecture i |}.

Module Config.

Record WineConfiguration := mkWineConfiguration {
  wine_prefix : string;
  wine_binary : string;
  architecture : WineArchitecture;
  environment_variables : gmap string string;
  registry_overrides : gmap string string;
  dll_overrides : list string;
  virtual_desktop_resolution : string;
  enable_virtual_desktop : bool;
  enable_csmt : bool;
  enable_dxvk : bool;
  enable_esync : bool;
  enable_fsync : bool;
  audio_driver : string;
  graphics_driver : string;
  nice_level : Z;
  winetricks_components : list string;
  debug_output : bool;
  log_file : string;
  max_log_size_mb : Z;
  capture_stdout : bool;
  capture_stderr : bool
}.

End Config.

Abbreviation WineConfiguration := Config.WineConfiguration.

(** ** The operating system, as one operation sees it *)

Record OS := mkOS {
  (** [kill(pid, sig) == 0] *)
  sys_kill : Z → Z → bool;
  (** [std::chrono::system_clock::now()] *)
  sys_now : Z;
  (** first line of /proc/<pid>/stat, [None] when the file cannot be opened *)
  proc_stat : Z → option string;
  (** the number on the [VmRSS:] line of /proc/<pid>/status, [None] when the
      file cannot be opened or has no such line *)
  proc_vmrss : Z → option Z;
  (** [stat(path)]: [None] when it fails, otherwise [st_mode] *)
  sys_stat : string → option Z;
  (** [access(path, R_OK) == 0]; the code never asks *)
  sys_access_r : string → bool;
  (** [getcwd], [None] when it fails *)
  sys_getcwd : option string;
  (** [getpwuid(getuid())->pw_dir], [None] when there is no entry *)
  sys_pw_dir : option string;
  (** what [popen(cmd, "r")] lets the caller read, [None] when it fails *)
  sys_popen : string → option string;
  (** [pipe()] for the stdout ([false]) and the stderr ([true]) channel:
      [None] when it returns -1, otherwise the read and the write end *)
  sys_pipe : bool → option (Z * Z);
  (** [fork()] as seen by the parent: [None] for -1, otherwise the child's
      pid; the child's side is [handle_child_process], which never returns *)
  sys_fork : option positive;
  (** the status word [waitpid(pid, &status, 0)] stores *)
  sys_waitpid : Z → Z;
  (** what uninitialised storage holds: [ProcessInfo info;] in
      [WineExecutor::execute] leaves [memory_usage] and [cpu_usage] unset *)
  uninit_size_t : Z;
  uninit_double : Q
}.

(** Signal numbers of <signal.h> on Linux. *)
Definition SIGKILL : Z := 9.
Definition SIGTERM : Z := 15.
Definition SIGCONT : Z := 18.
Definition SIGSTOP : Z := 19.

(** ** Observable effects *)

Inductive HookPhase := PreLaunch | PostLaunch.

Inductive Effect :=
| Logged (level : LogLevel) (message : string)
| Notified (callback : nat) (info : ProcessInfo)
| Signalled (target : Z) (sig : Z)
| Hooked (phase : HookPhase) (cmd : string) (output : string)
| Closed (fd : Z)
| Spawned (command : list string) (child_env : gmap string string)
    (nice : Z) (child : option positive)
| Waited (target : Z) (status : Z).

(** ** The state of the supervisor *)

Record World := mkWorld {
  (** [::environ] of the supervisor's own process *)
  environ : gmap string string;
  (** [ProcessMonitor] *)
  monitored_processes : list (Z * ProcessInfo);
  state_change_callbacks : list nat;
  (** [WineExecutor] *)
  config : WineConfiguration;
  custom_environment : gmap string string;
  pre_launch_commands : list string;
  post_launch_commands : list string;
  stdout_pipe : Z * Z;
  stderr_pipe : Z * Z;
  current_process_pid : Z;
  execution_active : bool;
  (** effects so far, oldest first *)
  trace : list Effect
}.

Definition with_environ (e : gmap string string) (w : World) : World :=
  {| environ := e; monitored_processes := monitored_processes w;
     state_change_callbacks := state_change_callbacks w; config := config w;
     custom_environment := custom_environment w;
     pre_launch_commands := pre_launch_commands w;
     post_launch_commands := post_launch_commands w;
     stdout_pipe := stdout_pipe w; stderr_pipe := stderr_pipe w;
     current_process_pid := current_process_pid w;
     execution_active := execution_active w; trace := trace w |}.

Definition with_monitored (t : list (Z * ProcessInfo)) (w : World) : World :=
  {| environ := environ w; monitored_processes := t;
     state_change_callbacks := state_change_callbacks w; config := config w;
     custom_environment := custom_environment w;
     pre_launch_commands := pre_launch_commands w;
     post_launch_commands := post_launch_commands w;
     stdout_pipe := stdout_pipe w; stderr_pipe := stderr_pipe w;
     current_process_pid := current_process_pid w;
     execution_active := execution_active w; trace := trace w |}.

Definition with_callbacks (c : list nat) (w : World) : World :=
  {| environ := environ w; monitored_processes := monitored_processes w;
     state_change_callbacks := c; config := config w;
     custom_environment := custom_environment w;
     pre_launch_commands := pre_launch_commands w;
     post_launch_commands := post_launch_commands w;
     stdout_pipe := stdout_pipe w; stderr_pipe := stderr_pipe w;
     current_process_pid := current_process_pid w;
     execution_active := execution_active w; trace := trace w |}.

Definition with_stdout_pipe (p : Z * Z) (w : World) : World :=
  {| environ := environ w; monitored_processes := monitored_processes w;
     state_change_callbacks := state_change_callbacks w; config := config w;
     custom_environment := custom_environment w;
     pre_launch_commands := pre_launch_commands w;
     post_launch_commands := post_launch_commands w;
     stdout_pipe := p; stderr_pipe := stderr_pipe w;
     current_process_pid := current_process_pid w;
     execution_active := execution_active w; trace := trace w |}.

Definition with_stderr_pipe (p : Z * Z) (w : World) : World :=
  {| environ := environ w; monitored_processes := monitored_processes w;
     state_change_callbacks := state_change_callbacks w; config := config w;
     custom_environment := custom_environment w;
     pre_launch_commands := pre_launch_commands w;
     post_launch_commands := post_launch_commands w;
     stdout_pipe := stdout_pipe w; stderr_pipe := p;
     current_process_pid := current_process_pid w;
     execution_active := execution_active w; trace := trace w |}.

Definition with_current_pid (p : Z) (w : World) : World :=
  {| environ := environ w; monitored_processes := monitored_processes w;
     state_change_callbacks := state_change_callbacks w; config := config w;
     custom_environment := custom_environment w;
     pre_launch_commands := pre_launch_commands w;
     post_launch_commands := post_launch_commands w;
     stdout_pipe := stdout_pipe w; stderr_pipe := stderr_pipe w;
     current_process_pid := p;
     execution_active := execution_active w; trace := trace w |}.

Definition with_execution_active (b : bool) (w : World) : World :=
  {| environ := environ w; monitored_processes := monitored_processes w;
     state_change_callbacks := state_change_callbacks w; config := config w;
     custom_environment := custom_environment w;
     pre_launch_commands := pre_launch_commands w;
     post_launch_commands := post_launch_commands w;
     stdout_pipe := stdout_pipe w; stderr_pipe := stderr_pipe w;
     current_process_pid := current_process_pid w;
     execution_active := b; trace := trace w |}.

Definition with_trace (t : list Effect) (w : World) : World :=
  {| environ := environ w; monitored_processes := monitored_processes w;
     state_change_callbacks := state_change_callbacks w; config := config w;
     custom_environment := custom_environment w;
     pre_launch_commands := pre_launch_commands w;
     post_launch_commands := post_launch_commands w;
     stdout_pipe := stdout_pipe w; stderr_pipe := stderr_pipe w;
     current_process_pid := current_process_pid w;
     execution_active := execution_active w; trace := t |}.

(** ** A state monad with an uncaught-exception outcome

    [Throw] stands for a C++ exception that nothing catches: the program
    is terminated and there is no later state. *)

Inductive outcome (A : Type) :=
| Ret (a : A)
| Throw.
Arguments Ret {A} a.
Arguments Throw {A}.

Definition M (A : Type) : Type := OS → World → outcome (A * World).

Global Instance M_ret : MRet M := λ A a _ w, Ret (a, w).

Global Instance M_bind : MBind M := λ A B f m os w,
  match m os w with
  | Ret (a, w') => f a os w'
  | Throw => Throw
  end.

Definition ask : M OS := λ os w, Ret (os, w).
Definition get : M World := λ _ w, Ret (w, w).
Definition modify (f : World → World) : M unit := λ _ w, Ret (tt, f w).
Definition throw {A} : M A := λ _ _, Throw.

Definition emit (e : Effect) : M unit :=
  modify (λ w, with_trace (trace w ++ [e]) w).

(** [Logger::debug/info/warning/error]: the call is recorded with its level
    and message, before the logger's own level filter and formatting. *)
Definition logger_debug (msg : string) : M unit := emit (Logged DEBUG msg).
Definition logger_info (msg : string) : M unit := emit (Logged INFO msg).
Definition logger_warning (msg : string) : M unit := emit (Logged WARNING msg).
Definition logger_error (msg : string) : M unit := emit (Logged ERROR_LOG msg).

(** [std::to_string] on an [int]. *)
Definition to_string (n : Z) : string := pretty n.

(** [kill(2)]: the call is recorded, the answer is the system's. *)
Definition kill (target sig : Z) : M bool :=
  os ← ask; emit (Signalled target sig);; mret (sys_kill os target sig).

(** ** [std::string] operations used by the code *)

(** [s.find(c)] *)
Fixpoint str_find (c : ascii) (s : string) : option nat :=
  match s with
  | EmptyString => None
  | String a s' => if Ascii.eqb a c then Some 0%nat else S <$> str_find c s'
  end.

(** [s.rfind(c)] and [s.find_last_of(c)] *)
Fixpoint str_rfind (c : ascii) (s : string) : option nat :=
  match s with
  | EmptyString => None
  | String a s' =>
      match str_rfind c s' with
      | Some i => Some (S i)
      | None => if Ascii.eqb a c then Some 0%nat else None
      end
  end.

(** [s.substr(pos)]: [std::out_of_range] when [pos > s.size()] *)
Definition str_substr (s : string) (pos : nat) : M string :=
  if (pos <=? String.length s)%nat
  then mret (String.substring pos (String.length s - pos) s)
  else throw.

(** [s[0]]: the terminating NUL when [s] is empty *)
Definition str_front (s : string) : ascii :=
  match s with
  | EmptyString => zero
  | String a _ => a
  end.

Fixpoint for_each {A} (f : A → M unit) (l : list A) : M unit :=
  match l with
  | [] => mret tt
  | x :: l' => f x;; for_each f l'
  end.

(** ** ProcessMonitor *)

(** [monitored_processes.find(key)] *)
Fixpoint table_find (key : Z) (t : list (Z * ProcessInfo)) : option ProcessInfo :=
  match t with
  | [] => None
  | (k, i) :: t' => if k =? key then Some i else table_find key t'
  end.

(** [monitored_processes[key] = info] *)
Fixpoint table_assign (key : Z) (info : ProcessInfo) (t : list (Z * ProcessInfo))
  : list (Z * ProcessInfo) :=
  match t with
  | [] => [(key, info)]
  | (k, i) :: t' =>
      if key <? k then (key, info) :: (k, i) :: t'
      else if key =? k then (key, info) :: t'
      else (k, i) :: table_assign key info t'
  end.

(** [monitored_processes.erase(key)] *)
Fixpoint table_erase (key : Z) (t : list (Z * ProcessInfo)) : list (Z * ProcessInfo) :=
  match t with
  | [] => []
  | (k, i) :: t' => if k =? key then table_erase key t' else (k, i) :: table_erase key t'
  end.

Definition is_process_alive (p : Z) : M bool :=
  os ← ask; mret (sys_kill os p 0).

Definition calculate_cpu_usage (p : Z) : M Q :=
  os ← ask;
  match proc_stat os p with
  | None => mret 0%Q
  | Some _ => mret 0%Q
  end.

Definition get_memory_usage (p : Z) : M Z :=
  os ← ask;
  match proc_vmrss os p with
  | None => mret 0
  | Some value => mret ((value * 1024) mod 2 ^ 64)
  end.

Definition get_process_state (p : Z) : M ProcessState :=
  os ← ask;
  match proc_stat os p with
  | None => mret STOPPED
  | Some line =>
      match str_find "(" line, str_rfind ")" line with
      | Some _, Some last_paren =>
          after_comm ← str_substr line (last_paren + 2);
          let c := str_front after_comm in
          if Ascii.eqb c "R" then mret RUNNING
          else if Ascii.eqb c "S" then mret RUNNING
          else if Ascii.eqb c "T" then mret PAUSED
          else if Ascii.eqb c "Z" then mret STOPPED
          else mret RUNNING
      | _, _ => mret ERROR
      end
  end.

Definition update_process_stats (info : ProcessInfo) : M ProcessInfo :=
  c ← calculate_cpu_usage (pid info);
  let info := set_cpu_usage c info in
  m ← get_memory_usage (pid info);
  let info := set_memory_usage m info in
  s ← get_process_state (pid info);
  mret (set_state s info).

Definition notify_state_change (info : ProcessInfo) : M unit :=
  w ← get;
  for_each (λ callback, emit (Notified callback info)) (state_change_callbacks w).

(** The [for (auto& pair : monitored_processes)] loop of [monitor_loop]:
    the records as the loop leaves them, and [dead_processes]. *)
Fixpoint monitor_scan (entries : list (Z * ProcessInfo))
  : M (list (Z * ProcessInfo) * list Z) :=
  match entries with
  | [] => mret ([], [])
  | (key, info) :: rest =>
      alive ← is_process_alive key;
      if negb alive then
        os ← ask;
        let info := set_state STOPPED info in
        let info := set_end_time (sys_now os) info in
        notify_state_change info;;
        r ← monitor_scan rest;
        mret ((key, info) :: r.1, key :: r.2)
      else
        info ← update_process_stats info;
        r ← monitor_scan rest;
        mret ((key, info) :: r.1, r.2)
  end.

(** One pass of the [while (monitoring_active)] loop, from taking the lock
    to releasing it. *)
Definition monitor_tick : M unit :=
  w ← get;
  r ← monitor_scan (monitored_processes w);
  modify (with_monitored r.1);;
  for_each (λ p, logger_info ("Process " +:+ to_string p +:+ " has terminated")) r.2.

(** [monitor_loop] for as many passes as there are views: between two
    passes the thread sleeps and the system moves on. *)
Fixpoint monitor_loop (views : list OS) (w : World) : outcome World :=
  match views with
  | [] => Ret w
  | os :: views' =>
      match monitor_tick os w with
      | Ret (_, w') => monitor_loop views' w'
      | Throw => Throw
      end
  end.

Definition add_process (p : Z) (info : ProcessInfo) : M unit :=
  modify (λ w, with_monitored (table_assign p info (monitored_processes w)) w);;
  logger_info ("Added process " +:+ to_string p +:+ " to monitoring").

Definition remove_process (p : Z) : M unit :=
  modify (λ w, with_monitored (table_erase p (monitored_processes w)) w);;
  logger_info ("Removed process " +:+ to_string p +:+ " from monitoring").

Definition get_process_info (p : Z) : M ProcessInfo :=
  w ← get;
  match table_find p (monitored_processes w) with
  | Some info => mret info
  | None => mret ProcessInfo_default
  end.

Definition get_all_processes : M (list ProcessInfo) :=
  w ← get; mret (map snd (monitored_processes w)).

Definition register_callback (callback : nat) : M unit :=
  modify (λ w, with_callbacks (state_change_callbacks w ++ [callback]) w).

Definition clear_callbacks : M unit := modify (with_callbacks []).

Definition is_process_monitored (p : Z) : M bool :=
  w ← get; mret (bool_decide (is_Some (table_find p (monitored_processes w)))).

Definition pause_process (p : Z) : M unit :=
  ok ← kill p SIGSTOP;
  if (ok : bool) then logger_info ("Paused process " +:+ to_string p)
  else logger_error ("Failed to pause process " +:+ to_string p).

Definition resume_process (p : Z) : M unit :=
  ok ← kill p SIGCONT;
  if (ok : bool) then logger_info ("Resumed process " +:+ to_string p)
  else logger_error ("Failed to resume process " +:+ to_string p).

Definition kill_process (p : Z) (signal : Z) : M unit :=
  ok ← kill p signal;
  if (ok : bool) then
    logger_info ("Sent signal " +:+ to_string signal +:+ " to process " +:+ to_string p)
  else logger_error ("Failed to send signal to process " +:+ to_string p).

(** [WineApplicationManager::terminate_process] *)
Definition terminate_process (p : Z) : M unit :=
  logger_info ("Terminating process: " +:+ to_string p);;
  kill_process p SIGTERM.

(** [WineApplicationManager::kill_all_processes] *)
Definition kill_all_processes : M unit :=
  logger_warning "Killing all Wine processes";;
  processes ← get_all_processes;
  for_each (λ info, kill_process (pid info) SIGKILL) processes.

(** ** Utils (wine_executor.cpp) *)

(** [S_ISREG(st_mode)] of <sys/stat.h>: [(m & S_IFMT) == S_IFREG]. *)
Definition S_ISREG (st_mode : Z) : bool := Z.land st_mode 61440 =? 32768.

Definition file_exists (path : string) : M bool :=
  os ← ask;
  match sys_stat os path with
  | Some st_mode => mret (S_ISREG st_mode)
  | None => mret false
  end.

Definition execute_command (command : string) : M string :=
  os ← ask;
  match sys_popen os command with
  | None => mret ""
  | Some result => mret result
  end.

Definition get_home_directory : M string :=
  w ← get; os ← ask;
  match environ w !! "HOME" with
  | Some home => mret home
  | None =>
      match sys_pw_dir os with
      | Some pw_dir => mret pw_dir
      | None => mret "/tmp"
      end
  end.

Definition get_current_directory : M string :=
  os ← ask;
  match sys_getcwd os with
  | Some buffer => mret buffer
  | None => mret ""
  end.

(** [std::string::npos], and a position as the [size_t] the code compares. *)
Definition npos : Z := 2 ^ 64 - 1.

Definition position (o : option nat) : Z :=
  match o with
  | Some i => Z.of_nat i
  | None => npos
  end.

(** [s.substr(pos)] where [pos] is known to be within [s]. *)
Definition str_drop (pos : nat) (s : string) : string :=
  String.substring pos (String.length s - pos) s.

Definition get_extension (path : string) : string :=
  let dot_pos := position (str_rfind "." path) in
  if negb (dot_pos =? npos) && (position (str_rfind "/" path) <? dot_pos)
  then str_drop (Z.to_nat dot_pos) path
  else "".

(** [::tolower] in the C locale. *)
Definition tolower (c : ascii) : ascii :=
  let n := nat_of_ascii c in
  if (65 <=? n)%nat && (n <=? 90)%nat then ascii_of_nat (n + 32) else c.

Fixpoint transform_tolower (s : string) : string :=
  match s with
  | EmptyString => EmptyString
  | String a s' => String (tolower a) (transform_tolower s')
  end.

(** ** WineExecutor *)

Fixpoint str_contains (c : ascii) (s : string) : bool :=
  match s with
  | EmptyString => false
  | String a s' => Ascii.eqb a c || str_contains c s'
  end.

(** [setenv(3)] refuses (EINVAL) an empty name and a name with an [=]. *)
Definition valid_name (name : string) : bool :=
  negb (String.eqb name "") && negb (str_contains "=" name).

Definition setenv_in (name value : string) (overwrite : bool)
    (e : gmap string string) : gmap string string :=
  if valid_name name then
    match e !! name with
    | Some _ => if overwrite then <[name := value]> e else e
    | None => <[name := value]> e
    end
  else e.

Definition setenv (name value : string) (overwrite : bool) : M unit :=
  modify (λ w, with_environ (setenv_in name value overwrite (environ w)) w).

(** [for (const auto& pair : m) setenv(pair.first, pair.second, 1)] *)
Definition setenv_each_in (m e : gmap string string) : gmap string string :=
  map_fold (λ k v e, setenv_in k v true e) e m.

Definition setenv_each (m : gmap string string) : M unit :=
  modify (λ w, with_environ (setenv_each_in m (environ w)) w).

Definition when (b : bool) (m : M unit) : M unit :=
  if b then m else mret tt.

Definition setup_environment : M bool :=
  w ← get;
  let config := config w in
  setenv "WINEPREFIX" (Config.wine_prefix config) true;;
  match Config.architecture config with
  | WIN32 => setenv "WINEARCH" "win32" true
  | WIN64 => setenv "WINEARCH" "win64" true
  | AUTO_DETECT => mret tt
  end;;
  when (Config.enable_virtual_desktop config
        && negb (String.eqb (Config.virtual_desktop_resolution config) ""))
    (setenv "WINE_VD_RESOLUTION" (Config.virtual_desktop_resolution config) true);;
  when (Config.enable_csmt config) (setenv "CSMT" "enabled" true);;
  when (Config.enable_esync config) (setenv "WINEESYNC" "1" true);;
  when (Config.enable_fsync config) (setenv "WINEFSYNC" "1" true);;
  when (negb (String.eqb (Config.audio_driver config) ""))
    (setenv "WINEDLLOVERRIDES" "winemapi.dll=n,b" true);;
  setenv_each (custom_environment w);;
  setenv_each (Config.environment_variables config);;
  logger_debug "Environment setup completed";;
  mret true.

(** The loop of [setup_dll_overrides]: a [;] before every entry but the
    first. *)
Fixpoint join_overrides (first : bool) (overrides : string) (l : list string) : string :=
  match l with
  | [] => overrides
  | x :: l' =>
      join_overrides false ((if first then overrides else overrides +:+ ";") +:+ x) l'
  end.

Definition setup_dll_overrides : M unit :=
  w ← get;
  match Config.dll_overrides (config w) with
  | [] => mret tt
  | _ :: _ =>
      let overrides := join_overrides true "" (Config.dll_overrides (config w)) in
      setenv "WINEDLLOVERRIDES" overrides true;;
      logger_debug ("DLL overrides set: " +:+ overrides)
  end.

Definition setup_registry_settings : M unit :=
  logger_debug "Setting up registry settings".

Definition setup_graphics_environment : M unit :=
  w ← get;
  let config := config w in
  (if String.eqb (Config.graphics_driver config) "x11"
   then setenv "DISPLAY" ":0" false
   else if String.eqb (Config.graphics_driver config) "wayland"
   then setenv "WAYLAND_DISPLAY" "wayland-0" false
   else mret tt);;
  when (Config.enable_dxvk config) (setenv "DXVK_HUD" "devinfo,fps" false).

Definition setup_audio_environment : M unit :=
  w ← get;
  let config := config w in
  if String.eqb (Config.audio_driver config) "alsa"
  then setenv "WINE_AUDIO_DRIVER" "alsa" true
  else if String.eqb (Config.audio_driver config) "pulse"
  then setenv "WINE_AUDIO_DRIVER" "pulse" true
  else if String.eqb (Config.audio_driver config) "oss"
  then setenv "WINE_AUDIO_DRIVER" "oss" true
  else mret tt.

(** [if (fd != -1) close(fd)] *)
Definition close_fd (fd : Z) : M unit :=
  when (negb (fd =? -1)) (emit (Closed fd)).

Definition close_pipes : M unit :=
  w ← get; close_fd (stdout_pipe w).1;;
  modify (λ w, with_stdout_pipe (-1, (stdout_pipe w).2) w);;
  w ← get; close_fd (stdout_pipe w).2;;
  modify (λ w, with_stdout_pipe ((stdout_pipe w).1, -1) w);;
  w ← get; close_fd (stderr_pipe w).1;;
  modify (λ w, with_stderr_pipe (-1, (stderr_pipe w).2) w);;
  w ← get; close_fd (stderr_pipe w).2;;
  modify (λ w, with_stderr_pipe ((stderr_pipe w).1, -1) w).

Definition setup_pipes : M bool :=
  w ← get; os ← ask;
  made ← (if Config.capture_stdout (config w) then
            match sys_pipe os false with
            | None => logger_error "Failed to create stdout pipe";; mret false
            | Some fds => modify (with_stdout_pipe fds);; mret true
            end
          else mret true);
  if negb made then mret false
  else if Config.capture_stderr (config w) then
    match sys_pipe os true with
    | None => logger_error "Failed to create stderr pipe";; close_pipes;; mret false
    | Some fds => modify (with_stderr_pipe fds);; mret true
    end
  else mret true.

Definition build_wine_command (exe_path : string) (args : list string)
    (config : WineConfiguration) : list string :=
  Config.wine_binary config :: exe_path :: args.

Definition execute_pre_launch_commands : M bool :=
  w ← get;
  for_each (λ cmd,
      logger_debug ("Executing pre-launch command: " +:+ cmd);;
      output ← execute_command cmd;
      emit (Hooked PreLaunch cmd output);;
      logger_debug ("Pre-launch command output: " +:+ output))
    (pre_launch_commands w);;
  mret true.

Definition execute_post_launch_commands : M bool :=
  w ← get;
  for_each (λ cmd,
      logger_debug ("Executing post-launch command: " +:+ cmd);;
      output ← execute_command cmd;
      emit (Hooked PostLaunch cmd output);;
      logger_debug ("Post-launch command output: " +:+ output))
    (post_launch_commands w);;
  mret true.

Definition validate_executable (exe_path : string) : M bool :=
  found ← file_exists exe_path;
  if negb found then
    logger_error ("Executable not found: " +:+ exe_path);; mret false
  else
    let ext := transform_tolower (get_extension exe_path) in
    when (negb (String.eqb ext ".exe") && negb (String.eqb ext ".msi")
          && negb (String.eqb ext ".bat"))
      (logger_warning ("Unexpected file extension: " +:+ ext));;
    mret true.

Definition resolve_path (path : string) : M string :=
  match path with
  | EmptyString => mret path
  | String c _ =>
      if Ascii.eqb c "~" then
        home ← get_home_directory; mret (home +:+ str_drop 1 path)
      else if negb (Ascii.eqb c "/") then
        cwd ← get_current_directory; mret (cwd +:+ "/" +:+ path)
      else mret path
  end.

(** <sys/wait.h> on Linux. [WIFSIGNALED] goes through a [signed char]. *)
Definition WIFEXITED (status : Z) : bool := Z.land status 127 =? 0.
Definition WEXITSTATUS (status : Z) : Z := Z.shiftr (Z.land status 65280) 8.
Definition WTERMSIG (status : Z) : Z := Z.land status 127.
Definition WIFSIGNALED (status : Z) : bool :=
  let x := Z.land status 127 + 1 in
  let signed_char := if 128 <=? x then x - 256 else x in
  0 <? Z.shiftr signed_char 1.

Definition wait_for_process (p : Z) : M Z :=
  os ← ask;
  let status := sys_waitpid os p in
  emit (Waited p status);;
  if WIFEXITED status then mret (WEXITSTATUS status)
  else if WIFSIGNALED status then mret (- WTERMSIG status)
  else mret (-1).

Definition execute (exe_path : string) (arguments : list string) : M Z :=
  resolved_path ← resolve_path exe_path;
  valid ← validate_executable resolved_path;
  if negb valid then mret (-1) else
  logger_info ("Executing: " +:+ resolved_path);;
  ran ← execute_pre_launch_commands;
  if negb ran then logger_error "Pre-launch commands failed";; mret (-1) else
  setup_environment;;
  setup_dll_overrides;;
  setup_graphics_environment;;
  setup_audio_environment;;
  setup_registry_settings;;
  piped ← setup_pipes;
  if negb piped then mret (-1) else
  w ← get; os ← ask;
  let command := build_wine_command resolved_path arguments (config w) in
  emit (Spawned command (environ w) (Config.nice_level (config w)) (sys_fork os));;
  match sys_fork os with
  | None =>
      logger_error "Failed to fork process";;
      close_pipes;;
      mret (-1)
  | Some child =>
      let p := Z.pos child in
      close_fd (stdout_pipe w).2;;
      close_fd (stderr_pipe w).2;;
      modify (with_current_pid p);;
      modify (with_execution_active true);;
      let info :=
        {| pid := p; state := STARTING; executable_path := resolved_path;
           arguments := arguments; environment := ∅;
           start_time := sys_now os; end_time := 0; exit_code := 0;
           stdout_data := ""; stderr_data := "";
           memory_usage := uninit_size_t os; cpu_usage := uninit_double os;
           wine_prefix := Config.wine_prefix (config w);
           architecture := Config.architecture (config w) |} in
      add_process p info;;
      logger_info ("Started process with PID: " +:+ to_string p);;
      mret p
  end.

Definition execute_async (exe_path : string) (arguments : list string) : M bool :=
  p ← execute exe_path arguments;
  mret (0 <? p).

Definition execute_sync (exe_path : string) (arguments : list string) : M Z :=
  p ← execute exe_path arguments;
  if p <=? 0 then mret (-1) else
  exit_code ← wait_for_process p;
  execute_post_launch_commands;;
  modify (with_execution_active false);;
  close_pipes;;
  logger_info ("Process " +:+ to_string p +:+ " exited with code: "
               +:+ to_string exit_code);;
  mret exit_code.

(** ** Notions used to state the properties *)

(** The value and the state a call returns, if it returns. *)
Definition value_of {A} (o : outcome (A * World)) : option A :=
  match o with
  | Ret (a, _) => Some a
  | Throw => None
  end.

Definition world_of {A} (o : outcome (A * World)) : option World :=
  match o with
  | Ret (_, w) => Some w
  | Throw => None
  end.

(** The key order [std::map] keeps. *)
Definition table_ok (t : list (Z * ProcessInfo)) : Prop :=
  StronglySorted Z.lt (map fst t).

(** A logger call at error level. *)
Definition is_error_log (e : Effect) : bool :=
  match e with
  | Logged ERROR_LOG _ => true
  | _ => false
  end.


(** The observer calls, in a trace, that carry a record of process [p]. *)
Definition notifications_of (p : Z) (tr : list Effect) : list Effect :=
  List.filter
    (λ e, match e with Notified _ info => pid info =? p | _ => false end) tr.

(** What a pass makes of the record of a process that fails the probe. *)
Definition stopped_at (os : OS) (info : ProcessInfo) : ProcessInfo :=
  set_end_time (sys_now os) (set_state STOPPED info).

(** The members a monitor pass never writes. *)
Definition same_identity (a b : ProcessInfo) : Prop :=
  pid b = pid a ∧ executable_path b = executable_path a
  ∧ arguments b = arguments a ∧ environment b = environment a
  ∧ start_time b = start_time a ∧ exit_code b = exit_code a
  ∧ stdout_data b = stdout_data a ∧ stderr_data b = stderr_data a
  ∧ wine_prefix b = wine_prefix a ∧ architecture b = architecture a.

(** Every record is filed under its own pid, as [execute] files them. *)
Definition table_consistent (t : list (Z * ProcessInfo)) : Prop :=
  Forall (λ e, pid e.2 = e.1) t.

(** What a pass makes of the record of a live process whose run state it
    reads as [s]. *)
Definition refreshed_at (os : OS) (s : ProcessState) (info : ProcessInfo) : ProcessInfo :=
  set_state s
    (set_memory_usage
       (match proc_vmrss os (pid info) with
        | None => 0
        | Some value => (value * 1024) mod 2 ^ 64
        end)
       (set_cpu_usage 0%Q info)).

(** How a pass under [os] relates a table entry to what it leaves. *)
Definition visited (os : OS) (w : World) (e e' : Z * ProcessInfo) : Prop :=
  e'.1 = e.1 ∧
  if sys_kill os e.1 0
  then ∃ s, value_of (get_process_state (pid e.2) os w) = Some s
            ∧ e'.2 = refreshed_at os s e.2
  else e'.2 = stopped_at os e.2.

(** The observer calls of one pass over the entries [t]. *)
Definition scan_notifications (os : OS) (callbacks : list nat)
    (t : list (Z * ProcessInfo)) : list Effect :=
  flat_map (λ e, if sys_kill os e.1 0 then []
                 else map (λ cb, Notified cb (stopped_at os e.2)) callbacks) t.

(** [dead_processes] at the end of one pass over the entries [t]. *)
Definition dead_keys (os : OS) (t : list (Z * ProcessInfo)) : list Z :=
  map fst (List.filter (λ e, negb (sys_kill os e.1 0)) t).

(** The four signal operations of the interface: pause, resume, terminate
    ([WineApplicationManager::terminate_process]) and kill with a signal. *)
Inductive SignalOp := OpPause | OpResume | OpTerminate | OpKill (signal : Z).


Definition signal_operation (o : SignalOp) (p : Z) : M unit :=
  match o with
  | OpPause => pause_process p
  | OpResume => resume_process p
  | OpTerminate => terminate_process p
  | OpKill signal => kill_process p signal
  end.

(** The record filed under [p] and the trace once a run has ended. *)
Definition record_after (o : outcome World) (p : Z) : option ProcessInfo :=
  match o with
  | Ret w => table_find p (monitored_processes w)
  | Throw => None
  end.

Definition trace_after (o : outcome World) : list Effect :=
  match o with
  | Ret w => trace w
  | Throw => []
  end.

(** [stat] succeeds on [path] and reports a regular file. *)
Definition is_regular_file (os : OS) (path : string) : bool :=
  match sys_stat os path with
  | Some st_mode => S_ISREG st_mode
  | None => false
  end.

(** The requested capture channels can all be created. *)
Definition pipes_available (os : OS) (c : WineConfiguration) : bool :=
  (negb (Config.capture_stdout c) || bool_decide (is_Some (sys_pipe os false)))
  && (negb (Config.capture_stderr c) || bool_decide (is_Some (sys_pipe os true))).

(** What running the hooks [cmds] of a phase leaves in the trace. *)
Definition hook_effects (phase : HookPhase) (os : OS) (cmds : list string)
  : list Effect :=
  flat_map (λ cmd,
    let output := default "" (sys_popen os cmd) in
    match phase with
    | PreLaunch =>
        [Logged DEBUG ("Executing pre-launch command: " +:+ cmd);
         Hooked PreLaunch cmd output;
         Logged DEBUG ("Pre-launch command output: " +:+ output)]
    | PostLaunch =>
        [Logged DEBUG ("Executing post-launch command: " +:+ cmd);
         Hooked PostLaunch cmd output;
         Logged DEBUG ("Post-launch command output: " +:+ output)]
    end) cmds.

(** Effects that belong to the launch itself: anything but a post-launch
    hook, a wait for the child, or an observer call. *)
Definition is_launch_effect (e : Effect) : bool :=
  match e with
  | Hooked PostLaunch _ _ | Waited _ _ | Notified _ _ => false
  | _ => true
  end.

(** [w'] differs from [w] at most in the process table, the environment,
    the pipe descriptors, the current pid, the activity flag, and by launch
    effects appended to the trace. *)
Definition launch_frame (w w' : World) : Prop :=
  state_change_callbacks w' = state_change_callbacks w
  ∧ config w' = config w
  ∧ custom_environment w' = custom_environment w
  ∧ pre_launch_commands w' = pre_launch_commands w
  ∧ post_launch_commands w' = post_launch_commands w
  ∧ ∃ effects, trace w' = trace w ++ effects
               ∧ Forall (λ e, is_launch_effect e = true) effects.

(** The same, with the process table and the environment left as they
    were. *)
Definition frame (w w' : World) : Prop :=
  monitored_processes w' = monitored_processes w
  ∧ environ w' = environ w
  ∧ launch_frame w w'.

(** [m] always returns, and within the frame. *)
Definition framed {A} (m : M A) : Prop :=
  ∀ os w, ∃ a w', m os w = Ret (a, w') ∧ frame w w'.

(** The record [execute] files for a child [p] spawned under [os]. *)
Definition launched_record (os : OS) (c : WineConfiguration) (p : Z)
    (resolved_path : string) (args : list string) : ProcessInfo :=
  {| pid := p; state := STARTING; executable_path := resolved_path;
     arguments := args; environment := ∅;
     start_time := sys_now os; end_time := 0; exit_code := 0;
     stdout_data := ""; stderr_data := "";
     memory_usage := uninit_size_t os; cpu_usage := uninit_double os;
     wine_prefix := Config.wine_prefix c;
     architecture := Config.architecture c |}.

(** The state a call leaves, its value forgotten. *)
Definition after {A} (o : outcome (A * World)) : outcome World :=
  match o with
  | Ret (_, w) => Ret w
  | Throw => Throw
  end.

(** The identifier [p] is in the Process Table. *)
Definition tracked (p : Z) (w : World) : Prop :=
  is_Some (table_find p (monitored_processes w)).

(** The calls a client of the supervisor can make, and the pass of the
    monitor thread. *)
Inductive Call :=
| CallTick
| CallSignal (o : SignalOp) (p : Z)
| CallKillAll
| CallAdd (p : Z) (info : ProcessInfo)
| CallRemove (p : Z)
| CallQuery (p : Z)
| CallList
| CallIsMonitored (p : Z)
| CallRegister (callback : nat)
| CallClear
| CallLaunch (path : string) (args : list string)
| CallLaunchAsync (path : string) (args : list string)
| CallLaunchSync (path : string) (args : list string).

Definition run_call (c : Call) : M unit :=
  match c with
  | CallTick => monitor_tick
  | CallSignal o p => signal_operation o p
  | CallKillAll => kill_all_processes
  | CallAdd p info => add_process p info
  | CallRemove p => remove_process p
  | CallQuery p => get_process_info p;; mret tt
  | CallList => get_all_processes;; mret tt
  | CallIsMonitored p => is_process_monitored p;; mret tt
  | CallRegister callback => register_callback callback
  | CallClear => clear_callbacks
  | CallLaunch path args => execute path args;; mret tt
  | CallLaunchAsync path args => execute_async path args;; mret tt
  | CallLaunchSync path args => execute_sync path args;; mret tt
  end.

(** A history: each call with the system as it is when the call runs. *)
Fixpoint run_calls (cs : list (OS * Call)) (w : World) : outcome World :=
  match cs with
  | [] => Ret w
  | (os, c) :: cs' =>
      match run_call c os w with
      | Ret (_, w') => run_calls cs' w'
      | Throw => Throw
      end
  end.

(** *** The environment of the child

    The four environment steps of [execute], as functions on the
    environment alone. *)

(** [if (b) setenv(name, value, overwrite)] *)
Definition setenv_if (b : bool) (name value : string) (overwrite : bool)
    (e : gmap string string) : gmap string string :=
  if b then setenv_in name value overwrite e else e.

Definition environment_after_setup (c : WineConfiguration)
    (custom e : gmap string string) : gmap string string :=
  let e := setenv_in "WINEPREFIX" (Config.wine_prefix c) true e in
  let e := match Config.architecture c with
           | WIN32 => setenv_in "WINEARCH" "win32" true e
           | WIN64 => setenv_in "WINEARCH" "win64" true e
           | AUTO_DETECT => e
           end in
  let e := setenv_if (Config.enable_virtual_desktop c
                      && negb (String.eqb (Config.virtual_desktop_resolution c) ""))
             "WINE_VD_RESOLUTION" (Config.virtual_desktop_resolution c) true e in
  let e := setenv_if (Config.enable_csmt c) "CSMT" "enabled" true e in
  let e := setenv_if (Config.enable_esync c) "WINEESYNC" "1" true e in
  let e := setenv_if (Config.enable_fsync c) "WINEFSYNC" "1" true e in
  let e := setenv_if (negb (String.eqb (Config.audio_driver c) ""))
             "WINEDLLOVERRIDES" "winemapi.dll=n,b" true e in
  setenv_each_in (Config.environment_variables c) (setenv_each_in custom e).

Definition environment_after_dll_overrides (c : WineConfiguration)
    (e : gmap string string) : gmap string string :=
  match Config.dll_overrides c with
  | [] => e
  | _ :: _ =>
      setenv_in "WINEDLLOVERRIDES" (join_overrides true "" (Config.dll_overrides c)) true e
  end.

Definition environment_after_graphics (c : WineConfiguration)
    (e : gmap string string) : gmap string string :=
  let e := if String.eqb (Config.graphics_driver c) "x11"
           then setenv_in "DISPLAY" ":0" false e
           else if String.eqb (Config.graphics_driver c) "wayland"
           then setenv_in "WAYLAND_DISPLAY" "wayland-0" false e
           else e in
  setenv_if (Config.enable_dxvk c) "DXVK_HUD" "devinfo,fps" false e.

Definition environment_after_audio (c : WineConfiguration)
    (e : gmap string string) : gmap string string :=
  if String.eqb (Config.audio_driver c) "alsa"
  then setenv_in "WINE_AUDIO_DRIVER" "alsa" true e
  else if String.eqb (Config.audio_driver c) "pulse"
  then setenv_in "WINE_AUDIO_DRIVER" "pulse" true e
  else if String.eqb (Config.audio_driver c) "oss"
  then setenv_in "WINE_AUDIO_DRIVER" "oss" true e
  else e.

(** The steps in the order [execute] runs them. *)
Definition assemble_environment : M unit :=
  setup_environment;;
  setup_dll_overrides;;
  setup_graphics_environment;;
  setup_audio_environment.

(** The environment the child is spawned with. *)
Definition child_environment (c : WineConfiguration)
    (custom inherited : gmap string string) : gmap string string :=
  environment_after_audio c
    (environment_after_graphics c
       (environment_after_dll_overrides c
          (environment_after_setup c custom inherited))).

(** Sources of a value for one variable name, and the first of a list of
    sources that defines it. *)
Definition or_else (a b : option string) : option string :=
  match a with
  | Some v => Some v
  | None => b
  end.

Definition first_defined (l : list (option string)) : option string :=
  foldr or_else None l.

(** The source that defines [name] as [value] when [b] holds, asked about
    the name [k]. *)
Definition entry (b : bool) (name value k : string) : option string :=
  if b && String.eqb k name then Some value else None.

(** The user-supplied overrides: the configuration's environment
    variables, then those added with [add_environment_variable]. *)
Definition user_override (c : WineConfiguration) (custom : gmap string string)
    (k : string) : option string :=
  first_defined [Config.environment_variables c !! k; custom !! k].

(** The feature-derived and prefix variables that [setup_environment]
    sets before the user overrides. *)
Definition early_feature (c : WineConfiguration) (k : string) : option string :=
  first_defined
    [entry (negb (String.eqb (Config.audio_driver c) ""))
       "WINEDLLOVERRIDES" "winemapi.dll=n,b" k;
     entry (Config.enable_fsync c) "WINEFSYNC" "1" k;
     entry (Config.enable_esync c) "WINEESYNC" "1" k;
     entry (Config.enable_csmt c) "CSMT" "enabled" k;
     entry (Config.enable_virtual_desktop c
            && negb (String.eqb (Config.virtual_desktop_resolution c) ""))
       "WINE_VD_RESOLUTION" (Config.virtual_desktop_resolution c) k;
     match Config.architecture c with
     | WIN32 => entry true "WINEARCH" "win32" k
     | WIN64 => entry true "WINEARCH" "win64" k
     | AUTO_DETECT => None
     end;
     entry true "WINEPREFIX" (Config.wine_prefix c) k].

(** The feature-derived variables that [setup_audio_environment] and
    [setup_dll_overrides] set, overwriting, after the user overrides. *)
Definition late_feature (c : WineConfiguration) (k : string) : option string :=
  first_defined
    [entry (String.eqb (Config.audio_driver c) "alsa"
            || String.eqb (Config.audio_driver c) "pulse"
            || String.eqb (Config.audio_driver c) "oss")
       "WINE_AUDIO_DRIVER" (Config.audio_driver c) k;
     match Config.dll_overrides c with
     | [] => None
     | _ :: _ =>
         entry true "WINEDLLOVERRIDES"
           (join_overrides true "" (Config.dll_overrides c)) k
     end].

(** The hints that [setup_graphics_environment] sets without
    overwriting. *)
Definition graphics_default (c : WineConfiguration) (k : string) : option string :=
  first_defined
    [entry (String.eqb (Config.graphics_driver c) "x11") "DISPLAY" ":0" k;
     entry (negb (String.eqb (Config.graphics_driver c) "x11")
            && String.eqb (Config.graphics_driver c) "wayland")
       "WAYLAND_DISPLAY" "wayland-0" k;
     entry (Config.enable_dxvk c) "DXVK_HUD" "devinfo,fps" k].

(** The value of a variable in the environment a run leaves. *)
Definition environment_after (o : outcome World) (k : string) : option string :=
  match o with
  | Ret w => environ w !! k
  | Throw => None
  end.

(** The table is in key order and every record is filed under its pid. *)
Definition table_filed (w : World) : Prop :=
  table_ok (monitored_processes w) ∧ table_consistent (monitored_processes w).

(** What a call must satisfy for the table to stay filed by pid:
    [add_process] is given a record under its own pid. *)
Definition files_by_pid (c : Call) : Prop :=
  match c with
  | CallAdd p info => pid info = p
  | _ => True
  end.

(** A pass returns whenever no stat line it reads ends right after its
    last closing parenthesis. *)
Definition stat_lines_ok (os : OS) : Prop :=
  ∀ p line last_paren,
    proc_stat os p = Some line → str_rfind ")" line = Some last_paren →
    (last_paren + 2 ≤ String.length line)%nat.

(** ** Concrete inputs *)

Definition example_config : WineConfiguration :=
  {| Config.wine_prefix := "/home/u/.wine"; Config.wine_binary := "wine";
     Config.architecture := AUTO_DETECT; Config.environment_variables := ∅;
     Config.registry_overrides := ∅; Config.dll_overrides := [];
     Config.virtual_desktop_resolution := "";
     Config.enable_virtual_desktop := false; Config.enable_csmt := true;
     Config.enable_dxvk := false; Config.enable_esync := true;
     Config.enable_fsync := false; Config.audio_driver := "alsa";
     Config.graphics_driver := "x11"; Config.nice_level := 0;
     Config.winetricks_components := []; Config.debug_output := false;
     Config.log_file := ""; Config.max_log_size_mb := 100;
     Config.capture_stdout := false; Config.capture_stderr := false |}.

(** A supervisor that tracks nothing yet, with one observer registered. *)
Definition example_world : World :=
  {| environ := {[ "HOME" := "/home/u" ]}; monitored_processes := [];
     state_change_callbacks := [7%nat]; config := example_config;
     custom_environment := ∅;
     pre_launch_commands := ["echo pre"]; post_launch_commands := ["echo post"];
     stdout_pipe := (-1, -1); stderr_pipe := (-1, -1);
     current_process_pid := -1; execution_active := false; trace := [] |}.

Definition example_record (p : Z) (s : ProcessState) : ProcessInfo :=
  {| pid := p; state := s; executable_path := "/home/u/game.exe";
     arguments := []; environment := ∅; start_time := 5; end_time := 0;
     exit_code := 0; stdout_data := ""; stderr_data := ""; memory_usage := 0;
     cpu_usage := 0%Q; wine_prefix := "/home/u/.wine";
     architecture := AUTO_DETECT |}.

(** A system in which every process exists and runs, /home/u/game.exe and
    /home/u/tool.bin are regular files (mode 0100644), and fork yields pid
    42 at instant [now]. *)
Definition example_os (now : Z) : OS :=
  {| sys_kill := λ _ _, true; sys_now := now;
     proc_stat := λ _, Some "42 (wine) S 1 42 42 0 -1";
     proc_vmrss := λ _, Some 2048;
     sys_stat := λ path,
       if String.eqb path "/home/u/game.exe" || String.eqb path "/home/u/tool.bin"
       then Some 33188 else None;
     sys_access_r := λ _, true; sys_getcwd := Some "/home/u";
     sys_pw_dir := None; sys_popen := λ _, Some "done";
     sys_pipe := λ b, Some (if b then (5, 6) else (3, 4));
     sys_fork := Some 42%positive; sys_waitpid := λ _, 0;
     uninit_size_t := 0; uninit_double := 0%Q |}.

(** The same system, where the two files have mode 0100000: no read
    permission for anybody. *)
Definition example_os_unreadable (now : Z) : OS :=
  {| sys_kill := λ _ _, true; sys_now := now;
     proc_stat := λ _, Some "42 (wine) S 1 42 42 0 -1";
     proc_vmrss := λ _, Some 2048;
     sys_stat := λ path,
       if String.eqb path "/home/u/game.exe" || String.eqb path "/home/u/tool.bin"
       then Some 32768 else None;
     sys_access_r := λ _, false; sys_getcwd := Some "/home/u";
     sys_pw_dir := None; sys_popen := λ _, Some "done";
     sys_pipe := λ b, Some (if b then (5, 6) else (3, 4));
     sys_fork := Some 42%positive; sys_waitpid := λ _, 0;
     uninit_size_t := 0; uninit_double := 0%Q |}.

(** The same system after every process has gone. *)
Definition example_os_dead (now : Z) : OS :=
  {| sys_kill := λ _ _, false; sys_now := now;
     proc_stat := λ _, None; proc_vmrss := λ _, None;
     sys_stat := sys_stat (example_os now); sys_access_r := λ _, true;
     sys_getcwd := Some "/home/u"; sys_pw_dir := None;
     sys_popen := λ _, Some "done"; sys_pipe := λ _, None;
     sys_fork := None; sys_waitpid := λ _, 0;
     uninit_size_t := 0; uninit_double := 0%Q |}.

(** The same system with process 42 stopped by a signal. *)
Definition example_os_stopped (now : Z) : OS :=
  {| sys_kill := λ _ _, true; sys_now := now;
     proc_stat := λ _, Some "42 (wine) T 1 42 42 0 -1";
     proc_vmrss := λ _, Some 2048;
     sys_stat := sys_stat (example_os now); sys_access_r := λ _, true;
     sys_getcwd := Some "/home/u"; sys_pw_dir := None;
     sys_popen := λ _, Some "done"; sys_pipe := λ _, None;
     sys_fork := None; sys_waitpid := λ _, 0;
     uninit_size_t := 0; uninit_double := 0%Q |}.

(** The same system with process 42 exited but not yet reaped: a zombie
    still answers the liveness probe. *)
Definition example_os_zombie (now : Z) : OS :=
  {| sys_kill := λ _ _, true; sys_now := now;
     proc_stat := λ _, Some "42 (wine) Z 1 42 42 0 -1";
     proc_vmrss := λ _, None;
     sys_stat := sys_stat (example_os now); sys_access_r := λ _, true;
     sys_getcwd := Some "/home/u"; sys_pw_dir := None;
     sys_popen := λ _, Some "done"; sys_pipe := λ _, None;
     sys_fork := None; sys_waitpid := λ _, 0;
     uninit_size_t := 0; uninit_double := 0%Q |}.

(** A supervisor that tracks process 42 in state [s]. *)
Definition example_tracking (s : ProcessState) : World :=
  with_monitored [(42, example_record 42 s)] example_world.

(** A configuration in which the user overrides collide with the
    feature-derived variables: a DLL override list, the alsa driver, and
    user values for WINEDLLOVERRIDES, WINE_AUDIO_DRIVER and WINEESYNC. *)
Definition override_config : WineConfiguration :=
  {| Config.wine_prefix := "/home/u/.wine"; Config.wine_binary := "wine";
     Config.architecture := WIN64;
     Config.environment_variables :=
       {[ "WINEDLLOVERRIDES" := "mine"; "WINE_AUDIO_DRIVER" := "jack";
          "WINEESYNC" := "0" ]};
     Config.registry_overrides := ∅; Config.dll_overrides := ["d3d11=n"; "dxgi=n"];
     Config.virtual_desktop_resolution := "";
     Config.enable_virtual_desktop := false; Config.enable_csmt := true;
     Config.enable_dxvk := false; Config.enable_esync := true;
     Config.enable_fsync := false; Config.audio_driver := "alsa";
     Config.graphics_driver := "x11"; Config.nice_level := 0;
     Config.winetricks_components := []; Config.debug_output := false;
     Config.log_file := ""; Config.max_log_size_mb := 100;
     Config.capture_stdout := false; Config.capture_stderr := false |}.

(** The supervisor with that configuration, started from a session that
    already has DISPLAY and WINEESYNC in its environment. *)
Definition override_world : World :=
  {| environ := {[ "HOME" := "/home/u"; "DISPLAY" := ":1"; "WINEESYNC" := "1" ]};
     monitored_processes := [];
     state_change_callbacks := []; config := override_config;
     custom_environment := ∅;
     pre_launch_commands := []; post_launch_commands := [];
     stdout_pipe := (-1, -1); stderr_pipe := (-1, -1);
     current_process_pid := -1; execution_active := false; trace := [] |}.

(** ** Utils: path names (wine_executor.cpp) *)

(** [s.back()]; the code calls it on a non-empty string only. *)
Fixpoint str_back (s : string) : ascii :=
  match s with
  | EmptyString => zero
  | String a s' =>
      match s' with
      | EmptyString => a
      | String _ _ => str_back s'
      end
  end.

Definition get_filename (path : string) : string :=
  match str_rfind "/" path with
  | Some slash_pos => str_drop (slash_pos + 1) path
  | None => path
  end.

Definition get_directory (path : string) : string :=
  match str_rfind "/" path with
  | Some slash_pos => String.substring 0 slash_pos path
  | None => "."
  end.

Definition join_paths (path1 path2 : string) : string :=
  if String.eqb path1 "" then path2
  else if String.eqb path2 "" then path1
  else if Ascii.eqb (str_back path1) "/" then path1 +:+ path2
  else path1 +:+ "/" +:+ path2.

(** ** RegistryManager: escaping (wine_executor.cpp) *)

Definition backslash : ascii := "092"%char.
Definition double_quote : ascii := "034"%char.

(** [escaped += c] appends; the loop runs over [value] from its first
    character. *)
Fixpoint escape_registry_value (value : string) : string :=
  match value with
  | EmptyString => EmptyString
  | String c rest =>
      if Ascii.eqb c backslash || Ascii.eqb c double_quote
      then String backslash (String c (escape_registry_value rest))
      else String c (escape_registry_value rest)
  end.

(** The loop of [unescape_registry_value], entered with the given
    [escape_next]. *)
Fixpoint unescape_from (escape_next : bool) (value : string) : string :=
  match value with
  | EmptyString => EmptyString
  | String c rest =>
      if escape_next then String c (unescape_from false rest)
      else if Ascii.eqb c backslash then unescape_from true rest
      else String c (unescape_from false rest)
  end.

Definition unescape_registry_value (value : string) : string :=
  unescape_from false value.

(** ** Utils: base64 (wine_executor.cpp) *)

(** [int] is 32 bits wide, in two's complement: [<<] keeps the low 32 bits
    of the product and [>>] is the arithmetic shift, which [Z.shiftr] is. *)
Definition to_int (z : Z) : Z := (z + 2 ^ 31) mod 2 ^ 32 - 2 ^ 31.
Definition int_shl (a n : Z) : Z := to_int (Z.shiftl a n).
Definition int_add (a b : Z) : Z := to_int (a + b).

(** A [char] read as [unsigned char], and an [int] in 0..255 stored as a
    [char]. *)
Definition byte_of (c : ascii) : Z := Z.of_N (N_of_ascii c).
Definition char_of (z : Z) : ascii := ascii_of_N (Z.to_N z).

(** [s[i]] and [s.push_back(c)] *)
Definition str_at (s : string) (i : Z) : ascii :=
  default zero (String.get (Z.to_nat i) s).
Definition push_back (s : string) (c : ascii) : string := s +:+ String c "".

Definition base64_chars : string :=
  "ABCDEFGHIJKLMNOPQRSTUVWXYZabcdefghijklmnopqrstuvwxyz0123456789+/".

(** [while (valb >= 0) { output.push_back(...); valb -= 6; }], for at most
    [fuel] rounds; [valb + 1] rounds are always enough. *)
Fixpoint encode_flush (fuel : nat) (val valb : Z) (output : string) : Z * string :=
  match fuel with
  | O => (valb, output)
  | S fuel' =>
      if 0 <=? valb then
        encode_flush fuel' val (valb - 6)
          (push_back output (str_at base64_chars (Z.land (Z.shiftr val valb) 63)))
      else (valb, output)
  end.

(** [for (unsigned char c : input)] of [encode_base64]; [valb] stays
    between -6 and 6. *)
Fixpoint encode_loop (input : string) (val valb : Z) (output : string)
  : Z * Z * string :=
  match input with
  | EmptyString => (val, valb, output)
  | String c rest =>
      let val := int_add (int_shl val 8) (byte_of c) in
      let valb := valb + 8 in
      let r := encode_flush (Z.to_nat (valb + 1)) val valb output in
      encode_loop rest val r.1 r.2
  end.

(** [while (output.size() % 4) output.push_back('=')], for at most [fuel]
    rounds; three are always enough. *)
Fixpoint encode_pad (fuel : nat) (output : string) : string :=
  match fuel with
  | O => output
  | S fuel' =>
      if (String.length output mod 4 =? 0)%nat then output
      else encode_pad fuel' (push_back output "=")
  end.

Definition encode_base64 (input : string) : string :=
  let '(val, valb, output) := encode_loop input 0 (-6) "" in
  let output :=
    if -6 <? valb
    then push_back output
           (str_at base64_chars (Z.land (Z.shiftr (int_shl val 8) (valb + 8)) 63))
    else output in
  encode_pad 3 output.

Definition base64_decode_table : list Z :=
  [64; 64; 64; 64; 64; 64; 64; 64; 64; 64; 64; 64; 64; 64; 64; 64;
   64; 64; 64; 64; 64; 64; 64; 64; 64; 64; 64; 64; 64; 64; 64; 64;
   64; 64; 64; 64; 64; 64; 64; 64; 64; 64; 64; 62; 64; 64; 64; 63;
   52; 53; 54; 55; 56; 57; 58; 59; 60; 61; 64; 64; 64; 64; 64; 64;
   64;  0;  1;  2;  3;  4;  5;  6;  7;  8;  9; 10; 11; 12; 13; 14;
   15; 16; 17; 18; 19; 20; 21; 22; 23; 24; 25; 64; 64; 64; 64; 64;
   64; 26; 27; 28; 29; 30; 31; 32; 33; 34; 35; 36; 37; 38; 39; 40;
   41; 42; 43; 44; 45; 46; 47; 48; 49; 50; 51; 64; 64; 64; 64; 64;
   64; 64; 64; 64; 64; 64; 64; 64; 64; 64; 64; 64; 64; 64; 64; 64;
   64; 64; 64; 64; 64; 64; 64; 64; 64; 64; 64; 64; 64; 64; 64; 64;
   64; 64; 64; 64; 64; 64; 64; 64; 64; 64; 64; 64; 64; 64; 64; 64;
   64; 64; 64; 64; 64; 64; 64; 64; 64; 64; 64; 64; 64; 64; 64; 64;
   64; 64; 64; 64; 64; 64; 64; 64; 64; 64; 64; 64; 64; 64; 64; 64;
   64; 64; 64; 64; 64; 64; 64; 64; 64; 64; 64; 64; 64; 64; 64; 64;
   64; 64; 64; 64; 64; 64; 64; 64; 64; 64; 64; 64; 64; 64; 64; 64;
   64; 64; 64; 64; 64; 64; 64; 64; 64; 64; 64; 64; 64; 64; 64; 64].

(** [base64_decode_table[c]] *)
Definition decode_entry (c : ascii) : Z :=
  nth (N.to_nat (N_of_ascii c)) base64_decode_table 64.

(** [for (unsigned char c : input)] of [decode_base64]; a character
    outside the alphabet ends the loop. *)
Fixpoint decode_loop (input : string) (val valb : Z) (output : string) : string :=
  match input with
  | EmptyString => output
  | String c rest =>
      if decode_entry c =? 64 then output
      else
        let val := int_add (int_shl val 6) (decode_entry c) in
        let valb := valb + 6 in
        if 0 <=? valb then
          decode_loop rest val (valb - 8)
            (push_back output (char_of (Z.land (Z.shiftr val valb) 255)))
        else decode_loop rest val valb output
  end.

Definition decode_base64 (input : string) : string :=
  decode_loop input 0 (-8) "".

(** What [encode_base64] does once its loop has ended. *)
Definition encode_finish (r : Z * Z * string) : string :=
  let '(val, valb, output) := r in
  encode_pad 3
    (if -6 <? valb
     then push_back output
            (str_at base64_chars (Z.land (Z.shiftr (int_shl val 8) (valb + 8)) 63))
     else output).

(** ** Files

    What the code reads and writes through [std::ifstream] and
    [std::ofstream]: the text of every file that can be opened for reading,
    and whether a path can be opened for writing. A file that has been
    written can be read back. *)

Record Disk := mkDisk {
  disk_text : gmap string string;
  disk_writable : string → bool
}.

Definition tab : ascii := "009"%char.
Definition newline : ascii := "010"%char.
Definition carriage_return : ascii := "013"%char.

(** ** ConfigurationParser (wine_executor.cpp) *)

(** [s.find_first_not_of(set)] and [s.find_last_not_of(set)] *)
Fixpoint find_first_not_of (set s : string) : option nat :=
  match s with
  | EmptyString => None
  | String a s' =>
      if str_contains a set then S <$> find_first_not_of set s' else Some 0%nat
  end.

Fixpoint find_last_not_of (set s : string) : option nat :=
  match s with
  | EmptyString => None
  | String a s' =>
      match find_last_not_of set s' with
      | Some i => Some (S i)
      | None => if str_contains a set then None else Some 0%nat
      end
  end.

(** What [std::getline(stream, token, delimiter)] yields, call after call,
    until it fails: [token] is what the current call has read so far. At the
    end of the text a call that has read nothing fails. *)
Fixpoint getlines (delimiter : ascii) (token text : string) : list string :=
  match text with
  | EmptyString => if String.eqb token "" then [] else [token]
  | String c rest =>
      if Ascii.eqb c delimiter then token :: getlines delimiter "" rest
      else getlines delimiter (token +:+ String c "") rest
  end.

Module Parser.

Record ConfigurationParser := mkConfigurationParser {
  config_data : gmap string string;
  config_file_path : string
}.

(** [" \t\n\r"] *)
Definition whitespace : string :=
  String " " (String tab (String newline (String carriage_return ""))).

(** [str.erase(0, n)] removes everything when [n] is [npos];
    [str.erase(n + 1)] removes everything when [n] is [npos], as [npos + 1]
    is 0. *)
Definition trim (str : string) : string :=
  let str := match find_first_not_of whitespace str with
             | Some n => str_drop n str
             | None => ""
             end in
  match find_last_not_of whitespace str with
  | Some n => String.substring 0 (n + 1) str
  | None => ""
  end.

Definition split (str : string) (delimiter : ascii) : list string :=
  getlines delimiter "" str.

(** The value returned, and [config_data] after the call. *)
Definition parse_line (line : string) (config_data : gmap string string)
  : bool * gmap string string :=
  if String.eqb line "" || Ascii.eqb (str_front line) "#"
     || Ascii.eqb (str_front line) ";"
  then (true, config_data)
  else
    match str_find "=" line with
    | None => (false, config_data)
    | Some eq_pos =>
        let key := trim (String.substring 0 eq_pos line) in
        let value := trim (str_drop (eq_pos + 1) line) in
        (true, <[key := value]> config_data)
    end.

Definition load_from_file (file_path : string) (p : ConfigurationParser)
    (d : Disk) : bool * ConfigurationParser :=
  match disk_text d !! file_path with
  | None => (false, mkConfigurationParser (config_data p) file_path)
  | Some text =>
      (true,
       mkConfigurationParser
         (foldl (λ data line, (parse_line line data).2) ∅ (getlines newline "" text))
         file_path)
  end.

(** The pairs of a [std::map<std::string, std::string>] in the order a
    range-for visits them: by key, compared as [std::string] compares. *)
Definition key_le (a b : string * string) : Prop := String.leb a.1 b.1 = true.

Global Instance key_le_dec : RelDecision key_le :=
  λ a b, bool_eq_dec (String.leb a.1 b.1) true.

Definition in_key_order (m : gmap string string) : list (string * string) :=
  merge_sort key_le (map_to_list m).

(** [file << pair.first << "=" << pair.second << "\n"] for every pair *)
Fixpoint write_pairs (l : list (string * string)) : string :=
  match l with
  | [] => ""
  | kv :: l' =>
      kv.1 +:+ "=" +:+ kv.2 +:+ String newline "" +:+ write_pairs l'
  end.

(** The value returned, and the files after the call. *)
Definition save_to_file (file_path : string) (p : ConfigurationParser)
    (d : Disk) : bool * Disk :=
  if disk_writable d file_path then
    (true,
     mkDisk (<[file_path := write_pairs (in_key_order (config_data p))]> (disk_text d))
       (disk_writable d))
  else (false, d).

Definition set_value (key value : string) (p : ConfigurationParser)
  : ConfigurationParser :=
  mkConfigurationParser (<[key := value]> (config_data p)) (config_file_path p).

Definition get_value (key default_value : string) (p : ConfigurationParser)
  : string :=
  match config_data p !! key with
  | Some value => value
  | None => default_value
  end.

Definition has_key (key : string) (p : ConfigurationParser) : bool :=
  bool_decide (is_Some (config_data p !! key)).

Definition remove_key (key : string) (p : ConfigurationParser)
  : ConfigurationParser :=
  mkConfigurationParser (delete key (config_data p)) (config_file_path p).

Definition clear (p : ConfigurationParser) : ConfigurationParser :=
  mkConfigurationParser ∅ (config_file_path p).

Definition get_all_values (p : ConfigurationParser) : gmap string string :=
  config_data p.

Definition get_keys (p : ConfigurationParser) : list string :=
  (in_key_order (config_data p)).*1.

(** [ConfigurationParser()] and [ConfigurationParser(file_path)] *)
Definition empty : ConfigurationParser := mkConfigurationParser ∅ "".

Definition from_file (file_path : string) (d : Disk) : ConfigurationParser :=
  (load_from_file file_path empty d).2.

End Parser.

(** A string with no whitespace at either end: what [trim] leaves. *)
Definition all_whitespace (s : string) : bool :=
  bool_decide (find_first_not_of Parser.whitespace s = None).

Definition tight (s : string) : bool :=
  match s with
  | EmptyString => true
  | String _ _ =>
      negb (str_contains (str_front s) Parser.whitespace)
      && negb (str_contains (str_back s) Parser.whitespace)
  end.

(** A key and a value that [save_to_file] writes on a line of their own
    and [parse_line] reads back as they are. *)
Definition storable_key (k : string) : bool :=
  tight k && negb (str_contains "=" k) && negb (str_contains newline k)
  && negb (Ascii.eqb (str_front k) "#") && negb (Ascii.eqb (str_front k) ";").

Definition storable_value (v : string) : bool :=
  tight v && negb (str_contains newline v).

(** ** WineConfiguration (wine_wrapper.cpp) *)

(** [std::isspace] and [std::isdigit] in the C locale. *)
Definition isspace (c : ascii) : bool :=
  Ascii.eqb c " " || ((9 <=? byte_of c) && (byte_of c <=? 13)).

Definition isdigit (c : ascii) : bool :=
  (48 <=? byte_of c) && (byte_of c <=? 57).

Fixpoint skip_space (s : string) : string :=
  match s with
  | EmptyString => EmptyString
  | String c s' => if isspace c then skip_space s' else s
  end.

(** The decimal digits [s] starts with, read after [acc]. *)
Fixpoint read_digits (acc : Z) (s : string) : Z :=
  match s with
  | EmptyString => acc
  | String c s' =>
      if isdigit c then read_digits (acc * 10 + (byte_of c - 48)) s' else acc
  end.

(** [std::stoi(str)]: leading white space, an optional sign, decimal
    digits; what follows the digits is ignored. [None] when it throws:
    [std::invalid_argument] if there is no digit to read,
    [std::out_of_range] if the number is not an [int]. *)
Definition stoi (str : string) : option Z :=
  let s := skip_space str in
  let signed :=
    match s with
    | EmptyString => (false, s)
    | String c s' =>
        if Ascii.eqb c "-" then (true, s')
        else if Ascii.eqb c "+" then (false, s')
        else (false, s)
    end in
  if isdigit (str_front signed.2) then
    let n := read_digits 0 signed.2 in
    let n := if signed.1 then - n else n in
    if (- 2 ^ 31 <=? n) && (n <? 2 ^ 31) then Some n else None
  else None.

Module WineConfig.

Definition architecture_name (a : WineArchitecture) : string :=
  match a with
  | WIN32 => "win32"
  | WIN64 => "win64"
  | AUTO_DETECT => "auto"
  end.

Definition bool_name (b : bool) : string := if b then "true" else "false".

(** [save_to_file]: the files after the call. *)
Definition save_to_file (config_file : string) (c : WineConfiguration)
    (d : Disk) : Disk :=
  let parser := Parser.empty in
  let parser := Parser.set_value "wine_prefix" (Config.wine_prefix c) parser in
  let parser := Parser.set_value "wine_binary" (Config.wine_binary c) parser in
  let parser :=
    Parser.set_value "architecture" (architecture_name (Config.architecture c))
      parser in
  let parser :=
    Parser.set_value "enable_virtual_desktop"
      (bool_name (Config.enable_virtual_desktop c)) parser in
  let parser :=
    Parser.set_value "virtual_desktop_resolution"
      (Config.virtual_desktop_resolution c) parser in
  let parser := Parser.set_value "enable_csmt" (bool_name (Config.enable_csmt c)) parser in
  let parser := Parser.set_value "enable_dxvk" (bool_name (Config.enable_dxvk c)) parser in
  let parser := Parser.set_value "enable_esync" (bool_name (Config.enable_esync c)) parser in
  let parser := Parser.set_value "enable_fsync" (bool_name (Config.enable_fsync c)) parser in
  let parser := Parser.set_value "audio_driver" (Config.audio_driver c) parser in
  let parser := Parser.set_value "graphics_driver" (Config.graphics_driver c) parser in
  let parser := Parser.set_value "nice_level" (to_string (Config.nice_level c)) parser in
  let parser := Parser.set_value "debug_output" (bool_name (Config.debug_output c)) parser in
  let parser := Parser.set_value "log_file" (Config.log_file c) parser in
  let parser :=
    Parser.set_value "max_log_size_mb" (to_string (Config.max_log_size_mb c)) parser in
  let parser :=
    Parser.set_value "capture_stdout" (bool_name (Config.capture_stdout c)) parser in
  let parser :=
    Parser.set_value "capture_stderr" (bool_name (Config.capture_stderr c)) parser in
  (Parser.save_to_file config_file parser d).2.

(** [load_from_file]: the configuration after the call, [None] when
    [std::stoi] throws (nothing catches it). *)
Definition load_from_file (config_file : string) (c : WineConfiguration)
    (d : Disk) : option WineConfiguration :=
  let parser := Parser.from_file config_file d in
  let wine_prefix := Parser.get_value "wine_prefix" (Config.wine_prefix c) parser in
  let wine_binary := Parser.get_value "wine_binary" (Config.wine_binary c) parser in
  let arch := Parser.get_value "architecture" "auto" parser in
  let architecture :=
    if String.eqb arch "win32" then WIN32
    else if String.eqb arch "win64" then WIN64
    else AUTO_DETECT in
  let enable_virtual_desktop :=
    String.eqb (Parser.get_value "enable_virtual_desktop" "false" parser) "true" in
  let virtual_desktop_resolution :=
    Parser.get_value "virtual_desktop_resolution" "1024x768" parser in
  let enable_csmt := String.eqb (Parser.get_value "enable_csmt" "true" parser) "true" in
  let enable_dxvk := String.eqb (Parser.get_value "enable_dxvk" "false" parser) "true" in
  let enable_esync := String.eqb (Parser.get_value "enable_esync" "true" parser) "true" in
  let enable_fsync := String.eqb (Parser.get_value "enable_fsync" "false" parser) "true" in
  let audio_driver := Parser.get_value "audio_driver" "alsa" parser in
  let graphics_driver := Parser.get_value "graphics_driver" "x11" parser in
  nice_level ← stoi (Parser.get_value "nice_level" "0" parser);
  let debug_output :=
    String.eqb (Parser.get_value "debug_output" "false" parser) "true" in
  let log_file := Parser.get_value "log_file" "" parser in
  max_log_size_mb ← stoi (Parser.get_value "max_log_size_mb" "100" parser);
  let capture_stdout :=
    String.eqb (Parser.get_value "capture_stdout" "true" parser) "true" in
  let capture_stderr :=
    String.eqb (Parser.get_value "capture_stderr" "true" parser) "true" in
  Some
    {| Config.wine_prefix := wine_prefix;
       Config.wine_binary := wine_binary;
       Config.architecture := architecture;
       Config.environment_variables := Config.environment_variables c;
       Config.registry_overrides := Config.registry_overrides c;
       Config.dll_overrides := Config.dll_overrides c;
       Config.virtual_desktop_resolution := virtual_desktop_resolution;
       Config.enable_virtual_desktop := enable_virtual_desktop;
       Config.enable_csmt := enable_csmt;
       Config.enable_dxvk := enable_dxvk;
       Config.enable_esync := enable_esync;
       Config.enable_fsync := enable_fsync;
       Config.audio_driver := audio_driver;
       Config.graphics_driver := graphics_driver;
       Config.nice_level := nice_level;
       Config.winetricks_components := Config.winetricks_components c;
       Config.debug_output := debug_output;
       Config.log_file := log_file;
       Config.max_log_size_mb := max_log_size_mb;
       Config.capture_stdout := capture_stdout;
       Config.capture_stderr := capture_stderr |}.

Definition apply_defaults (c : WineConfiguration) : M WineConfiguration :=
  wine_prefix ← (if String.eqb (Config.wine_prefix c) ""
                 then home ← get_home_directory; mret (home +:+ "/.wine")
                 else mret (Config.wine_prefix c));
  mret
    {| Config.wine_prefix := wine_prefix;
       Config.wine_binary :=
         if String.eqb (Config.wine_binary c) "" then "wine" else Config.wine_binary c;
       Config.architecture := Config.architecture c;
       Config.environment_variables := Config.environment_variables c;
       Config.registry_overrides := Config.registry_overrides c;
       Config.dll_overrides := Config.dll_overrides c;
       Config.virtual_desktop_resolution := Config.virtual_desktop_resolution c;
       Config.enable_virtual_desktop := Config.enable_virtual_desktop c;
       Config.enable_csmt := Config.enable_csmt c;
       Config.enable_dxvk := Config.enable_dxvk c;
       Config.enable_esync := Config.enable_esync c;
       Config.enable_fsync := Config.enable_fsync c;
       Config.audio_driver :=
         if String.eqb (Config.audio_driver c) "" then "alsa" else Config.audio_driver c;
       Config.graphics_driver :=
         if String.eqb (Config.graphics_driver c) "" then "x11"
         else Config.graphics_driver c;
       Config.nice_level := Config.nice_level c;
       Config.winetricks_components := Config.winetricks_components c;
       Config.debug_output := Config.debug_output c;
       Config.log_file := Config.log_file c;
       Config.max_log_size_mb := Config.max_log_size_mb c;
       Config.capture_stdout := Config.capture_stdout c;
       Config.capture_stderr := Config.capture_stderr c |}.

Definition is_valid (c : WineConfiguration) : bool :=
  if String.eqb (Config.wine_binary c) "" then false
  else if String.eqb (Config.wine_prefix c) "" then false
  else true.

End WineConfig.

(** The members [save_to_file] writes and [load_from_file] reads: all but
    the environment variables, the registry overrides, the DLL overrides
    and the winetricks components. *)
Definition with_saved_members (saved kept : WineConfiguration) : WineConfiguration :=
  {| Config.wine_prefix := Config.wine_prefix saved;
     Config.wine_binary := Config.wine_binary saved;
     Config.architecture := Config.architecture saved;
     Config.environment_variables := Config.environment_variables kept;
     Config.registry_overrides := Config.registry_overrides kept;
     Config.dll_overrides := Config.dll_overrides kept;
     Config.virtual_desktop_resolution := Config.virtual_desktop_resolution saved;
     Config.enable_virtual_desktop := Config.enable_virtual_desktop saved;
     Config.enable_csmt := Config.enable_csmt saved;
     Config.enable_dxvk := Config.enable_dxvk saved;
     Config.enable_esync := Config.enable_esync saved;
     Config.enable_fsync := Config.enable_fsync saved;
     Config.audio_driver := Config.audio_driver saved;
     Config.graphics_driver := Config.graphics_driver saved;
     Config.nice_level := Config.nice_level saved;
     Config.winetricks_components := Config.winetricks_components kept;
     Config.debug_output := Config.debug_output saved;
     Config.log_file := Config.log_file saved;
     Config.max_log_size_mb := Config.max_log_size_mb saved;
     Config.capture_stdout := Config.capture_stdout saved;
     Config.capture_stderr := Config.capture_stderr saved |}.

(** The strings among the saved members are written on a line each. *)
Definition storable_configuration (c : WineConfiguration) : bool :=
  storable_value (Config.wine_prefix c) && storable_value (Config.wine_binary c)
  && storable_value (Config.virtual_desktop_resolution c)
  && storable_value (Config.audio_driver c)
  && storable_value (Config.graphics_driver c)
  && storable_value (Config.log_file c).

(** The value fits an [int]. *)
Definition is_int (n : Z) : bool := (- 2 ^ 31 <=? n) && (n <? 2 ^ 31).

(** What [load_from_file] makes of a configuration when the file holds
    none of the keys. *)
Definition with_default_members (c : WineConfiguration) : WineConfiguration :=
  {| Config.wine_prefix := Config.wine_prefix c;
     Config.wine_binary := Config.wine_binary c;
     Config.architecture := AUTO_DETECT;
     Config.environment_variables := Config.environment_variables c;
     Config.registry_overrides := Config.registry_overrides c;
     Config.dll_overrides := Config.dll_overrides c;
     Config.virtual_desktop_resolution := "1024x768";
     Config.enable_virtual_desktop := false;
     Config.enable_csmt := true;
     Config.enable_dxvk := false;
     Config.enable_esync := true;
     Config.enable_fsync := false;
     Config.audio_driver := "alsa";
     Config.graphics_driver := "x11";
     Config.nice_level := 0;
     Config.winetricks_components := Config.winetricks_components c;
     Config.debug_output := false;
     Config.log_file := "";
     Config.max_log_size_mb := 100;
     Config.capture_stdout := true;
     Config.capture_stderr := true |}.

(** ** WineExecutor: the remaining operations (wine_executor.cpp) *)

Definition with_custom_environment (e : gmap string string) (w : World) : World :=
  {| environ := environ w; monitored_processes := monitored_processes w;
     state_change_callbacks := state_change_callbacks w; config := config w;
     custom_environment := e;
     pre_launch_commands := pre_launch_commands w;
     post_launch_commands := post_launch_commands w;
     stdout_pipe := stdout_pipe w; stderr_pipe := stderr_pipe w;
     current_process_pid := current_process_pid w;
     execution_active := execution_active w; trace := trace w |}.

Definition with_pre_launch_commands (l : list string) (w : World) : World :=
  {| environ := environ w; monitored_processes := monitored_processes w;
     state_change_callbacks := state_change_callbacks w; config := config w;
     custom_environment := custom_environment w;
     pre_launch_commands := l;
     post_launch_commands := post_launch_commands w;
     stdout_pipe := stdout_pipe w; stderr_pipe := stderr_pipe w;
     current_process_pid := current_process_pid w;
     execution_active := execution_active w; trace := trace w |}.

Definition with_post_launch_commands (l : list string) (w : World) : World :=
  {| environ := environ w; monitored_processes := monitored_processes w;
     state_change_callbacks := state_change_callbacks w; config := config w;
     custom_environment := custom_environment w;
     pre_launch_commands := pre_launch_commands w;
     post_launch_commands := l;
     stdout_pipe := stdout_pipe w; stderr_pipe := stderr_pipe w;
     current_process_pid := current_process_pid w;
     execution_active := execution_active w; trace := trace w |}.

Definition add_environment_variable (key value : string) : M unit :=
  modify (λ w, with_custom_environment (<[key := value]> (custom_environment w)) w);;
  logger_debug ("Added environment variable: " +:+ key +:+ "=" +:+ value).

Definition remove_environment_variable (key : string) : M unit :=
  modify (λ w, with_custom_environment (delete key (custom_environment w)) w);;
  logger_debug ("Removed environment variable: " +:+ key).

Definition clear_environment_variables : M unit :=
  modify (with_custom_environment ∅);;
  logger_debug "Cleared custom environment variables".

Definition add_pre_launch_command (command : string) : M unit :=
  modify (λ w, with_pre_launch_commands (pre_launch_commands w ++ [command]) w).

Definition add_post_launch_command (command : string) : M unit :=
  modify (λ w, with_post_launch_commands (post_launch_commands w ++ [command]) w).

Definition clear_pre_launch_commands : M unit :=
  modify (with_pre_launch_commands []).

Definition clear_post_launch_commands : M unit :=
  modify (with_post_launch_commands []).

Definition is_executing : M bool :=
  w ← get; mret (execution_active w).

Definition get_current_pid : M Z :=
  w ← get; mret (current_process_pid w).

Definition terminate_current_process : M unit :=
  w ← get;
  when (0 <? current_process_pid w)
    (logger_info ("Terminating current process: "
                  +:+ to_string (current_process_pid w));;
     kill (current_process_pid w) SIGTERM;;
     mret tt).

(** ** Further notions *)

(** Whenever a call returns, the state it leaves is related to the state
    it found. *)
Definition respects {A} (R : relation World) (m : M A) : Prop :=
  ∀ os w a w', m os w = Ret (a, w') → R w w'.

(** The call leaves a part of the state as it found it. *)
Definition kept {B} (part : World → B) : relation World :=
  λ w w', part w' = part w.

(** The call only adds to the trace. *)
Definition grown : relation World :=
  λ w w', ∃ effects, trace w' = trace w ++ effects.

(** Everything but the trace. *)
Definition silent (w : World) : World := with_trace [] w.

(** What [is_executing] and [get_current_pid] report. *)
Definition launch_flags (w : World) : Z * bool :=
  (current_process_pid w, execution_active w).

(** The signals sent, in a trace: target and signal number. *)
Definition signals_in (tr : list Effect) : list (Z * Z) :=
  omap (λ e, match e with Signalled target sig => Some (target, sig) | _ => None end)
    tr.

(** A stat line that ends with the closing parenthesis of the command
    name. *)
Definition stat_line_truncated (line : string) : Prop :=
  is_Some (str_find "(" line)
  ∧ ∃ last_paren, str_rfind ")" line = Some last_paren
                  ∧ (String.length line < last_paren + 2)%nat.

(** ** PathResolver (wine_executor.cpp) *)

(** [std::replace(s.begin(), s.end(), a, b)] *)
Fixpoint str_replace_char (a b : ascii) (s : string) : string :=
  match s with
  | EmptyString => EmptyString
  | String c s' => String (if Ascii.eqb c a then b else c) (str_replace_char a b s')
  end.

(** [s.find(pattern)] *)
Fixpoint str_find_str (pattern s : string) : option nat :=
  if String.prefix pattern s then Some 0%nat
  else match s with
       | EmptyString => None
       | String _ s' => S <$> str_find_str pattern s'
       end.

(** [s.replace(pos, len, str)], for [pos + len] within [s]. *)
Definition str_replace (pos len : nat) (str s : string) : string :=
  String.substring 0 pos s +:+ str +:+ str_drop (pos + len) s.

(** [::toupper] in the C locale. *)
Definition toupper (c : ascii) : ascii :=
  let n := nat_of_ascii c in
  if (97 <=? n)%nat && (n <=? 122)%nat then ascii_of_nat (n - 32) else c.

(** What the constructor asks of the file system: [stat] with [S_ISDIR],
    the names [readdir] yields ([None] when [opendir] fails), and
    [readlink], the target as the C string left in the buffer. *)
Record Directories := {
  sys_is_directory : string → bool;
  sys_readdir : string → option (list string);
  sys_readlink : string → option string;
  sys_symlink : string → string → bool;
}.

Definition directory_exists (path : string) (fs : Directories) : bool :=
  sys_is_directory fs path.

Definition list_directory (path : string) (fs : Directories) : list string :=
  match sys_readdir fs path with
  | None => []
  | Some names =>
      filter (λ name, negb (String.eqb name ".") && negb (String.eqb name "..")) names
  end.

Module Resolver.

Record PathResolver := mkPathResolver {
  wine_prefix : string;
  path_mappings : gmap string string;
}.

(** The loop of the constructor over the entries of dosdevices. *)
Definition read_mappings (dosdevices : string) (fs : Directories)
    (entries : list string) : gmap string string :=
  foldl (λ mappings entry,
      if (String.length entry =? 2)%nat && Ascii.eqb (str_at entry 1) ":" then
        let drive := str_at entry 0 in
        let link_path := join_paths dosdevices entry in
        match sys_readlink fs link_path with
        | Some resolved_path => <[String drive "" := resolved_path]> mappings
        | None => mappings
        end
      else mappings)
    ∅ entries.

(** [PathResolver::PathResolver] *)
Definition new (prefix : string) (fs : Directories) : PathResolver :=
  let dosdevices := join_paths prefix "dosdevices" in
  mkPathResolver prefix
    (if directory_exists dosdevices fs
     then read_mappings dosdevices fs (list_directory dosdevices fs)
     else ∅).

Definition resolve_drive_letter (drive : ascii) (r : PathResolver) : string :=
  let key := String (toupper drive) "" in
  match path_mappings r !! key with
  | Some unix_path => unix_path
  | None => ""
  end.

Definition windows_to_unix (windows_path : string) (r : PathResolver) : string :=
  if (String.length windows_path <? 3)%nat
     || negb (Ascii.eqb (str_at windows_path 1) ":")
  then windows_path
  else
    let drive := toupper (str_at windows_path 0) in
    let unix_path := resolve_drive_letter drive r in
    if String.eqb unix_path "" then windows_path
    else
      let path_part := str_drop 2 windows_path in
      unix_path +:+ str_replace_char backslash "/" path_part.

(** The first mapping, in key order, whose path [unix_path] starts with. *)
Definition unix_to_windows (unix_path : string) (r : PathResolver) : string :=
  match
    List.find (λ kv, position (str_find_str kv.2 unix_path) =? 0)
      (Parser.in_key_order (path_mappings r))
  with
  | Some kv =>
      str_replace_char "/" backslash
        (kv.1 +:+ ":" +:+ str_drop (String.length kv.2) unix_path)
  | None => "Z:" +:+ unix_path
  end.

(** The value returned, the resolver after the call, and the link the
    call has made, if any: its path and its target. *)
Definition create_drive_mapping (drive : ascii) (unix_path : string)
    (r : PathResolver) (fs : Directories)
  : bool * PathResolver * option (string * string) :=
  let dosdevices := join_paths (wine_prefix r) "dosdevices" in
  let drive_letter := String (tolower drive) "" in
  let link_path := join_paths dosdevices (drive_letter +:+ ":") in
  if sys_symlink fs unix_path link_path then
    (true,
     mkPathResolver (wine_prefix r)
       (<[String (toupper drive) "" := unix_path]> (path_mappings r)),
     Some (link_path, unix_path))
  else (false, r, None).

Definition is_absolute_path (path : string) : bool :=
  if String.eqb path "" then false
  else if Ascii.eqb (str_at path 0) "/" then true
  else if (3 <=? String.length path)%nat && Ascii.eqb (str_at path 1) ":"
          && (Ascii.eqb (str_at path 2) backslash || Ascii.eqb (str_at path 2) "/")
  then true
  else false.

(** [while (normalized.find("//") != npos) normalized.replace(..., 2, "/")],
    for at most [fuel] rounds; every round shortens the string, so as
    many rounds as it has characters are enough. *)
Fixpoint collapse_slashes (fuel : nat) (normalized : string) : string :=
  match fuel with
  | O => normalized
  | S fuel' =>
      match str_find_str "//" normalized with
      | Some pos => collapse_slashes fuel' (str_replace pos 2 "/" normalized)
      | None => normalized
      end
  end.

Definition normalize_path (path : string) : string :=
  let normalized := str_replace_char backslash "/" path in
  collapse_slashes (String.length normalized) normalized.

End Resolver.

(** A lower-case letter of the C locale. *)
Definition is_lower (c : ascii) : bool :=
  (97 <=? nat_of_ascii c)%nat && (nat_of_ascii c <=? 122)%nat.

(** An upper-case letter of the C locale. *)
Definition is_upper (c : ascii) : bool :=
  (65 <=? nat_of_ascii c)%nat && (nat_of_ascii c <=? 90)%nat.

(** A string with every run of slashes reduced to one slash. *)
Fixpoint squeeze (s : string) : string :=
  match s with
  | EmptyString => EmptyString
  | String a s' =>
      if Ascii.eqb a "/" && Ascii.eqb (str_front s') "/" then squeeze s'
      else String a (squeeze s')
  end.

(** A directory of drive links as Wine makes it. *)
Definition example_dosdevices : Directories :=
  {| sys_is_directory := λ path, String.eqb path "/home/u/.wine/dosdevices";
     sys_readdir := λ path,
       if String.eqb path "/home/u/.wine/dosdevices"
       then Some ["."; ".."; "c:"; "z:"] else None;
     sys_readlink := λ path,
       if String.eqb path "/home/u/.wine/dosdevices/c:" then Some "../drive_c"
       else if String.eqb path "/home/u/.wine/dosdevices/z:" then Some "/"
       else None;
     sys_symlink := λ _ _, true |}.

(** ** Proof automation *)

Ltac run :=
  cbv [mbind M_bind mret M_ret ask get modify throw emit when
       logger_debug logger_info logger_warning logger_error kill].

(** ** The process table *)

Lemma table_find_assign_eq key info t :
  table_find key (table_assign key info t) = Some info.
Proof.
  induction t as [|[k i] t IH]; simpl.
  - by rewrite Z.eqb_refl.
  - destruct (key <? k) eqn:Hlt; simpl; [by rewrite Z.eqb_refl|].
    destruct (key =? k) eqn:Heq; simpl; [by rewrite Z.eqb_refl|].
    rewrite Z.eqb_sym, Heq. exact IH.
Qed.

Lemma table_find_assign_ne key key' info t :
  key ≠ key' → table_find key' (table_assign key info t) = table_find key' t.
Proof.
  intros Hne. induction t as [|[k i] t IH]; simpl.
  - by apply Z.eqb_neq in Hne as ->.
  - destruct (key <? k) eqn:Hlt; simpl.
    { by apply Z.eqb_neq in Hne as ->. }
    destruct (key =? k) eqn:Heq; simpl.
    + apply Z.eqb_eq in Heq as <-. by apply Z.eqb_neq in Hne as ->.
    + by rewrite IH.
Qed.

Lemma table_find_erase_eq key t : table_find key (table_erase key t) = None.
Proof.
  induction t as [|[k i] t IH]; simpl; [done|].
  destruct (k =? key) eqn:Heq; simpl; [done|]. by rewrite Heq.
Qed.

Lemma table_find_erase_ne key key' t :
  key ≠ key' → table_find key' (table_erase key t) = table_find key' t.
Proof.
  intros Hne. induction t as [|[k i] t IH]; simpl; [done|].
  destruct (k =? key) eqn:Heq; simpl.
  - apply Z.eqb_eq in Heq as ->. by apply Z.eqb_neq in Hne as ->.
  - by rewrite IH.
Qed.

Lemma table_find_In key info t :
  table_find key t = Some info → In info (map snd t).
Proof.
  induction t as [|[k i] t IH]; simpl; [done|].
  destruct (k =? key); [intros [= ->]; by left | right; auto].
Qed.

(** ** Running the monad *)

Lemma with_trace_same w : with_trace (trace w) w = w.
Proof. by destruct w. Qed.

Lemma for_each_emit {A} (f : A → Effect) (l : list A) os w :
  for_each (λ x, emit (f x)) l os w
  = Ret (tt, with_trace (trace w ++ map f l) w).
Proof.
  revert w. induction l as [|x l IH]; intros w; simpl.
  - run. by rewrite app_nil_r, with_trace_same.
  - run. fold (@emit). unfold mbind, M_bind in IH. run.
    rewrite IH. simpl. by rewrite <- app_assoc.
Qed.

Lemma notify_state_change_run info os w :
  notify_state_change info os w
  = Ret (tt, with_trace
               (trace w ++ map (λ cb, Notified cb info) (state_change_callbacks w)) w).
Proof. unfold notify_state_change. run. apply for_each_emit. Qed.

(** ** Signal operations *)

Lemma pause_process_run p os w :
  pause_process p os w
  = Ret (tt, with_trace
      (trace w ++
       [Signalled p SIGSTOP;
        if sys_kill os p SIGSTOP
        then Logged INFO ("Paused process " +:+ to_string p)
        else Logged ERROR_LOG ("Failed to pause process " +:+ to_string p)]) w).
Proof.
  unfold pause_process. run. simpl.
  destruct (sys_kill os p SIGSTOP); simpl; by rewrite <- app_assoc.
Qed.

Lemma resume_process_run p os w :
  resume_process p os w
  = Ret (tt, with_trace
      (trace w ++
       [Signalled p SIGCONT;
        if sys_kill os p SIGCONT
        then Logged INFO ("Resumed process " +:+ to_string p)
        else Logged ERROR_LOG ("Failed to resume process " +:+ to_string p)]) w).
Proof.
  unfold resume_process. run. simpl.
  destruct (sys_kill os p SIGCONT); simpl; by rewrite <- app_assoc.
Qed.

Lemma kill_process_run p signal os w :
  kill_process p signal os w
  = Ret (tt, with_trace
      (trace w ++
       [Signalled p signal;
        if sys_kill os p signal
        then Logged INFO ("Sent signal " +:+ to_string signal
                          +:+ " to process " +:+ to_string p)
        else Logged ERROR_LOG ("Failed to send signal to process "
                               +:+ to_string p)]) w).
Proof.
  unfold kill_process. run. simpl.
  destruct (sys_kill os p signal); simpl; by rewrite <- app_assoc.
Qed.

Lemma terminate_process_run p os w :
  terminate_process p os w
  = Ret (tt, with_trace
      (trace w ++
       [Logged INFO ("Terminating process: " +:+ to_string p);
        Signalled p SIGTERM;
        if sys_kill os p SIGTERM
        then Logged INFO ("Sent signal " +:+ to_string SIGTERM
                          +:+ " to process " +:+ to_string p)
        else Logged ERROR_LOG ("Failed to send signal to process "
                               +:+ to_string p)]) w).
Proof.
  unfold terminate_process. run. rewrite kill_process_run. simpl.
  by rewrite <- app_assoc.
Qed.

(** ** The monitor pass *)

Lemma get_process_state_pure p os w w0 :
  get_process_state p os w
  = match get_process_state p os w0 with
    | Ret (s, _) => Ret (s, w)
    | Throw => Throw
    end.
Proof.
  unfold get_process_state. run.
  destruct (proc_stat os p) as [line|]; [|done].
  destruct (str_find "(" line); [|done].
  destruct (str_rfind ")" line) as [last_paren|]; [|done].
  unfold str_substr. destruct (_ <=? _)%nat; [|done]. run.
  repeat (destruct (Ascii.eqb _ _); [done|]). done.
Qed.

Lemma get_process_state_world p os w s w' :
  get_process_state p os w = Ret (s, w') → w' = w.
Proof.
  rewrite (get_process_state_pure p os w w).
  destruct (get_process_state p os w) as [[s0 w0]|]; [|done]. by intros [= _ <-].
Qed.

Lemma get_process_state_value p os w w0 :
  value_of (get_process_state p os w) = value_of (get_process_state p os w0).
Proof.
  rewrite (get_process_state_pure p os w w0).
  by destruct (get_process_state p os w0) as [[??]|].
Qed.

Lemma update_process_stats_run info os w :
  update_process_stats info os w
  = match get_process_state (pid info) os w with
    | Ret (s, _) => Ret (refreshed_at os s info, w)
    | Throw => Throw
    end.
Proof.
  unfold update_process_stats, calculate_cpu_usage, get_memory_usage. run.
  assert (Hcpu : ∀ (o : option string) (k : Q → outcome (ProcessInfo * World)),
    match (match o with
           | Some _ => λ _ w1, Ret (0%Q, w1)
           | None => λ _ w1, Ret (0%Q, w1)
           end) os w with
    | Ret (a, w') => k a
    | Throw => Throw
    end = k 0%Q) by (by intros [?|] k).
  destruct (proc_stat os (pid info)) as [line|] eqn:Hst; simpl;
    destruct (proc_vmrss os (pid info)) as [rss|] eqn:Hrss; simpl;
    destruct (get_process_state _ os w) as [[s w']|] eqn:Hs; try done;
    apply get_process_state_world in Hs as Hw; subst w';
    unfold refreshed_at; simpl; by rewrite Hrss.
Qed.

Lemma monitor_scan_spec t os w r w' :
  monitor_scan t os w = Ret (r, w') →
  w' = with_trace (trace w ++ scan_notifications os (state_change_callbacks w) t) w
  ∧ r.2 = dead_keys os t
  ∧ Forall2 (visited os w) t r.1.
Proof.
  revert w r w'. induction t as [|[key info] t IH]; intros w r w'; simpl.
  - run. intros [= <- <-]. simpl.
    by rewrite app_nil_r, with_trace_same.
  - unfold is_process_alive. run. fold monitor_scan.
    unfold dead_keys, scan_notifications, visited. simpl.
    destruct (sys_kill os key 0) eqn:Halive; simpl.
    + rewrite update_process_stats_run.
      destruct (get_process_state (pid info) os w) as [[s w1]|] eqn:Hs; [|done].
      destruct (monitor_scan t os w) as [[r1 w2]|] eqn:Hscan; [|done].
      intros [= <- <-]. apply IH in Hscan as (-> & Hdead & Hall). simpl.
      split_and!; [done|done|].
      constructor; [|done]. simpl. rewrite Halive. split; [done|].
      exists s. by rewrite Hs.
    + rewrite notify_state_change_run.
      match goal with
      | |- context [monitor_scan t os ?w0] =>
          destruct (monitor_scan t os w0) as [[r1 w2]|] eqn:Hscan; [|done]
      end.
      intros [= <- <-]. apply IH in Hscan as (-> & Hdead & Hall). simpl in *.
      split_and!.
      * by rewrite <- app_assoc.
      * by rewrite Hdead.
      * constructor; [by simpl; rewrite Halive|].
        eapply Forall2_impl; [exact Hall|].
        intros [k i] [k' i']. unfold visited. simpl.
        intros [-> Hv]. split; [done|].
        destruct (sys_kill os k 0); [|done].
        destruct Hv as (s & Hs & ->). exists s. split; [|done].
        erewrite get_process_state_value. exact Hs.
Qed.

Lemma monitor_tick_spec os w w' :
  monitor_tick os w = Ret (tt, w') →
  ∃ t', Forall2 (visited os w) (monitored_processes w) t'
    ∧ w' = with_trace
             (trace w
              ++ scan_notifications os (state_change_callbacks w) (monitored_processes w)
              ++ map (λ p, Logged INFO ("Process " +:+ to_string p +:+ " has terminated"))
                   (dead_keys os (monitored_processes w)))
             (with_monitored t' w).
Proof.
  unfold monitor_tick. cbv [mbind M_bind get].
  destruct (monitor_scan (monitored_processes w) os w) as [[r w1]|] eqn:Hscan; [|done].
  apply monitor_scan_spec in Hscan as (-> & Hdead & Hall).
  cbv [modify]. unfold logger_info. rewrite for_each_emit. simpl.
  intros [= <-]. exists r.1. split; [done|].
  by rewrite Hdead, <- app_assoc.
Qed.

Lemma visited_keys os w t t' :
  Forall2 (visited os w) t t' → map fst t' = map fst t.
Proof.
  induction 1 as [|e e' t t' [He _] _ IH]; simpl; [done|]. by rewrite He, IH.
Qed.

Lemma visited_find os w t t' p :
  Forall2 (visited os w) t t' →
  match table_find p t with
  | Some info => ∃ info', table_find p t' = Some info'
                          ∧ visited os w (p, info) (p, info')
  | None => table_find p t' = None
  end.
Proof.
  induction 1 as [|[k i] [k' i'] t t' Hv _ IH]; simpl; [done|].
  destruct Hv as [Hk Hv]. simpl in Hk, Hv. subst k'.
  destruct (k =? p) eqn:Hkp; [|exact IH].
  apply Z.eqb_eq in Hkp as ->. exists i'. by split.
Qed.

Lemma visited_same_identity os w e e' :
  visited os w e e' → same_identity e.2 e'.2.
Proof.
  intros [_ Hv]. destruct (sys_kill os e.1 0).
  - destruct Hv as (s & _ & ->). by repeat split.
  - rewrite Hv. by repeat split.
Qed.

Lemma notifications_of_app p a b :
  notifications_of p (a ++ b) = notifications_of p a ++ notifications_of p b.
Proof. apply List.filter_app. Qed.

Lemma notifications_of_logs {A} p (f : A → string) lvl (l : list A) :
  notifications_of p (map (λ x, Logged lvl (f x)) l) = [].
Proof. induction l; simpl; auto. Qed.

Lemma notifications_of_record p info callbacks :
  notifications_of p (map (λ cb, Notified cb info) callbacks)
  = if pid info =? p then map (λ cb, Notified cb info) callbacks else [].
Proof.
  induction callbacks as [|cb l IH]; simpl; [by destruct (_ =? _)|].
  rewrite IH. unfold notifications_of. by destruct (pid info =? p).
Qed.

Lemma table_find_above p t :
  Forall (Z.lt p) (map fst t) → table_find p t = None.
Proof.
  induction t as [|[k i] t IH]; simpl; [done|].
  intros [Hlt Hall]%Forall_cons. destruct (k =? p) eqn:Heq; [lia|auto].
Qed.

Lemma scan_notifications_none os callbacks p t :
  table_consistent t → table_find p t = None →
  notifications_of p (scan_notifications os callbacks t) = [].
Proof.
  induction t as [|[k i] t IH]; simpl; [done|].
  intros [Hk Hc]%Forall_cons. simpl in Hk.
  destruct (k =? p) eqn:Hkp; [done|]. intros Hnone.
  rewrite notifications_of_app, IH by done.
  destruct (sys_kill os k 0); [done|].
  rewrite notifications_of_record. simpl. by rewrite Hk, Hkp.
Qed.

Lemma scan_notifications_of os callbacks p info t :
  table_ok t → table_consistent t → table_find p t = Some info →
  notifications_of p (scan_notifications os callbacks t)
  = if sys_kill os p 0 then []
    else map (λ cb, Notified cb (stopped_at os info)) callbacks.
Proof.
  induction t as [|[k i] t IH]; simpl; [done|].
  intros Hs [Hk Hc]%Forall_cons. simpl in Hk.
  apply StronglySorted_inv in Hs as [Hs Hlt].
  rewrite notifications_of_app.
  destruct (k =? p) eqn:Hkp.
  - apply Z.eqb_eq in Hkp as ->. intros [= ->].
    rewrite scan_notifications_none by (done || by apply table_find_above).
    rewrite app_nil_r. destruct (sys_kill os p 0); [done|].
    rewrite notifications_of_record. simpl. by rewrite Hk, Z.eqb_refl.
  - intros Hfind. rewrite IH by done.
    destruct (sys_kill os k 0); [done|].
    rewrite notifications_of_record. simpl. by rewrite Hk, Hkp.
Qed.

Lemma monitor_tick_record os w w' p info :
  monitor_tick os w = Ret (tt, w') →
  table_ok (monitored_processes w) →
  table_consistent (monitored_processes w) →
  table_find p (monitored_processes w) = Some info →
  ∃ info',
    table_find p (monitored_processes w') = Some info'
    ∧ same_identity info info'
    ∧ if sys_kill os p 0
      then end_time info' = end_time info
           ∧ notifications_of p (trace w') = notifications_of p (trace w)
           ∧ value_of (get_process_state p os w) = Some (state info')
      else info' = stopped_at os info
           ∧ notifications_of p (trace w')
             = notifications_of p (trace w)
               ++ map (λ cb, Notified cb info') (state_change_callbacks w).
Proof.
  intros (t' & Hall & ->)%monitor_tick_spec Hok Hcons Hfind. simpl.
  pose proof (visited_find os w _ _ p Hall) as Hv. rewrite Hfind in Hv.
  destruct Hv as (info' & Hfind' & Hv). exists info'.
  split; [done|]. split; [exact (visited_same_identity _ _ _ _ Hv)|].
  rewrite !notifications_of_app, notifications_of_logs, app_nil_r.
  rewrite (scan_notifications_of _ _ _ info) by done.
  assert (Hpid : pid info = p).
  { clear -Hcons Hfind. induction Hcons as [|[k i] t Hk _ IH]; simpl in *; [done|].
    destruct (k =? p) eqn:Hkp; [|auto].
    apply Z.eqb_eq in Hkp. by injection Hfind as <-; subst. }
  destruct Hv as [_ Hv]. simpl in Hv.
  destruct (sys_kill os p 0).
  - destruct Hv as (s & Hs & ->). simpl. rewrite app_nil_r.
    split_and!; [done|done|]. by rewrite <- Hpid.
  - by subst info'.
Qed.

Lemma signal_operation_run o p os w :
  ∃ effects,
    signal_operation o p os w = Ret (tt, with_trace (trace w ++ effects) w).
Proof.
  destruct o; simpl;
    rewrite ?pause_process_run, ?resume_process_run, ?terminate_process_run,
      ?kill_process_run; by eexists.
Qed.

(** ** Claims on the process table and the signal operations *)

(** C9. For a process identifier that is not in the Process Table,
    [get_process_info] returns normally, with the default-constructed
    [ProcessInfo] (pid 0, state IDLE, every other member zero or empty) and
    without touching the supervisor's state; the very same outcome is
    produced for a tracked identifier whose record has these values, so the
    outcome alone does not tell an untracked identifier from a tracked one. *)
Theorem get_process_info_untracked p os w :
  table_find p (monitored_processes w) = None →
  get_process_info p os w = Ret (ProcessInfo_default, w)
  ∧ pid ProcessInfo_default = 0
  ∧ state ProcessInfo_default = IDLE
  ∧ ∃ w1, world_of (add_process p ProcessInfo_default os w) = Some w1
          ∧ is_process_monitored p os w1 = Ret (true, w1)
          ∧ value_of (get_process_info p os w1)
            = value_of (get_process_info p os w).
Proof.
  intros Hnone. unfold get_process_info, add_process, is_process_monitored.
  run. simpl. rewrite Hnone. split_and!; [done..|].
  eexists. split; [done|]. simpl.
  rewrite table_find_assign_eq. split; [|done].
  by rewrite bool_decide_eq_true_2.
Qed.

Lemma get_process_info_untracked_witness :
  table_find 42 (monitored_processes example_world) = None
  ∧ get_process_info 42 (example_os 0) example_world
    = Ret (ProcessInfo_default, example_world).
Proof.
  split; [reflexivity|].
  apply (get_process_info_untracked 42 (example_os 0) example_world).
  reflexivity.
Defined.



(** C2 (as amended). Pause and resume (like every signal operation) leave
    the Process Table untouched: a query issued after the call returns and
    before the next Monitor Loop pass gives the same record, with the same
    state, as a query issued before the call. The state follows only when
    a later pass visits the record: if it finds the process alive, the
    record's state becomes the one read from the system's run state
    (PAUSED for a stopped process, RUNNING for a running or sleeping
    one). *)
Theorem pause_resume_leave_state_to_monitor o p os w :
  ∃ w1,
    world_of (signal_operation o p os w) = Some w1
    ∧ value_of (get_process_info p os w1) = value_of (get_process_info p os w)
    ∧ ∀ os' w2 info s,
        monitor_tick os' w1 = Ret (tt, w2) →
        table_find p (monitored_processes w) = Some info →
        sys_kill os' p 0 = true →
        value_of (get_process_state (pid info) os' w1) = Some s →
        state <$> table_find p (monitored_processes w2) = Some s.
Proof.
  destruct (signal_operation_run o p os w) as (effects & ->).
  eexists. split; [reflexivity|]. split.
  { unfold get_process_info. run. simpl.
    by destruct (table_find p (monitored_processes w)). }
  intros os' w2 info s (t' & Hall & ->)%monitor_tick_spec Hfind Halive Hs.
  simpl in *. pose proof (visited_find _ _ _ _ p Hall) as Hv.
  rewrite Hfind in Hv. destruct Hv as (info' & -> & _ & Hv). simpl in Hv.
  rewrite Halive in Hv. destruct Hv as (s' & Hs' & ->). simpl.
  congruence.
Qed.

Lemma pause_resume_leave_state_to_monitor_witness :
  ∃ w1 w2,
    world_of (signal_operation OpPause 42 (example_os 0) (example_tracking RUNNING))
    = Some w1
    ∧ monitor_tick (example_os_stopped 1) w1 = Ret (tt, w2)
    ∧ state <$> table_find 42 (monitored_processes w1) = Some RUNNING
    ∧ state <$> table_find 42 (monitored_processes w2) = Some PAUSED.
Proof.
  destruct (pause_resume_leave_state_to_monitor OpPause 42 (example_os 0)
              (example_tracking RUNNING)) as (w1 & Hw1 & Hquery & Htick).
  exists w1.
  assert (Hrun : ∃ w2, monitor_tick (example_os_stopped 1) w1 = Ret (tt, w2)).
  { injection Hw1 as <-. eexists. vm_compute. reflexivity. }
  destruct Hrun as [w2 Hw2]. exists w2.
  split; [exact Hw1|]. split; [exact Hw2|]. split.
  - injection Hw1 as <-. reflexivity.
  - apply (Htick (example_os_stopped 1) w2 (example_record 42 RUNNING) PAUSED);
      [exact Hw2|reflexivity|reflexivity|].
    injection Hw1 as <-. reflexivity.
Defined.

(** C2 (counterexample). Process 42 is tracked as RUNNING and the system
    accepts SIGSTOP: the query right after the successful pause still
    reports RUNNING. Likewise a record tracked as PAUSED still reports
    PAUSED right after a successful resume. *)
Lemma pause_then_query_reports_old_state :
  sys_kill (example_os 0) 42 SIGSTOP = true
  ∧ state <$> value_of ((pause_process 42;; get_process_info 42)
                          (example_os 0) (example_tracking RUNNING))
    = Some RUNNING
  ∧ sys_kill (example_os 0) 42 SIGCONT = true
  ∧ state <$> value_of ((resume_process 42;; get_process_info 42)
                          (example_os 0) (example_tracking PAUSED))
    = Some PAUSED.
Proof. repeat split; vm_compute; reflexivity. Qed.

(** C3 (as amended). In a table whose records are filed under their own
    pid, as the launch files them, a Monitor Loop pass visits every record,
    whatever its state, and never writes a record's pid, path, arguments,
    environment, start time, exit code, captured output, prefix or
    architecture. A record whose process answers the liveness probe
    keeps its end_time, causes no observer call, and has its state
    recomputed from the system (also when it was STOPPED or ERROR). At the
    pass that finds the process of a record not yet STOPPED dead, the state
    becomes STOPPED, end_time becomes the time of that pass, and every
    registered observer is called once in that pass, in registration order,
    with the updated record. *)
Theorem monitor_pass_on_record os w w' p info :
  monitor_tick os w = Ret (tt, w') →
  table_ok (monitored_processes w) →
  table_consistent (monitored_processes w) →
  table_find p (monitored_processes w) = Some info →
  ∃ info',
    table_find p (monitored_processes w') = Some info'
    ∧ same_identity info info'
    ∧ (sys_kill os p 0 = true →
       end_time info' = end_time info
       ∧ notifications_of p (trace w') = notifications_of p (trace w)
       ∧ value_of (get_process_state p os w) = Some (state info'))
    ∧ (sys_kill os p 0 = false → state info ≠ STOPPED →
       state info' = STOPPED
       ∧ end_time info' = sys_now os
       ∧ notifications_of p (trace w')
         = notifications_of p (trace w)
           ++ map (λ cb, Notified cb info') (state_change_callbacks w)).
Proof.
  intros Htick Hok Hcons Hfind.
  destruct (monitor_tick_record _ _ _ _ _ Htick Hok Hcons Hfind)
    as (info' & Hfind' & Hid & Hcase).
  exists info'. split_and!; [done|done| |].
  - intros Halive. by rewrite Halive in Hcase.
  - intros Hdead _. rewrite Hdead in Hcase. destruct Hcase as [-> Hn].
    by split_and!.
Qed.

Lemma monitor_pass_on_record_witness :
  ∃ w' info',
    monitor_tick (example_os_dead 10) (example_tracking RUNNING) = Ret (tt, w')
    ∧ table_find 42 (monitored_processes w') = Some info'
    ∧ state info' = STOPPED ∧ end_time info' = 10
    ∧ notifications_of 42 (trace w') = [Notified 7%nat info'].
Proof.
  assert (Hrun : ∃ w', monitor_tick (example_os_dead 10) (example_tracking RUNNING)
                       = Ret (tt, w')).
  { eexists. vm_compute. reflexivity. }
  destruct Hrun as [w' Hw']. exists w'.
  destruct (monitor_pass_on_record (example_os_dead 10) (example_tracking RUNNING)
              w' 42 (example_record 42 RUNNING) Hw')
    as (info' & Hfind & _ & _ & Hdead).
  - repeat constructor.
  - repeat constructor.
  - reflexivity.
  - exists info'. destruct Hdead as (Hs & He & Hn); [reflexivity|discriminate|].
    split_and!; [exact Hw'|exact Hfind|exact Hs|exact He|exact Hn].
Defined.

(** C3 (counterexample). Process 42 is tracked and has died. The first
    pass, at instant 10, makes its record STOPPED with end_time 10 and
    calls the observer; the second pass, at instant 20, writes the record
    again (end_time 20) and calls the observer again: two notifications for
    one death, and an end_time set twice. A record already STOPPED whose
    pid answers the probe again is written too: its state goes back to
    RUNNING. And a child that has exited but is still a zombie becomes
    STOPPED with no end_time and no observer call at all. *)
Lemma dead_process_notified_at_every_pass :
  (λ i, (state i, end_time i))
    <$> record_after (monitor_loop [example_os_dead 10] (example_tracking RUNNING)) 42
  = Some (STOPPED, 10)
  ∧ (λ i, (state i, end_time i))
      <$> record_after (monitor_loop [example_os_dead 10; example_os_dead 20]
                          (example_tracking RUNNING)) 42
    = Some (STOPPED, 20)
  ∧ notifications_of 42
      (trace_after (monitor_loop [example_os_dead 10; example_os_dead 20]
                      (example_tracking RUNNING)))
    = [Notified 7%nat (set_end_time 10 (example_record 42 STOPPED));
       Notified 7%nat (set_end_time 20 (example_record 42 STOPPED))]
  ∧ (λ i, (state i, memory_usage i))
      <$> record_after (monitor_loop [example_os 30] (example_tracking STOPPED)) 42
    = Some (RUNNING, 2097152)
  ∧ (λ i, (state i, end_time i))
      <$> record_after (monitor_loop [example_os_zombie 10]
                          (example_tracking RUNNING)) 42
    = Some (STOPPED, 0)
  ∧ notifications_of 42
      (trace_after (monitor_loop [example_os_zombie 10] (example_tracking RUNNING)))
    = [].
Proof. repeat split; vm_compute; reflexivity. Qed.

(** ** Frames *)

Create HintDb framed.

Lemma frame_refl w : frame w w.
Proof.
  repeat split. exists []. by rewrite app_nil_r.
Qed.

Lemma frame_trans w1 w2 w3 : frame w1 w2 → frame w2 w3 → frame w1 w3.
Proof.
  intros (? & ? & ? & ? & ? & ? & ? & e1 & ? & ?)
    (? & ? & ? & ? & ? & ? & ? & e2 & ? & ?).
  repeat split; try congruence.
  exists (e1 ++ e2). split; [|by apply Forall_app].
  rewrite app_assoc. congruence.
Qed.

Lemma framed_ret {A} (a : A) : framed (mret a).
Proof. intros os w. exists a, w. split; [done|apply frame_refl]. Qed.

Lemma framed_bind {A B} (m : M A) (f : A → M B) :
  framed m → (∀ a, framed (f a)) → framed (m ≫= f).
Proof.
  intros Hm Hf os w. destruct (Hm os w) as (a & w1 & Hrun & F1).
  destruct (Hf a os w1) as (b & w2 & Hrun2 & F2).
  exists b, w2. split; [|by eapply frame_trans].
  unfold mbind, M_bind. by rewrite Hrun.
Qed.

Lemma framed_ask_bind {B} (f : OS → M B) :
  (∀ os, framed (f os)) → framed (ask ≫= f).
Proof. intros Hf os w. apply (Hf os os w). Qed.

Lemma framed_get_bind {B} (f : World → M B) :
  (∀ w, framed (f w)) → framed (get ≫= f).
Proof. intros Hf os w. apply (Hf w os w). Qed.

Lemma framed_emit e : is_launch_effect e = true → framed (emit e).
Proof.
  intros He os w. eexists tt, _. split; [reflexivity|].
  repeat split. exists [e]. split; [done|]. by constructor.
Qed.

Lemma framed_modify (f : World → World) :
  (∀ w, frame w (f w)) → framed (modify f).
Proof. intros Hf os w. eexists tt, _. by split. Qed.

Lemma framed_when b m : framed m → framed (when b m).
Proof. destruct b; [done|]. intros _. apply framed_ret. Qed.

Lemma framed_for_each {A} (f : A → M unit) l :
  (∀ x, framed (f x)) → framed (for_each f l).
Proof.
  intros Hf. induction l as [|x l IH]; simpl.
  - apply framed_ret.
  - apply framed_bind; [apply Hf|]. intros _. exact IH.
Qed.

Ltac framed_step :=
  lazymatch goal with
  | |- framed (ask ≫= _) => apply framed_ask_bind; intros ?
  | |- framed (get ≫= _) => apply framed_get_bind; intros ?
  | |- framed (_ ≫= _) => apply framed_bind; [|intros ?]
  | |- framed (match ?x with _ => _ end) => destruct x
  | |- framed (let _ := _ in _) => cbv zeta
  | |- framed (logger_debug _) => apply framed_emit; reflexivity
  | |- framed (logger_info _) => apply framed_emit; reflexivity
  | |- framed (logger_warning _) => apply framed_emit; reflexivity
  | |- framed (logger_error _) => apply framed_emit; reflexivity
  | |- framed (when _ _) => apply framed_when
  | |- framed (for_each _ _) => apply framed_for_each; intros ?
  | |- framed (modify _) => apply framed_modify; intros ?
  | |- framed (emit _) => apply framed_emit; reflexivity
  | |- framed (mret _) => apply framed_ret
  | |- frame _ _ => repeat split; exists []; simpl; by rewrite app_nil_r
  | |- _ => solve [auto with framed]
  end.

Ltac framed_auto := repeat framed_step.

(** ** The steps of a launch *)

Lemma resolve_path_run path os w :
  ∃ resolved_path, resolve_path path os w = Ret (resolved_path, w).
Proof.
  unfold resolve_path, get_home_directory, get_current_directory.
  destruct path as [|c path]; [by eexists|].
  destruct (Ascii.eqb c "~").
  - run. destruct (environ w !! "HOME"); [by eexists|].
    destruct (sys_pw_dir os); by eexists.
  - destruct (negb (Ascii.eqb c "/")); [|by eexists].
    run. destruct (sys_getcwd os); by eexists.
Qed.

Lemma file_exists_run path os w :
  file_exists path os w = Ret (is_regular_file os path, w).
Proof.
  unfold file_exists, is_regular_file. run. by destruct (sys_stat os path).
Qed.

Lemma validate_executable_run exe_path os w :
  validate_executable exe_path os w
  = Ret (is_regular_file os exe_path,
         with_trace
           (trace w ++
            if is_regular_file os exe_path then
              let ext := transform_tolower (get_extension exe_path) in
              if negb (String.eqb ext ".exe") && negb (String.eqb ext ".msi")
                 && negb (String.eqb ext ".bat")
              then [Logged WARNING ("Unexpected file extension: " +:+ ext)]
              else []
            else [Logged ERROR_LOG ("Executable not found: " +:+ exe_path)]) w).
Proof.
  unfold validate_executable. cbv [mbind M_bind]. rewrite file_exists_run.
  destruct (is_regular_file os exe_path); simpl; [|by run].
  destruct (_ && _); run; [done|]. by rewrite app_nil_r, with_trace_same.
Qed.

Lemma execute_command_run command os w :
  execute_command command os w = Ret (default "" (sys_popen os command), w).
Proof. unfold execute_command. run. by destruct (sys_popen os command). Qed.

Lemma hooks_run phase cmds os w :
  for_each (λ cmd,
      logger_debug
        (match phase with
         | PreLaunch => "Executing pre-launch command: "
         | PostLaunch => "Executing post-launch command: "
         end +:+ cmd);;
      output ← execute_command cmd;
      emit (Hooked phase cmd output);;
      logger_debug
        (match phase with
         | PreLaunch => "Pre-launch command output: "
         | PostLaunch => "Post-launch command output: "
         end +:+ output)) cmds os w
  = Ret (tt, with_trace (trace w ++ hook_effects phase os cmds) w).
Proof.
  revert w. induction cmds as [|cmd cmds IH]; intros w; simpl.
  - run. by rewrite app_nil_r, with_trace_same.
  - cbv [mbind M_bind logger_debug emit modify] in *.
    rewrite execute_command_run, IH. simpl.
    destruct phase; simpl; by rewrite <- !app_assoc.
Qed.

Lemma execute_pre_launch_commands_run os w :
  execute_pre_launch_commands os w
  = Ret (true,
         with_trace (trace w ++ hook_effects PreLaunch os (pre_launch_commands w)) w).
Proof.
  unfold execute_pre_launch_commands. cbv [mbind M_bind get].
  by rewrite (hooks_run PreLaunch).
Qed.

Lemma execute_post_launch_commands_run os w :
  execute_post_launch_commands os w
  = Ret (true,
         with_trace (trace w ++ hook_effects PostLaunch os (post_launch_commands w)) w).
Proof.
  unfold execute_post_launch_commands. cbv [mbind M_bind get].
  by rewrite (hooks_run PostLaunch).
Qed.

Lemma hook_effects_pre_launch os cmds :
  Forall (λ e, is_launch_effect e = true) (hook_effects PreLaunch os cmds).
Proof.
  induction cmds as [|cmd cmds IH]; simpl; [constructor|].
  by repeat constructor.
Qed.

Lemma framed_setup_registry_settings : framed setup_registry_settings.
Proof. unfold setup_registry_settings. framed_auto. Qed.

Lemma framed_close_fd fd : framed (close_fd fd).
Proof. unfold close_fd. framed_auto. Qed.

#[local] Hint Resolve framed_close_fd : framed.

Lemma framed_close_pipes : framed close_pipes.
Proof. unfold close_pipes. framed_auto. Qed.

#[local] Hint Resolve framed_setup_registry_settings framed_close_pipes : framed.

Lemma setup_pipes_run os w :
  ∃ w', setup_pipes os w = Ret (pipes_available os (config w), w') ∧ frame w w'.
Proof.
  unfold setup_pipes, pipes_available. cbv [mbind M_bind get ask].
  destruct (Config.capture_stdout (config w)); simpl.
  - destruct (sys_pipe os false) as [fds|]; simpl.
    + cbv [modify]. simpl.
      destruct (Config.capture_stderr (config w)); simpl.
      * destruct (sys_pipe os true) as [fds'|]; simpl.
        -- cbv [modify mret M_ret]. eexists. split; [reflexivity|].
           framed_step.
        -- cbv [logger_error emit modify]. simpl.
           match goal with
           | |- context [close_pipes os ?w0] =>
               destruct (framed_close_pipes os w0) as ([] & w1 & -> & F1)
           end.
           eexists. split; [reflexivity|].
           eapply frame_trans; [|exact F1].
           repeat split. eexists [_]. split; [reflexivity|]. by repeat constructor.
      * eexists. split; [reflexivity|]. framed_step.
    + cbv [logger_error emit modify]. simpl.
      eexists. split; [reflexivity|].
      repeat split. eexists [_]. split; [reflexivity|]. by repeat constructor.
  - destruct (Config.capture_stderr (config w)); simpl.
    + destruct (sys_pipe os true) as [fds'|]; simpl.
      * cbv [modify mret M_ret]. eexists. split; [reflexivity|]. framed_step.
      * cbv [logger_error emit modify]. simpl.
        match goal with
        | |- context [close_pipes os ?w0] =>
            destruct (framed_close_pipes os w0) as ([] & w1 & -> & F1)
        end.
        eexists. split; [reflexivity|].
        eapply frame_trans; [|exact F1].
        repeat split. eexists [_]. split; [reflexivity|]. by repeat constructor.
    + eexists. split; [reflexivity|]. apply frame_refl.
Qed.


(** ** The environment steps *)

Lemma with_environ_same w : with_environ (environ w) w = w.
Proof. by destruct w. Qed.

Lemma setup_environment_run os w :
  setup_environment os w
  = Ret (true,
         with_trace (trace w ++ [Logged DEBUG "Environment setup completed"])
           (with_environ
              (environment_after_setup (config w) (custom_environment w) (environ w))
              w)).
Proof.
  unfold setup_environment, environment_after_setup, setenv_if, setenv_each_in,
    setenv, setenv_each.
  run. simpl.
  destruct (Config.architecture (config w)),
    (Config.enable_virtual_desktop (config w) && _),
    (Config.enable_csmt (config w)), (Config.enable_esync (config w)),
    (Config.enable_fsync (config w)), (negb _); reflexivity.
Qed.

Lemma setup_dll_overrides_run os w :
  ∃ effects,
    setup_dll_overrides os w
    = Ret (tt, with_trace (trace w ++ effects)
                 (with_environ (environment_after_dll_overrides (config w) (environ w)) w))
    ∧ Forall (λ e, is_launch_effect e = true) effects.
Proof.
  unfold setup_dll_overrides, environment_after_dll_overrides, setenv. run.
  destruct (Config.dll_overrides (config w)); simpl.
  - exists []. by rewrite app_nil_r, with_environ_same, with_trace_same.
  - eexists [_]. split; [reflexivity|]. by repeat constructor.
Qed.

Lemma setup_graphics_environment_run os w :
  setup_graphics_environment os w
  = Ret (tt, with_environ (environment_after_graphics (config w) (environ w)) w).
Proof.
  unfold setup_graphics_environment, environment_after_graphics, setenv_if, setenv.
  run. simpl.
  destruct (String.eqb _ "x11"); [|destruct (String.eqb _ "wayland")];
    destruct (Config.enable_dxvk (config w)); simpl;
    by rewrite ?with_environ_same.
Qed.

Lemma setup_audio_environment_run os w :
  setup_audio_environment os w
  = Ret (tt, with_environ (environment_after_audio (config w) (environ w)) w).
Proof.
  unfold setup_audio_environment, environment_after_audio, setenv. run.
  destruct (String.eqb _ "alsa"); [done|].
  destruct (String.eqb _ "pulse"); [done|].
  destruct (String.eqb _ "oss"); [done|].
  by rewrite with_environ_same.
Qed.

Lemma lookup_setenv_in name value overwrite e k :
  valid_name name = true →
  setenv_in name value overwrite e !! k
  = if overwrite
    then first_defined [entry true name value k; e !! k]
    else first_defined [e !! k; entry true name value k].
Proof.
  intros Hvalid. unfold setenv_in, entry. rewrite Hvalid. simpl.
  destruct (String.eqb_spec k name) as [->|Hne].
  - destruct (e !! name) eqn:He, overwrite; simpl;
      by rewrite ?lookup_insert_eq, ?He.
  - destruct (e !! name) eqn:He, overwrite; simpl;
      rewrite ?lookup_insert_ne by done; by destruct (e !! k).
Qed.

Lemma lookup_setenv_if b name value e k :
  valid_name name = true →
  setenv_if b name value true e !! k
  = first_defined [entry b name value k; e !! k].
Proof.
  intros Hvalid. unfold setenv_if. destruct b; [by rewrite lookup_setenv_in|].
  simpl. by destruct (e !! k).
Qed.

Lemma lookup_setenv_if_default b name value e k :
  valid_name name = true →
  setenv_if b name value false e !! k
  = first_defined [e !! k; entry b name value k].
Proof.
  intros Hvalid. unfold setenv_if. destruct b; [by rewrite lookup_setenv_in|].
  simpl. by destruct (e !! k).
Qed.

Lemma lookup_setenv_each_in m e k :
  setenv_each_in m e !! k
  = if valid_name k then first_defined [m !! k; e !! k] else e !! k.
Proof.
  unfold setenv_each_in.
  apply (map_fold_weak_ind (λ r m, r !! k
    = if valid_name k then first_defined [m !! k; e !! k] else e !! k)).
  - rewrite lookup_empty. simpl. by destruct (valid_name k), (e !! k).
  - intros i x m' r Hfresh IH. unfold setenv_in.
    destruct (valid_name i) eqn:Hi.
    + destruct (decide (k = i)) as [->|Hne].
      * rewrite Hi, lookup_insert_eq. simpl.
        destruct (r !! i); by rewrite lookup_insert_eq.
      * rewrite lookup_insert_ne by done.
        destruct (r !! i); by rewrite lookup_insert_ne.
    + destruct (decide (k = i)) as [->|Hne].
      * by rewrite Hi in IH |- *.
      * by rewrite lookup_insert_ne.
Qed.

Lemma or_else_assoc a b c : or_else (or_else a b) c = or_else a (or_else b c).
Proof. by destruct a. Qed.

Lemma or_else_None_r a : or_else a None = a.
Proof. by destruct a. Qed.

Lemma or_else_None_l a : or_else None a = a.
Proof. done. Qed.

Ltac first_some :=
  cbn [first_defined foldr];
  rewrite ?or_else_assoc, ?or_else_None_r, ?or_else_None_l;
  try reflexivity.

Lemma lookup_environment_after_setup c custom e k :
  valid_name k = true →
  environment_after_setup c custom e !! k
  = first_defined [user_override c custom k; early_feature c k; e !! k].
Proof.
  intros Hvalid. unfold environment_after_setup. cbv zeta.
  rewrite !lookup_setenv_each_in, Hvalid.
  rewrite !lookup_setenv_if by done.
  unfold user_override, early_feature.
  destruct (Config.architecture c); rewrite !lookup_setenv_in by done;
    first_some.
Qed.

Lemma lookup_environment_after_dll_overrides c e k :
  environment_after_dll_overrides c e !! k
  = first_defined
      [match Config.dll_overrides c with
       | [] => None
       | _ :: _ =>
           entry true "WINEDLLOVERRIDES"
             (join_overrides true "" (Config.dll_overrides c)) k
       end; e !! k].
Proof.
  unfold environment_after_dll_overrides.
  destruct (Config.dll_overrides c); [simpl; by destruct (e !! k)|].
  by rewrite lookup_setenv_in.
Qed.

Lemma lookup_environment_after_graphics c e k :
  environment_after_graphics c e !! k
  = first_defined [e !! k; graphics_default c k].
Proof.
  unfold environment_after_graphics, graphics_default. cbv zeta.
  rewrite lookup_setenv_if_default by done.
  destruct (String.eqb (Config.graphics_driver c) "x11");
    [|destruct (String.eqb (Config.graphics_driver c) "wayland")];
    rewrite ?lookup_setenv_in by done; first_some.
Qed.

Lemma lookup_environment_after_audio c e k :
  environment_after_audio c e !! k
  = first_defined
      [entry (String.eqb (Config.audio_driver c) "alsa"
              || String.eqb (Config.audio_driver c) "pulse"
              || String.eqb (Config.audio_driver c) "oss")
         "WINE_AUDIO_DRIVER" (Config.audio_driver c) k; e !! k].
Proof.
  unfold environment_after_audio.
  destruct (String.eqb_spec (Config.audio_driver c) "alsa") as [->|_];
    [by rewrite lookup_setenv_in|].
  destruct (String.eqb_spec (Config.audio_driver c) "pulse") as [->|_];
    [by rewrite lookup_setenv_in|].
  destruct (String.eqb_spec (Config.audio_driver c) "oss") as [->|_];
    [by rewrite lookup_setenv_in|].
  simpl. by destruct (e !! k).
Qed.

Lemma lookup_child_environment c custom inherited k :
  valid_name k = true →
  child_environment c custom inherited !! k
  = first_defined [late_feature c k; user_override c custom k;
                   early_feature c k; inherited !! k; graphics_default c k].
Proof.
  intros Hvalid. unfold child_environment.
  rewrite lookup_environment_after_audio, lookup_environment_after_graphics,
    lookup_environment_after_dll_overrides, lookup_environment_after_setup by done.
  unfold late_feature. first_some.
Qed.

(** ** The launch *)

Lemma assemble_environment_run os w :
  ∃ effects,
    assemble_environment os w
    = Ret (tt, with_trace (trace w ++ effects)
                 (with_environ
                    (child_environment (config w) (custom_environment w) (environ w))
                    w))
    ∧ Forall (λ e, is_launch_effect e = true) effects.
Proof.
  unfold assemble_environment. cbv [mbind M_bind].
  rewrite setup_environment_run.
  match goal with
  | |- context [setup_dll_overrides os ?w0] =>
      destruct (setup_dll_overrides_run os w0) as (effects & -> & Heffects)
  end.
  rewrite setup_graphics_environment_run, setup_audio_environment_run. simpl.
  eexists (_ :: effects). rewrite <- app_assoc. split; [reflexivity|].
  by constructor.
Qed.

Lemma launch_frame_trans w1 w2 w3 :
  launch_frame w1 w2 → launch_frame w2 w3 → launch_frame w1 w3.
Proof.
  intros (? & ? & ? & ? & ? & e1 & ? & ?) (? & ? & ? & ? & ? & e2 & ? & ?).
  repeat split; try congruence.
  exists (e1 ++ e2). split; [|by apply Forall_app].
  rewrite app_assoc. congruence.
Qed.

Lemma frame_launch_frame w w' : frame w w' → launch_frame w w'.
Proof. by intros (_ & _ & ?). Qed.

Lemma execute_spec path args os w resolved_path :
  resolve_path path os w = Ret (resolved_path, w) →
  ∃ p w',
    execute path args os w = Ret (p, w')
    ∧ launch_frame w w'
    ∧ ((p = -1 ∧ monitored_processes w' = monitored_processes w)
       ∨ (∃ child, sys_fork os = Some child ∧ p = Z.pos child
            ∧ monitored_processes w'
              = table_assign p (launched_record os (config w) p resolved_path args)
                  (monitored_processes w)
            ∧ In (Spawned (build_wine_command resolved_path args (config w))
                    (child_environment (config w) (custom_environment w) (environ w))
                    (Config.nice_level (config w)) (Some child))
                (trace w')))
    ∧ (is_regular_file os resolved_path = false →
       p = -1
       ∧ w' = with_trace (trace w ++ [Logged ERROR_LOG
                                        ("Executable not found: " +:+ resolved_path)]) w)
    ∧ (0 < p → is_regular_file os resolved_path = true)
    ∧ (is_regular_file os resolved_path = true →
       pipes_available os (config w) = true →
       ∀ child, sys_fork os = Some child → p = Z.pos child).
Proof.
  intros Hres. unfold execute. cbv [mbind M_bind]. rewrite Hres.
  assert (Hval : ∃ w1, validate_executable resolved_path os w
                       = Ret (is_regular_file os resolved_path, w1)
                       ∧ frame w w1
                       ∧ (is_regular_file os resolved_path = false →
                          w1 = with_trace
                                 (trace w ++ [Logged ERROR_LOG
                                    ("Executable not found: " +:+ resolved_path)]) w)).
  { rewrite validate_executable_run. eexists. split; [reflexivity|]. split.
    - repeat split. eexists. split; [reflexivity|]. cbv zeta.
      destruct (is_regular_file _ _); [|by repeat constructor].
      destruct (_ && _); by repeat constructor.
    - by intros ->. }
  destruct Hval as (w1 & -> & F1 & Hfail).
  destruct (is_regular_file os resolved_path) eqn:Hreg; cbv [negb].
  2:{ eexists _, _. split; [reflexivity|]. split; [apply F1|].
      split; [left; split; [done|apply F1]|].
      split; [by split; [|apply Hfail]|]. split; [lia|done]. }
  clear Hfail. unfold logger_info at 1.
  destruct (framed_emit (Logged INFO ("Executing: " +:+ resolved_path)) eq_refl os w1)
    as ([] & w1' & -> & F1').
  assert (Hpre : ∃ w2, execute_pre_launch_commands os w1' = Ret (true, w2)
                       ∧ frame w1' w2).
  { rewrite execute_pre_launch_commands_run. eexists. split; [reflexivity|].
    repeat split. eexists. split; [reflexivity|]. apply hook_effects_pre_launch. }
  destruct Hpre as (w2 & -> & F2).
  cbv [negb].
  assert (F02 : frame w w2) by eauto using frame_trans.
  clear F1 F1' F2 w1 w1'.
  assert (Henv : ∃ w6, after (assemble_environment os w2) = Ret w6
                       ∧ launch_frame w w6
                       ∧ monitored_processes w6 = monitored_processes w
                       ∧ environ w6
                         = child_environment (config w) (custom_environment w)
                             (environ w)).
  { destruct (assemble_environment_run os w2) as (effects & -> & Heffects).
    eexists. split; [reflexivity|].
    destruct F02 as (Htbl & Henv & Hcb & Hcfg & Hcu & Hpre & Hpost & e0 & Htr & He0).
    simpl. rewrite Hcfg, Hcu, Henv. split; [|by split].
    repeat split; try done.
    exists (e0 ++ effects). simpl. rewrite Htr, <- app_assoc. split; [done|].
    by apply Forall_app. }
  unfold assemble_environment in Henv. cbv [mbind M_bind] in Henv.
  destruct (setup_environment os w2) as [[? w3]|]; [|by destruct Henv as (? & ? & _)].
  destruct (setup_dll_overrides os w3) as [[? w4]|]; [|by destruct Henv as (? & ? & _)].
  destruct (setup_graphics_environment os w4) as [[? w5]|];
    [|by destruct Henv as (? & ? & _)].
  destruct (setup_audio_environment os w5) as [[? w6]|];
    [|by destruct Henv as (? & ? & _)].
  destruct Henv as (w6' & [= <-] & F6 & Htbl6 & Henv6).
  clear F02 w2 w3 w4 w5.
  destruct (framed_setup_registry_settings os w6) as (? & w7 & -> & F7).
  destruct (setup_pipes_run os w7) as (w8 & -> & F8).
  assert (Hcfg7 : config w7 = config w).
  { destruct F7 as (_ & _ & _ & -> & _). apply F6. }
  assert (F68 : frame w6 w8) by eauto using frame_trans.
  assert (F : launch_frame w w8)
    by (eapply launch_frame_trans; [exact F6|by apply frame_launch_frame]).
  assert (Htbl8 : monitored_processes w8 = monitored_processes w)
    by (destruct F68 as (-> & _); done).
  assert (Henv8 : environ w8
                  = child_environment (config w) (custom_environment w) (environ w))
    by (destruct F68 as (_ & -> & _); done).
  rewrite Hcfg7. clear F6 F7 F8 F68 Hcfg7 Htbl6 Henv6 w6 w7.
  destruct (pipes_available os (config w)) eqn:Hpipes; cbv [negb].
  2:{ eexists _, _. split; [reflexivity|]. split; [apply F|].
      split; [by left|]. split; [done|]. split; [lia|done]. }
  cbv [get ask].
  match goal with
  | |- context [emit ?e os w8] =>
      destruct (framed_emit e eq_refl os w8) as ([] & w9 & Hspawn & F9)
  end.
  assert (Hin : In (Spawned (build_wine_command resolved_path args (config w))
                      (child_environment (config w) (custom_environment w) (environ w))
                      (Config.nice_level (config w)) (sys_fork os)) (trace w9)).
  { injection Hspawn as <-. simpl. apply in_or_app. right. left.
    destruct F as (_ & -> & _). by rewrite Henv8. }
  rewrite Hspawn. clear Hspawn.
  destruct (sys_fork os) as [child|] eqn:Hfork.
  - destruct (framed_close_fd (stdout_pipe w8).2 os w9) as ([] & w10 & -> & F10).
    destruct (framed_close_fd (stderr_pipe w8).2 os w10) as ([] & w11 & -> & F11).
    assert (F9' : frame w8 w11) by eauto 10 using frame_trans.
    assert (Hin' : In (Spawned (build_wine_command resolved_path args (config w))
                         (child_environment (config w) (custom_environment w)
                            (environ w))
                         (Config.nice_level (config w)) (Some child)) (trace w11)).
    { assert (F' : frame w9 w11) by eauto using frame_trans.
      destruct F' as (_ & _ & _ & _ & _ & _ & _ & e' & -> & _).
      apply in_or_app. by left. }
    assert (F' : launch_frame w w11)
      by (eapply launch_frame_trans; [exact F|by apply frame_launch_frame]).
    assert (Htbl : monitored_processes w11 = monitored_processes w)
      by (destruct F9' as (-> & _); done).
    clear F9 F10 F11 F9' Hin.
    unfold add_process. run. simpl.
    eexists _, _. split; [reflexivity|].
    destruct F as (_ & Hcfg & _). rewrite Hcfg.
    destruct F' as (Hcb & Hcfg' & Hcu & Hpre & Hpost & effects & Htr & Heff).
    simpl. split.
    { repeat split; try done. eexists (effects ++ [_; _]).
      rewrite Htr, <- !app_assoc. split; [reflexivity|].
      apply Forall_app. split; [done|]. by repeat constructor. }
    split.
    { right. exists child. rewrite Htbl. split_and!; try done.
      apply in_or_app. left. apply in_or_app. by left. }
    split; [done|]. split; [done|]. by intros _ _ ? [= ->].
  - unfold logger_error.
    match goal with
    | |- context [emit ?e os w9] =>
        destruct (framed_emit e eq_refl os w9) as ([] & w10 & -> & F10)
    end.
    destruct (framed_close_pipes os w10) as ([] & w11 & -> & F11).
    assert (F9' : frame w8 w11) by eauto 10 using frame_trans.
    eexists _, _. split; [reflexivity|].
    split; [eapply launch_frame_trans; [exact F|by apply frame_launch_frame]|].
    split; [left; split; [done|by destruct F9' as (-> & _)]|].
    split; [done|]. split; [lia|done].
Qed.

(** ** Claims on the launch *)

(** C6 (as amended). When the resolved form of the path (a leading [~]
    replaced by the home directory, a relative path prefixed with the
    current working directory) does not name an existing regular file, as
    [stat] reports it, the launch fails: every variant returns its failure
    value (-1, or [false] for [execute_async]) after logging
    "Executable not found", registers no ProcessRecord and leaves
    [get_all_processes] as it was. Readability of the file is not
    examined. *)
Theorem launch_rejects_missing_file path args os w resolved_path :
  resolve_path path os w = Ret (resolved_path, w) →
  is_regular_file os resolved_path = false →
  ∃ w',
    w' = with_trace
           (trace w ++ [Logged ERROR_LOG ("Executable not found: " +:+ resolved_path)]) w
    ∧ execute path args os w = Ret (-1, w')
    ∧ execute_async path args os w = Ret (false, w')
    ∧ execute_sync path args os w = Ret (-1, w')
    ∧ monitored_processes w' = monitored_processes w
    ∧ value_of (get_all_processes os w') = value_of (get_all_processes os w).
Proof.
  intros Hres Hreg.
  destruct (execute_spec path args os w resolved_path Hres)
    as (p & w' & Hrun & _ & _ & Hfail & _).
  destruct (Hfail Hreg) as [-> ->]. eexists. split; [reflexivity|].
  unfold execute_async, execute_sync. cbv [mbind M_bind]. rewrite Hrun.
  by split_and!.
Qed.

Lemma launch_rejects_missing_file_witness :
  resolve_path "missing.exe" (example_os 0) example_world
  = Ret ("/home/u/missing.exe", example_world)
  ∧ is_regular_file (example_os 0) "/home/u/missing.exe" = false
  ∧ execute "missing.exe" [] (example_os 0) example_world
    = Ret (-1, with_trace
                 [Logged ERROR_LOG "Executable not found: /home/u/missing.exe"]
                 example_world).
Proof.
  split; [reflexivity|]. split; [reflexivity|].
  destruct (launch_rejects_missing_file "missing.exe" [] (example_os 0)
              example_world "/home/u/missing.exe" eq_refl eq_refl)
    as (w' & -> & Hrun & _).
  exact Hrun.
Defined.

(** C6 (counterexample). /home/u/game.exe exists as a regular file that
    nobody may read. The launch does not fail: it returns pid 42 and files
    a record for it. *)
Lemma unreadable_file_is_launched :
  value_of (resolve_path "~/game.exe" (example_os_unreadable 0) example_world)
  = Some "/home/u/game.exe"
  ∧ sys_stat (example_os_unreadable 0) "/home/u/game.exe" = Some 32768
  ∧ sys_access_r (example_os_unreadable 0) "/home/u/game.exe" = false
  ∧ value_of (execute "~/game.exe" [] (example_os_unreadable 0) example_world)
    = Some 42
  ∧ value_of (get_all_processes (example_os_unreadable 0) example_world)
    = Some []
  ∧ (map pid <$> (world_of (execute "~/game.exe" [] (example_os_unreadable 0)
                              example_world)
                  ≫= λ w', value_of (get_all_processes (example_os_unreadable 0) w')))
    = Some [42].
Proof. repeat split; vm_compute; reflexivity. Qed.





Lemma wait_status_exited code :
  0 ≤ code < 256 →
  WIFEXITED (code * 256) = true ∧ WEXITSTATUS (code * 256) = code.
Proof.
  intros Hcode. unfold WIFEXITED, WEXITSTATUS.
  change 127 with (Z.ones 7). change 65280 with (Z.shiftl 255 8).
  change 256 with (2 ^ 8). rewrite <- Z.shiftl_mul_pow2 by lia.
  rewrite <- Z.shiftl_land, Z.shiftr_shiftl_l by lia. simpl (8 - 8).
  rewrite Z.shiftl_0_r. change 255 with (Z.ones 8).
  rewrite !Z.land_ones by lia. rewrite Z.shiftl_mul_pow2 by lia.
  split.
  - apply Z.eqb_eq. change (2 ^ 8) with (2 * 2 ^ 7).
    rewrite Z.mul_assoc. apply Z_mod_mult.
  - apply Z.mod_small. lia.
Qed.

Lemma wait_status_signaled sig (core : bool) :
  1 ≤ sig ≤ 126 →
  let status := sig + (if core then 128 else 0) in
  WIFEXITED status = false ∧ WIFSIGNALED status = true ∧ WTERMSIG status = sig.
Proof.
  intros Hsig status. unfold WIFEXITED, WIFSIGNALED, WTERMSIG.
  change 127 with (Z.ones 7). rewrite Z.land_ones by lia.
  assert (Hmod : status mod 2 ^ 7 = sig).
  { subst status. destruct core.
    - change 128 with (1 * 2 ^ 7). rewrite Z_mod_plus_full.
      apply Z.mod_small. lia.
    - rewrite Z.add_0_r. apply Z.mod_small. lia. }
  rewrite Hmod. split_and!; [|
    |done].
  - apply Z.eqb_neq. lia.
  - cbv zeta. destruct (128 <=? sig + 1) eqn:Hle; [lia|].
    apply Z.ltb_lt. rewrite Z.shiftr_div_pow2 by lia.
    change (2 ^ 1) with 2. apply Z.div_str_pos. lia.
Qed.

Lemma execute_sync_run path args os w p w1 :
  execute path args os w = Ret (p, w1) →
  0 < p →
  ∃ exit_code w2 rest,
    execute_sync path args os w = Ret (exit_code, w2)
    ∧ trace w2
      = trace w1
        ++ Waited p (sys_waitpid os p)
           :: hook_effects PostLaunch os (post_launch_commands w)
        ++ rest
    ∧ Forall (λ e, is_launch_effect e = true) rest
    ∧ (∀ code, 0 ≤ code < 256 → sys_waitpid os p = code * 256 →
       exit_code = code)
    ∧ (∀ sig (core : bool), 1 ≤ sig ≤ 126 →
       sys_waitpid os p = sig + (if core then 128 else 0) →
       exit_code = - sig)
    ∧ execute_async path args os w = Ret (true, w1)
    ∧ (∃ effects, trace w1 = trace w ++ effects
                  ∧ Forall (λ e, is_launch_effect e = true) effects)
    ∧ monitored_processes w2 = monitored_processes w1.
Proof.
  intros Hrun Hpos.
  destruct (resolve_path_run path os w) as [resolved_path Hres].
  destruct (execute_spec path args os w resolved_path Hres)
    as (p' & w' & Hrun' & Hframe & _).
  rewrite Hrun in Hrun'. injection Hrun' as <- <-.
  destruct Hframe as (_ & _ & _ & _ & Hpost & Heffects).
  unfold execute_sync, execute_async. cbv [mbind M_bind]. rewrite Hrun.
  destruct (p <=? 0) eqn:Hle; [lia|].
  assert (Hwait : ∃ exit_code,
    wait_for_process p os w1
    = Ret (exit_code, with_trace (trace w1 ++ [Waited p (sys_waitpid os p)]) w1)
    ∧ (∀ code, 0 ≤ code < 256 → sys_waitpid os p = code * 256 →
       exit_code = code)
    ∧ (∀ sig (core : bool), 1 ≤ sig ≤ 126 →
       sys_waitpid os p = sig + (if core then 128 else 0) →
       exit_code = - sig)).
  { unfold wait_for_process. run.
    destruct (WIFEXITED (sys_waitpid os p)) eqn:Hexited;
      [|destruct (WIFSIGNALED (sys_waitpid os p)) eqn:Hsignaled];
      (eexists; split; [reflexivity|]); split.
    - intros code Hcode Hst. rewrite Hst. by apply wait_status_exited.
    - intros sig core Hsig Hst. rewrite Hst in Hexited.
      destruct (wait_status_signaled sig core Hsig) as (He & _). congruence.
    - intros code Hcode Hst. rewrite Hst in Hexited.
      destruct (wait_status_exited code Hcode) as (He & _). congruence.
    - intros sig core Hsig Hst. rewrite Hst.
      destruct (wait_status_signaled sig core Hsig) as (_ & _ & Ht).
      by rewrite Ht.
    - intros code Hcode Hst. rewrite Hst in Hexited.
      destruct (wait_status_exited code Hcode) as (He & _). congruence.
    - intros sig core Hsig Hst. rewrite Hst in Hsignaled.
      destruct (wait_status_signaled sig core Hsig) as (_ & Hs & _). congruence. }
  destruct Hwait as (exit_code & -> & Hexit & Hsig).
  rewrite execute_post_launch_commands_run. cbv [modify]. simpl.
  match goal with
  | |- context [close_pipes os ?w0] =>
      destruct (framed_close_pipes os w0) as ([] & w3 & -> & F3)
  end.
  destruct F3 as (Htbl3 & _ & _ & _ & _ & _ & _ & closes & Htr & Hcloses).
  simpl in Htr, Htbl3.
  unfold logger_info. run. simpl.
  exists exit_code. eexists. eexists (closes ++ [_]).
  split; [reflexivity|]. simpl. rewrite Htr, Hpost, <- !app_assoc. simpl.
  split; [reflexivity|].
  split; [apply Forall_app; split; [done|by repeat constructor]|].
  split; [done|]. split; [done|].
  split; [by apply Z.ltb_lt in Hpos as ->|]. by split.
Qed.


(** C7. When the launch succeeds (the launch pipeline returns a pid
    [p > 0]), the synchronous variant goes on to wait for [p], and only
    then runs the post-launch hooks, in order, and returns the decoded
    status: the exit code of a child that exited normally, the negated
    signal number of a child that a signal terminated. Every effect of the
    asynchronous variant is a launch effect: it neither waits nor runs a
    post-launch hook. *)
Theorem sync_launch_waits_then_runs_post_hooks path args os w p w1 :
  execute path args os w = Ret (p, w1) →
  0 < p →
  ∃ exit_code w2 rest,
    execute_sync path args os w = Ret (exit_code, w2)
    ∧ trace w2
      = trace w1
        ++ Waited p (sys_waitpid os p)
           :: hook_effects PostLaunch os (post_launch_commands w)
        ++ rest
    ∧ Forall (λ e, is_launch_effect e = true) rest
    ∧ (∀ code, 0 ≤ code < 256 → sys_waitpid os p = code * 256 →
       exit_code = code)
    ∧ (∀ sig (core : bool), 1 ≤ sig ≤ 126 →
       sys_waitpid os p = sig + (if core then 128 else 0) →
       exit_code = - sig)
    ∧ execute_async path args os w = Ret (true, w1)
    ∧ ∃ effects, trace w1 = trace w ++ effects
                 ∧ Forall (λ e, is_launch_effect e = true) effects.
Proof.
  intros Hrun Hpos.
  destruct (execute_sync_run path args os w p w1 Hrun Hpos)
    as (exit_code & w2 & rest & ? & ? & ? & ? & ? & ? & ? & _).
  by exists exit_code, w2, rest.
Qed.

Lemma sync_launch_waits_then_runs_post_hooks_witness :
  ∃ w1 w2,
    execute "~/game.exe" [] (example_os 5) example_world = Ret (42, w1)
    ∧ execute_sync "~/game.exe" [] (example_os 5) example_world = Ret (0, w2)
    ∧ ∃ rest,
        trace w2
        = trace w1
          ++ [Waited 42 0;
              Logged DEBUG "Executing post-launch command: echo post";
              Hooked PostLaunch "echo post" "done";
              Logged DEBUG "Post-launch command output: done"]
          ++ rest.
Proof.
  assert (Hrun : ∃ w1, execute "~/game.exe" [] (example_os 5) example_world
                       = Ret (42, w1)).
  { eexists. vm_compute. reflexivity. }
  destruct Hrun as [w1 Hrun]. exists w1.
  destruct (sync_launch_waits_then_runs_post_hooks "~/game.exe" [] (example_os 5)
              example_world 42 w1 Hrun eq_refl)
    as (exit_code & w2 & rest & Hsync & Htrace & _ & Hexit & _).
  exists w2. split; [exact Hrun|].
  rewrite (Hexit 0) in Hsync by (lia || reflexivity).
  split; [exact Hsync|]. exists rest. exact Htrace.
Defined.

(** ** Claim on the environment of the child *)

(** C5 (as amended). For every valid variable name, other than
    WINEDLLOVERRIDES when the DLL override list is non-empty and
    WINE_AUDIO_DRIVER when the audio driver is alsa, pulse or oss, the
    environment assembled for the child gives the name the value of the
    first source that defines it, in this order: the user overrides (the
    configuration's environment variables, then the executor's custom
    variables), the feature-derived variables and the prefix path variable
    that [setup_environment] sets, the inherited environment, and last the
    graphics hints (DISPLAY, WAYLAND_DISPLAY, DXVK_HUD), which only fill in
    a name that nothing else defines. In particular a user override wins
    over the feature-derived and the inherited value of that name. The
    child of a successful launch is spawned with exactly this environment. *)
Theorem child_environment_precedence os w k :
  valid_name k = true →
  late_feature (config w) k = None →
  ∃ w',
    after (assemble_environment os w) = Ret w'
    ∧ environ w' !! k
      = first_defined [user_override (config w) (custom_environment w) k;
                       early_feature (config w) k;
                       environ w !! k;
                       graphics_default (config w) k]
    ∧ (∀ v, user_override (config w) (custom_environment w) k = Some v →
            environ w' !! k = Some v)
    ∧ ∀ path args p w2,
        execute path args os w = Ret (p, w2) → 0 < p →
        ∃ command nice child,
          p = Z.pos child
          ∧ In (Spawned command (environ w') nice (Some child)) (trace w2).
Proof.
  intros Hvalid Hlate.
  destruct (assemble_environment_run os w) as (effects & -> & _).
  eexists. split; [reflexivity|]. simpl.
  assert (Hlookup :
    child_environment (config w) (custom_environment w) (environ w) !! k
    = first_defined [user_override (config w) (custom_environment w) k;
                     early_feature (config w) k;
                     environ w !! k;
                     graphics_default (config w) k]).
  { rewrite lookup_child_environment by done. by rewrite Hlate. }
  split; [exact Hlookup|]. split.
  - intros v Hv. rewrite Hlookup. simpl. by rewrite Hv.
  - intros path args p w2 Hrun Hpos.
    destruct (resolve_path_run path os w) as [resolved_path Hres].
    destruct (execute_spec path args os w resolved_path Hres)
      as (p' & w2' & Hrun' & _ & Hcase & _).
    rewrite Hrun in Hrun'. injection Hrun' as <- <-.
    destruct Hcase as [[-> _]|(child & _ & -> & _ & Hin)]; [lia|].
    eauto.
Qed.

Lemma child_environment_precedence_witness :
  valid_name "WINEESYNC" = true
  ∧ late_feature (config override_world) "WINEESYNC" = None
  ∧ early_feature (config override_world) "WINEESYNC" = Some "1"
  ∧ environ override_world !! "WINEESYNC" = Some "1"
  ∧ environment_after (after (assemble_environment (example_os 0) override_world))
      "WINEESYNC"
    = Some "0".
Proof.
  split; [reflexivity|]. split; [reflexivity|]. split; [reflexivity|].
  split; [vm_compute; reflexivity|].
  destruct (child_environment_precedence (example_os 0) override_world "WINEESYNC"
              eq_refl eq_refl) as (w' & -> & _ & Huser & _).
  apply Huser. vm_compute. reflexivity.
Defined.

(** C5 (counterexample). The user overrides give WINEDLLOVERRIDES the
    value "mine" and WINE_AUDIO_DRIVER the value "jack", yet the child
    environment holds the feature-derived values "d3d11=n;dxgi=n" and
    "alsa": the user override loses. The inherited DISPLAY ":1" stays
    although the x11 graphics feature defines DISPLAY as ":0": the
    inherited value wins over the feature-derived one. *)
Lemma user_override_loses_to_late_feature :
  user_override override_config ∅ "WINEDLLOVERRIDES" = Some "mine"
  ∧ environment_after (after (assemble_environment (example_os 0) override_world))
      "WINEDLLOVERRIDES"
    = Some "d3d11=n;dxgi=n"
  ∧ user_override override_config ∅ "WINE_AUDIO_DRIVER" = Some "jack"
  ∧ environment_after (after (assemble_environment (example_os 0) override_world))
      "WINE_AUDIO_DRIVER"
    = Some "alsa"
  ∧ environ override_world !! "DISPLAY" = Some ":1"
  ∧ graphics_default override_config "DISPLAY" = Some ":0"
  ∧ environment_after (after (assemble_environment (example_os 0) override_world))
      "DISPLAY"
    = Some ":1".
Proof. repeat split; vm_compute; reflexivity. Qed.

(** ** Histories of calls *)

Lemma monitor_tick_keys os w w' :
  monitor_tick os w = Ret (tt, w') →
  map fst (monitored_processes w') = map fst (monitored_processes w).
Proof.
  intros (t' & Hall & ->)%monitor_tick_spec. simpl. by eapply visited_keys.
Qed.

Lemma monitor_loop_keys views w w' :
  monitor_loop views w = Ret w' →
  map fst (monitored_processes w') = map fst (monitored_processes w).
Proof.
  revert w. induction views as [|os views IH]; intros w; simpl.
  - by intros [= ->].
  - destruct (monitor_tick os w) as [[[] w1]|] eqn:Htick; [|done].
    intros Hloop. rewrite (IH _ Hloop). by eapply monitor_tick_keys.
Qed.

Lemma kill_each_table l os w w' :
  for_each (λ info, kill_process (pid info) SIGKILL) l os w = Ret (tt, w') →
  monitored_processes w' = monitored_processes w.
Proof.
  revert w. induction l as [|info l IH]; intros w; simpl.
  - by intros [= ->].
  - cbv [mbind M_bind]. rewrite kill_process_run. intros Hrun.
    by rewrite (IH _ Hrun).
Qed.

Lemma execute_tracked path args os w p w' q :
  execute path args os w = Ret (p, w') → tracked q w → tracked q w'.
Proof.
  intros Hrun Hq. destruct (resolve_path_run path os w) as [resolved_path Hres].
  destruct (execute_spec path args os w resolved_path Hres)
    as (p' & w'' & Hrun' & _ & Hcase & _).
  rewrite Hrun in Hrun'. injection Hrun' as <- <-. unfold tracked.
  destruct Hcase as [[_ ->]|(child & _ & _ & -> & _)]; [done|].
  destruct (decide (p = q)) as [->|Hne].
  - by rewrite table_find_assign_eq.
  - by rewrite table_find_assign_ne.
Qed.

Lemma run_call_tracked c os w w' p :
  run_call c os w = Ret (tt, w') →
  c ≠ CallRemove p →
  tracked p w → tracked p w'.
Proof.
  unfold tracked. destruct c as [|o q| |q info|q|q| |q|cb| |path args|path args|path args];
    simpl; intros Hrun Hc Hp.
  - apply monitor_tick_spec in Hrun as (t' & Hall & ->). simpl.
    pose proof (visited_find _ _ _ _ p Hall) as Hv.
    destruct Hp as [info Hp]. rewrite Hp in Hv.
    destruct Hv as (info' & -> & _). eauto.
  - destruct (signal_operation_run o q os w) as (effects & Hrun').
    rewrite Hrun in Hrun'. by injection Hrun' as ->.
  - revert Hrun. unfold kill_all_processes, get_all_processes. run.
    intros Hrun%kill_each_table. by rewrite Hrun.
  - revert Hrun. unfold add_process. run. intros [= <-]. simpl.
    destruct (decide (q = p)) as [->|Hne].
    + by rewrite table_find_assign_eq.
    + by rewrite table_find_assign_ne.
  - revert Hrun. unfold remove_process. run. intros [= <-]. simpl.
    rewrite table_find_erase_ne; [done|congruence].
  - revert Hrun. unfold get_process_info. run.
    by destruct (table_find q _); intros [= <-].
  - revert Hrun. unfold get_all_processes. run. by intros [= <-].
  - revert Hrun. unfold is_process_monitored. run. by intros [= <-].
  - revert Hrun. unfold register_callback. run. by intros [= <-].
  - revert Hrun. unfold clear_callbacks. run. by intros [= <-].
  - revert Hrun. cbv [mbind M_bind mret M_ret].
    destruct (execute path args os w) as [[q w1]|] eqn:Hexec; [|done].
    intros [= <-]. by eapply execute_tracked.
  - revert Hrun. unfold execute_async. cbv [mbind M_bind mret M_ret].
    destruct (execute path args os w) as [[q w1]|] eqn:Hexec; [|done].
    intros [= <-]. by eapply execute_tracked.
  - revert Hrun. cbv [mbind M_bind mret M_ret].
    destruct (execute_sync path args os w) as [[r w2]|] eqn:Hsync; [|done].
    intros [= <-]. revert Hsync. unfold execute_sync. cbv [mbind M_bind].
    destruct (execute path args os w) as [[q w1]|] eqn:Hexec; [|done].
    pose proof (execute_tracked _ _ _ _ _ _ p Hexec Hp) as Hp1.
    destruct (Z.leb_spec q 0) as [Hle|Hpos].
    + by intros [= _ <-].
    + destruct (execute_sync_run path args os w q w1 Hexec Hpos)
        as (exit_code & w2' & rest & Hsync & _ & _ & _ & _ & _ & _ & Htbl).
      unfold execute_sync in Hsync. cbv [mbind M_bind] in Hsync.
      rewrite Hexec in Hsync. destruct (q <=? 0) eqn:Hle; [lia|].
      rewrite Hsync. intros [= _ <-]. unfold tracked in *. by rewrite Htbl.
Qed.

Lemma run_calls_tracked cs w w' p :
  run_calls cs w = Ret w' →
  Forall (λ c, c.2 ≠ CallRemove p) cs →
  tracked p w → tracked p w'.
Proof.
  revert w. induction cs as [|[os c] cs IH]; intros w; simpl.
  - by intros [= ->].
  - destruct (run_call c os w) as [[[] w1]|] eqn:Hcall; [|done].
    intros Hrun [Hc Hcs]%Forall_cons Hp. simpl in Hc.
    eapply IH; [done|done|]. by eapply run_call_tracked.
Qed.

(** C8. The Monitor Loop never removes an entry from the Process Table:
    after any number of passes the table holds the same identifiers.
    Whatever the clients call and however often the monitor passes, a
    tracked process (terminated or not) stays in the table, and so in the
    result of [get_all_processes], as long as no call is
    [remove_process] for its identifier; [remove_process] for the
    identifier does remove it. *)
Theorem tracked_until_removed p w :
  (∀ views w',
     monitor_loop views w = Ret w' →
     map fst (monitored_processes w') = map fst (monitored_processes w))
  ∧ (∀ cs w',
       run_calls cs w = Ret w' →
       tracked p w →
       Forall (λ c, c.2 ≠ CallRemove p) cs →
       ∃ info,
         table_find p (monitored_processes w') = Some info
         ∧ ∀ os, ∃ l, get_all_processes os w' = Ret (l, w') ∧ In info l)
  ∧ (∀ os, ∃ w', remove_process p os w = Ret (tt, w') ∧ ¬ tracked p w').
Proof.
  split_and!.
  - intros views w'. apply monitor_loop_keys.
  - intros cs w' Hrun Hp Hcs.
    destruct (run_calls_tracked _ _ _ _ Hrun Hcs Hp) as [info Hinfo].
    exists info. split; [done|]. intros os. eexists. split; [reflexivity|].
    by eapply table_find_In.
  - intros os. unfold remove_process. run. eexists. split; [reflexivity|].
    unfold tracked. simpl. rewrite table_find_erase_eq. by intros [? ?].
Qed.

Lemma tracked_until_removed_witness :
  ∃ w' info,
    run_calls [(example_os_dead 10, CallTick);
               (example_os_dead 11, CallSignal OpTerminate 42);
               (example_os_dead 12, CallRemove 7);
               (example_os_dead 20, CallTick);
               (example_os_dead 21, CallList)]
      (example_tracking RUNNING) = Ret w'
    ∧ table_find 42 (monitored_processes w') = Some info.
Proof.
  set (cs := [(example_os_dead 10, CallTick);
              (example_os_dead 11, CallSignal OpTerminate 42);
              (example_os_dead 12, CallRemove 7);
              (example_os_dead 20, CallTick);
              (example_os_dead 21, CallList)]).
  set (w' := match run_calls cs (example_tracking RUNNING) with
             | Ret w' => w'
             | Throw => example_world
             end).
  assert (Hrun : run_calls cs (example_tracking RUNNING) = Ret w')
    by (vm_compute; reflexivity).
  destruct (tracked_until_removed 42 (example_tracking RUNNING)) as (_ & Hkeep & _).
  destruct (Hkeep cs w' Hrun) as (info & Hinfo & _).
  - by eexists.
  - repeat constructor; discriminate.
  - exists w', info. split; [exact Hrun|exact Hinfo].
Defined.

(** ** The table stays a map filed by pid *)

Lemma table_assign_keys (P : Z → Prop) key info t :
  P key → Forall P (map fst t) → Forall P (map fst (table_assign key info t)).
Proof.
  intros Hkey. induction t as [|[k i] t IH]; simpl.
  - by repeat constructor.
  - intros [Hk Ht]%Forall_cons.
    destruct (key <? k); [by repeat constructor|].
    destruct (key =? k); simpl; constructor; auto.
Qed.

Lemma table_assign_ok key info t :
  table_ok t → table_ok (table_assign key info t).
Proof.
  unfold table_ok. induction t as [|[k i] t IH]; simpl.
  - intros _. by repeat constructor.
  - intros [Hs Hlt]%StronglySorted_inv.
    destruct (Z.ltb_spec key k) as [Hkk|Hkk]; simpl.
    + constructor; [by constructor|].
      constructor; [done|]. eapply Forall_impl; [exact Hlt|]. simpl. lia.
    + destruct (Z.eqb_spec key k) as [->|Hne]; simpl.
      * by constructor.
      * constructor; [auto|]. apply table_assign_keys; [lia|done].
Qed.

Lemma table_erase_keys (P : Z → Prop) key t :
  Forall P (map fst t) → Forall P (map fst (table_erase key t)).
Proof.
  induction t as [|[k i] t IH]; simpl; [done|].
  intros [Hk Ht]%Forall_cons. destruct (k =? key); simpl; auto.
Qed.

Lemma table_erase_ok key t : table_ok t → table_ok (table_erase key t).
Proof.
  unfold table_ok. induction t as [|[k i] t IH]; simpl; [done|].
  intros [Hs Hlt]%StronglySorted_inv. destruct (k =? key); simpl; [auto|].
  constructor; [auto|]. by apply table_erase_keys.
Qed.

Lemma table_assign_consistent key info t :
  pid info = key → table_consistent t →
  table_consistent (table_assign key info t).
Proof.
  unfold table_consistent. intros Hkey. induction t as [|[k i] t IH]; simpl.
  - by repeat constructor.
  - intros [Hk Ht]%Forall_cons.
    destruct (key <? k); [by repeat constructor|].
    destruct (key =? k); simpl; constructor; auto.
Qed.

Lemma table_erase_consistent key t :
  table_consistent t → table_consistent (table_erase key t).
Proof.
  unfold table_consistent. induction t as [|[k i] t IH]; simpl; [done|].
  intros [Hk Ht]%Forall_cons. destruct (k =? key); simpl; auto.
Qed.

Lemma visited_consistent os w t t' :
  Forall2 (visited os w) t t' → table_consistent t → table_consistent t'.
Proof.
  unfold table_consistent.
  induction 1 as [|e e' t t' Hv _ IH]; [done|].
  intros [He Ht]%Forall_cons. constructor; [|auto].
  destruct (visited_same_identity _ _ _ _ Hv) as [Hpid _].
  destruct Hv as [-> _]. congruence.
Qed.

Lemma execute_filed path args os w p w' :
  execute path args os w = Ret (p, w') → table_filed w → table_filed w'.
Proof.
  intros Hrun [Hok Hcons].
  destruct (resolve_path_run path os w) as [resolved_path Hres].
  destruct (execute_spec path args os w resolved_path Hres)
    as (p' & w'' & Hrun' & _ & Hcase & _).
  rewrite Hrun in Hrun'. injection Hrun' as <- <-. unfold table_filed.
  destruct Hcase as [[_ ->]|(child & _ & _ & -> & _)]; [done|].
  split; [by apply table_assign_ok|by apply table_assign_consistent].
Qed.

Lemma run_call_filed c os w w' :
  run_call c os w = Ret (tt, w') →
  files_by_pid c →
  table_filed w → table_filed w'.
Proof.
  unfold table_filed.
  destruct c as [|o q| |q info|q|q| |q|cb| |path args|path args|path args];
    simpl; intros Hrun Hc [Hok Hcons].
  - apply monitor_tick_spec in Hrun as (t' & Hall & ->). simpl. split.
    + unfold table_ok. by rewrite (visited_keys _ _ _ _ Hall).
    + by eapply visited_consistent.
  - destruct (signal_operation_run o q os w) as (effects & Hrun').
    rewrite Hrun in Hrun'. by injection Hrun' as ->.
  - revert Hrun. unfold kill_all_processes, get_all_processes. run.
    intros Hrun%kill_each_table. by rewrite Hrun.
  - revert Hrun. unfold add_process. run. intros [= <-]. simpl.
    split; [by apply table_assign_ok|by apply table_assign_consistent].
  - revert Hrun. unfold remove_process. run. intros [= <-]. simpl.
    split; [by apply table_erase_ok|by apply table_erase_consistent].
  - revert Hrun. unfold get_process_info. run.
    by destruct (table_find q _); intros [= <-].
  - revert Hrun. unfold get_all_processes. run. by intros [= <-].
  - revert Hrun. unfold is_process_monitored. run. by intros [= <-].
  - revert Hrun. unfold register_callback. run. by intros [= <-].
  - revert Hrun. unfold clear_callbacks. run. by intros [= <-].
  - revert Hrun. cbv [mbind M_bind mret M_ret].
    destruct (execute path args os w) as [[q w1]|] eqn:Hexec; [|done].
    intros [= <-]. by eapply (execute_filed _ _ _ w).
  - revert Hrun. unfold execute_async. cbv [mbind M_bind mret M_ret].
    destruct (execute path args os w) as [[q w1]|] eqn:Hexec; [|done].
    intros [= <-]. by eapply (execute_filed _ _ _ w).
  - revert Hrun. cbv [mbind M_bind mret M_ret].
    destruct (execute_sync path args os w) as [[r w2]|] eqn:Hsync; [|done].
    intros [= <-]. revert Hsync. unfold execute_sync. cbv [mbind M_bind].
    destruct (execute path args os w) as [[q w1]|] eqn:Hexec; [|done].
    assert (Hf1 : table_filed w1) by (by eapply (execute_filed _ _ _ w)).
    destruct (Z.leb_spec q 0) as [Hle|Hpos].
    + by intros [= _ <-].
    + destruct (execute_sync_run path args os w q w1 Hexec Hpos)
        as (exit_code & w2' & rest & Hsync & _ & _ & _ & _ & _ & _ & Htbl).
      unfold execute_sync in Hsync. cbv [mbind M_bind] in Hsync.
      rewrite Hexec in Hsync. destruct (q <=? 0) eqn:Hle; [lia|].
      rewrite Hsync. intros [= _ <-]. by rewrite Htbl.
Qed.

(** Every state reached from a supervisor that tracks nothing, by calls
    that give [add_process] records under their own pid, has its table in
    key order and filed by pid. *)
Lemma run_calls_filed cs w w' :
  run_calls cs w = Ret w' →
  Forall (λ c, files_by_pid c.2) cs →
  table_filed w → table_filed w'.
Proof.
  revert w. induction cs as [|[os c] cs IH]; intros w; simpl.
  - by intros [= ->].
  - destruct (run_call c os w) as [[[] w1]|] eqn:Hcall; [|done].
    intros Hrun [Hc Hcs]%Forall_cons Hf. simpl in Hc.
    eapply IH; [done|done|]. by eapply run_call_filed.
Qed.

Lemma get_process_state_returns os p w :
  stat_lines_ok os → ∃ s, get_process_state p os w = Ret (s, w).
Proof.
  intros Hok. unfold get_process_state. run.
  destruct (proc_stat os p) as [line|] eqn:Hline; [|by eexists].
  destruct (str_find "(" line); [|by eexists].
  destruct (str_rfind ")" line) as [last_paren|] eqn:Hlast; [|by eexists].
  unfold str_substr. specialize (Hok p line last_paren Hline Hlast).
  destruct (Nat.leb_spec (last_paren + 2) (String.length line)); [|lia]. run.
  repeat (destruct (Ascii.eqb _ _); [by eexists|]). by eexists.
Qed.

Lemma monitor_scan_returns os t w :
  stat_lines_ok os → ∃ r w', monitor_scan t os w = Ret (r, w').
Proof.
  intros Hok. revert w. induction t as [|[key info] t IH]; intros w; simpl.
  - by eexists _, _.
  - unfold is_process_alive. run. fold monitor_scan.
    destruct (sys_kill os key 0); simpl.
    + rewrite update_process_stats_run.
      destruct (get_process_state_returns os (pid info) w Hok) as [s ->].
      destruct (IH w) as (r & w' & ->). by eexists _, _.
    + rewrite notify_state_change_run.
      match goal with
      | |- context [monitor_scan t os ?w0] => destruct (IH w0) as (r & w' & ->)
      end.
      by eexists _, _.
Qed.

Lemma monitor_tick_returns os w :
  stat_lines_ok os → ∃ w', monitor_tick os w = Ret (tt, w').
Proof.
  intros Hok. unfold monitor_tick. cbv [mbind M_bind get].
  destruct (monitor_scan_returns os (monitored_processes w) w Hok) as (r & w1 & ->).
  cbv [modify]. unfold logger_info. rewrite for_each_emit. by eexists.
Qed.

(** ** Reading the run state off a stat line *)

Lemma str_rfind_absent c s : str_contains c s = false → str_rfind c s = None.
Proof.
  induction s as [|a s IH]; simpl; [done|].
  intros [Ha Hs]%orb_false_elim. by rewrite IH, Ha.
Qed.

Lemma str_rfind_app c a b :
  str_rfind c (a +:+ b)
  = match str_rfind c b with
    | Some i => Some (String.length a + i)%nat
    | None => str_rfind c a
    end.
Proof.
  induction a as [|x a IH].
  - change ("" +:+ b) with b. simpl. by destruct (str_rfind c b).
  - change (String x a +:+ b) with (String x (a +:+ b)). simpl.
    rewrite IH. by destruct (str_rfind c b).
Qed.

Lemma str_find_app c a b :
  str_contains c a = true → is_Some (str_find c (a +:+ b)).
Proof.
  induction a as [|x a IH]; [done|].
  change (String x a +:+ b) with (String x (a +:+ b)). simpl.
  destruct (Ascii.eqb x c); simpl; [by eexists|].
  intros [i Hi]%IH. rewrite Hi. by eexists.
Qed.

Lemma substring_all s : String.substring 0 (String.length s) s = s.
Proof. induction s as [|a s IH]; simpl; [done|]. by rewrite IH. Qed.

Lemma str_drop_app a b : str_drop (String.length a) (a +:+ b) = b.
Proof.
  unfold str_drop. induction a as [|x a IH].
  - change ("" +:+ b) with b. simpl. rewrite Nat.sub_0_r. apply substring_all.
  - change (String x a +:+ b) with (String x (a +:+ b)). simpl. exact IH.
Qed.

Lemma length_append (a b : string) :
  String.length (a +:+ b) = (String.length a + String.length b)%nat.
Proof.
  induction a as [|x a IH]; [done|].
  change (String x a +:+ b) with (String x (a +:+ b)). simpl. by rewrite IH.
Qed.

Lemma append_assoc (a b c : string) : (a +:+ b) +:+ c = a +:+ b +:+ c.
Proof.
  induction a as [|x a IH]; [done|].
  change (String x a +:+ b) with (String x (a +:+ b)).
  change (String x (a +:+ b) +:+ c) with (String x ((a +:+ b) +:+ c)).
  change (String x a +:+ b +:+ c) with (String x (a +:+ b +:+ c)).
  by rewrite IH.
Qed.

(** A stat line [pid (comm) c ...] gives RUNNING for the run states R and
    S, PAUSED for T, STOPPED for Z, and RUNNING for any other character. *)
Lemma get_process_state_line os p w comm c rest :
  proc_stat os p = Some (comm +:+ ") " +:+ String c rest) →
  str_contains "(" comm = true →
  str_contains ")" (String c rest) = false →
  get_process_state p os w
  = Ret (if Ascii.eqb c "T" then PAUSED
         else if Ascii.eqb c "Z" then STOPPED
         else RUNNING, w).
Proof.
  intros Hline Hopen Hclose. unfold get_process_state. run. rewrite Hline.
  destruct (str_find_app "(" comm (") " +:+ String c rest) Hopen) as [i ->].
  rewrite str_rfind_app.
  assert (Hlast : str_rfind ")" (") " +:+ String c rest) = Some 0%nat).
  { change (") " +:+ String c rest) with (String ")" (String " " (String c rest))).
    pose proof (str_rfind_absent _ _ Hclose) as Hnone.
    change (str_rfind ")" (String ")" (String " " (String c rest))))
      with (match (match str_rfind ")" (String c rest) with
                   | Some i => Some (S i)
                   | None => None
                   end) with
            | Some i => Some (S i)
            | None => Some 0%nat
            end).
    by rewrite Hnone. }
  rewrite Hlast. unfold str_substr.
  assert (Hlen : String.length (comm +:+ ") " +:+ String c rest)
                 = (String.length comm + 0 + 2 + S (String.length rest))%nat)
    by (rewrite !length_append; change (String.length ") ") with 2%nat;
        simpl String.length; lia).
  rewrite Hlen.
  destruct (Nat.leb_spec (String.length comm + 0 + 2)
              (String.length comm + 0 + 2 + S (String.length rest))); [|lia].
  run.
  replace (String.substring _ _ _) with (String c rest).
  2:{ pose proof (str_drop_app (comm +:+ ") ") (String c rest)) as Hdrop.
      unfold str_drop in Hdrop. rewrite <- Hdrop at 1.
      rewrite append_assoc, Hlen, length_append.
      change (String.length ") ") with 2%nat. f_equal; lia. }
  change (str_front (String c rest)) with c.
  destruct (Ascii.eqb_spec c "R") as [->|_]; [done|].
  destruct (Ascii.eqb_spec c "S") as [->|_]; [done|].
  destruct (Ascii.eqb c "T"); [done|]. by destruct (Ascii.eqb c "Z").
Qed.

(** ** Path names *)

Lemma str_rfind_lt c s i : str_rfind c s = Some i → (i < String.length s)%nat.
Proof.
  revert i. induction s as [|a s IH]; intros i; simpl; [done|].
  destruct (str_rfind c s) as [j|].
  - intros [= <-]. specialize (IH j eq_refl). lia.
  - destruct (Ascii.eqb a c); [|done]. intros [= <-]. lia.
Qed.

Lemma str_rfind_present c s : str_contains c s = true → is_Some (str_rfind c s).
Proof.
  induction s as [|a s IH]; simpl; [done|].
  destruct (str_rfind c s) as [j|]; [by eexists|].
  destruct (Ascii.eqb a c); simpl; [by eexists|].
  intros Hs. by destruct (IH Hs).
Qed.

Lemma str_drop_cons n a s : str_drop (S n) (String a s) = str_drop n s.
Proof. done. Qed.

Lemma str_drop_0 s : str_drop 0 s = s.
Proof. unfold str_drop. rewrite Nat.sub_0_r. apply substring_all. Qed.

(** The string splits at the last occurrence of a character. *)
Lemma str_rfind_split c s i :
  str_rfind c s = Some i →
  s = String.substring 0 i s +:+ String c (str_drop (i + 1) s)
  ∧ str_contains c (str_drop (i + 1) s) = false.
Proof.
  revert i. induction s as [|a s IH]; intros i; [done|].
  simpl str_rfind. destruct (str_rfind c s) as [j|] eqn:Hj.
  - intros [= <-]. destruct (IH j eq_refl) as [Hs Hno].
    change (S j + 1)%nat with (S (j + 1)). rewrite str_drop_cons.
    split; [|done]. simpl String.substring.
    change (String a ?x +:+ ?y) with (String a (x +:+ y)). by rewrite <- Hs.
  - destruct (Ascii.eqb_spec a c) as [->|Hne]; [|done]. intros [= <-].
    change (0 + 1)%nat with 1%nat. rewrite str_drop_cons, str_drop_0.
    split; [done|]. clear IH. induction s as [|b s IH]; [done|].
    simpl in Hj. destruct (str_rfind c s); [done|].
    simpl. destruct (Ascii.eqb b c); [done|]. by apply IH.
Qed.

Lemma str_contains_app c a b :
  str_contains c (a +:+ b) = str_contains c a || str_contains c b.
Proof.
  induction a as [|x a IH]; [done|].
  change (String x a +:+ b) with (String x (a +:+ b)). simpl.
  by rewrite IH, orb_assoc.
Qed.

Lemma str_back_rfind c s :
  s ≠ "" → str_back s = c → str_rfind c s = Some (String.length s - 1)%nat.
Proof.
  induction s as [|a s IH]; [done|]. intros _ Hback.
  destruct s as [|b s].
  - simpl in *. subst a. by rewrite Ascii.eqb_refl.
  - change (str_back (String a (String b s))) with (str_back (String b s)) in Hback.
    change (str_rfind c (String a (String b s)))
      with (match str_rfind c (String b s) with
            | Some i => Some (S i)
            | None => if Ascii.eqb a c then Some 0%nat else None
            end).
    rewrite IH by done. simpl. by rewrite Nat.sub_0_r.
Qed.

(** [Utils::get_extension] compares the position of the last dot with
    [find_last_of('/')], which is [npos] when the path has no slash: for a
    bare file name (of a length a [size_t] holds) the result is empty,
    whatever the name ends in. *)
Theorem get_extension_without_directory path :
  str_contains "/" path = false →
  Z.of_nat (String.length path) < 2 ^ 64 →
  get_extension path = "".
Proof.
  intros Hslash Hlen. unfold get_extension.
  rewrite (str_rfind_absent _ _ Hslash).
  destruct (str_rfind "." path) as [i|] eqn:Hdot; simpl position.
  - apply str_rfind_lt in Hdot.
    destruct (Z.ltb_spec npos (Z.of_nat i)); [unfold npos in *; lia|].
    by rewrite andb_false_r.
  - by rewrite Z.eqb_refl.
Qed.

Lemma get_extension_without_directory_witness :
  get_extension "setup.exe" = "".
Proof. apply get_extension_without_directory; [reflexivity|]. simpl. lia. Defined.

(** For a file name [base.ext] below a directory, [Utils::get_extension]
    returns the last dot of the name and what follows it. *)
Theorem get_extension_of_file_in_directory dir base ext :
  str_contains "/" base = false →
  str_contains "/" ext = false →
  str_contains "." ext = false →
  Z.of_nat (String.length (dir +:+ "/" +:+ base +:+ "." +:+ ext)) < 2 ^ 64 →
  get_extension (dir +:+ "/" +:+ base +:+ "." +:+ ext) = "." +:+ ext.
Proof.
  intros Hbase Hext Hdot Hlen. unfold get_extension.
  assert (Hd : str_rfind "." (dir +:+ "/" +:+ base +:+ "." +:+ ext)
               = Some (String.length (dir +:+ "/" +:+ base))).
  { replace (dir +:+ "/" +:+ base +:+ "." +:+ ext)
      with ((dir +:+ "/" +:+ base) +:+ "." +:+ ext) by (by rewrite !append_assoc).
    rewrite str_rfind_app.
    change ("." +:+ ext) with (String "."%char ext). simpl str_rfind.
    rewrite (str_rfind_absent _ _ Hdot). simpl. by rewrite Nat.add_0_r. }
  assert (Hs : str_rfind "/" (dir +:+ "/" +:+ base +:+ "." +:+ ext)
               = Some (String.length dir)).
  { rewrite str_rfind_app.
    change ("/" +:+ base +:+ "." +:+ ext) with (String "/"%char (base +:+ "." +:+ ext)).
    simpl str_rfind.
    rewrite str_rfind_absent; [simpl; by rewrite Nat.add_0_r|].
    rewrite str_contains_app, Hbase. simpl. exact Hext. }
  rewrite Hd, Hs. simpl position.
  assert (Hlt : (String.length dir < String.length (dir +:+ "/" +:+ base))%nat).
  { rewrite !length_append. simpl. lia. }
  rewrite !length_append in Hlen.
  assert (Hlen' : Z.of_nat (String.length (dir +:+ "/" +:+ base)) < npos).
  { rewrite !length_append. unfold npos. simpl String.length in *. lia. }
  destruct (Z.eqb_spec (Z.of_nat (String.length (dir +:+ "/" +:+ base))) npos); [lia|].
  destruct (Z.ltb_spec (Z.of_nat (String.length dir))
              (Z.of_nat (String.length (dir +:+ "/" +:+ base)))); [|lia].
  simpl negb. simpl andb. rewrite Nat2Z.id.
  replace (dir +:+ "/" +:+ base +:+ "." +:+ ext)
    with ((dir +:+ "/" +:+ base) +:+ "." +:+ ext) by (by rewrite !append_assoc).
  apply str_drop_app.
Qed.

Lemma get_extension_of_file_in_directory_witness :
  get_extension ("/home/u" +:+ "/" +:+ "game.v2" +:+ "." +:+ "exe") = "." +:+ "exe".
Proof.
  apply get_extension_of_file_in_directory; reflexivity.
Defined.

(** A path with a slash is its directory, a slash, and its file name:
    [get_directory] and [get_filename] cut at the same, last, slash. *)
Theorem directory_and_filename_rebuild_path path :
  str_contains "/" path = true →
  get_directory path +:+ "/" +:+ get_filename path = path.
Proof.
  intros [i Hi]%str_rfind_present. unfold get_directory, get_filename.
  rewrite Hi. destruct (str_rfind_split _ _ _ Hi) as [Hs _]. symmetry. exact Hs.
Qed.

Lemma directory_and_filename_rebuild_path_witness :
  get_directory "/a/b/c.txt" +:+ "/" +:+ get_filename "/a/b/c.txt" = "/a/b/c.txt".
Proof. apply directory_and_filename_rebuild_path. reflexivity. Defined.

(** Joining a directory and a simple name, then asking for the file name,
    gives the name back, whether or not the directory ends in a slash and
    also when it is empty. *)
Theorem filename_of_joined_paths path1 path2 :
  path2 ≠ "" →
  str_contains "/" path2 = false →
  get_filename (join_paths path1 path2) = path2.
Proof.
  intros Hne Hno. unfold join_paths.
  destruct (String.eqb_spec path1 "") as [->|Hne1].
  { unfold get_filename. by rewrite (str_rfind_absent _ _ Hno). }
  destruct (String.eqb_spec path2 "") as [->|_]; [done|].
  unfold get_filename.
  destruct (Ascii.eqb_spec (str_back path1) "/") as [Hback|_].
  - rewrite str_rfind_app, (str_rfind_absent _ _ Hno).
    rewrite (str_back_rfind _ _ Hne1 Hback).
    assert (0 < String.length path1)%nat by (destruct path1; [done|simpl; lia]).
    replace (String.length path1 - 1 + 1)%nat with (String.length path1) by lia.
    apply str_drop_app.
  - rewrite str_rfind_app.
    change ("/" +:+ path2) with (String "/"%char path2). simpl str_rfind.
    rewrite (str_rfind_absent _ _ Hno). simpl.
    rewrite Nat.add_0_r.
    replace (String.length path1 + 1)%nat with (String.length (path1 +:+ "/"))
      by (rewrite length_append; simpl; lia).
    change (String "/"%char path2) with ("/" +:+ path2).
    rewrite <- append_assoc. apply str_drop_app.
Qed.

Lemma filename_of_joined_paths_witness :
  get_filename (join_paths "/home/u/.wine/" "system.reg") = "system.reg"
  ∧ get_filename (join_paths "/home/u/.wine" "system.reg") = "system.reg".
Proof.
  split; apply filename_of_joined_paths; (discriminate || reflexivity).
Defined.

(** ** Registry values *)

(** Unescaping an escaped value gives the value back. *)
Theorem unescape_escape_registry_value value :
  unescape_registry_value (escape_registry_value value) = value.
Proof.
  unfold unescape_registry_value. induction value as [|c rest IH]; [done|].
  simpl escape_registry_value.
  destruct (Ascii.eqb_spec c backslash) as [->|Hne]; simpl.
  - by rewrite IH.
  - destruct (Ascii.eqb c double_quote); simpl.
    + by rewrite IH.
    + destruct (Ascii.eqb_spec c backslash); [done|]. by rewrite IH.
Qed.

(** ** Base64 *)

Lemma to_int_mod k z : 0 ≤ k ≤ 32 → to_int z mod 2 ^ k = z mod 2 ^ k.
Proof.
  intros Hk. unfold to_int.
  assert (Hdiv : (2 ^ k | 2 ^ 32)).
  { exists (2 ^ (32 - k)). rewrite <- Z.pow_add_r by lia. f_equal. lia. }
  rewrite <- (Z.mod_mod_divide _ (2 ^ 32) (2 ^ k)) by done.
  rewrite Zminus_mod_idemp_l.
  replace (z + 2 ^ 31 - 2 ^ 31) with z by lia.
  by rewrite Z.mod_mod_divide.
Qed.

Lemma int_shl_mod val n k :
  0 ≤ n → 0 ≤ k → k + n ≤ 32 →
  int_shl val n mod 2 ^ (k + n) = (val mod 2 ^ k) * 2 ^ n.
Proof.
  intros Hn Hk Hkn. unfold int_shl.
  rewrite to_int_mod by lia. rewrite Z.shiftl_mul_pow2 by done.
  rewrite Z.pow_add_r by done. apply Z.mul_mod_distr_r; lia.
Qed.

Lemma int_shl_add_mod val n c k :
  0 ≤ n → 0 ≤ k → k + n ≤ 32 → 0 ≤ c < 2 ^ n →
  int_add (int_shl val n) c mod 2 ^ (k + n) = (val mod 2 ^ k) * 2 ^ n + c.
Proof.
  intros Hn Hk Hkn Hc. unfold int_add.
  rewrite to_int_mod by lia.
  rewrite <- Zplus_mod_idemp_l, int_shl_mod by done.
  apply Z.mod_small.
  pose proof (Z.mod_pos_bound val (2 ^ k) ltac:(lia)).
  rewrite Z.pow_add_r by done. nia.
Qed.

Lemma mod_pow2_mod_pow2 a j k : 0 ≤ j ≤ k → a mod 2 ^ j = (a mod 2 ^ k) mod 2 ^ j.
Proof.
  intros Hjk. symmetry. apply Z.mod_mod_divide.
  exists (2 ^ (k - j)). rewrite <- Z.pow_add_r by lia. f_equal. lia.
Qed.

Lemma land_shiftr_ones v n m :
  0 ≤ n → 0 ≤ m →
  Z.land (Z.shiftr v n) (Z.ones m) = (v mod 2 ^ (n + m)) / 2 ^ n.
Proof.
  intros Hn Hm. rewrite Z.land_ones, Z.shiftr_div_pow2 by done.
  rewrite Z.pow_add_r, Z.rem_mul_r by lia.
  rewrite (Z.mul_comm (2 ^ n)), Z.div_add by lia.
  rewrite (Z.div_small (v mod 2 ^ n)); [done|]. apply Z.mod_pos_bound. lia.
Qed.

Lemma byte_of_range c : 0 ≤ byte_of c < 256.
Proof.
  unfold byte_of. pose proof (N_ascii_bounded c). lia.
Qed.

Lemma char_of_byte_of c : char_of (byte_of c) = c.
Proof. unfold char_of, byte_of. rewrite N2Z.id. apply ascii_N_embedding. Qed.

Lemma decode_entry_sextet s :
  0 ≤ s < 64 → decode_entry (str_at base64_chars s) = s.
Proof.
  intros Hs.
  assert (H : forallb (λ n, decode_entry (str_at base64_chars (Z.of_nat n)) =? Z.of_nat n)
                (seq 0 64) = true) by (vm_compute; reflexivity).
  rewrite forallb_forall in H. specialize (H (Z.to_nat s)).
  rewrite Z2Nat.id in H by lia. apply Z.eqb_eq, H, in_seq. lia.
Qed.

Lemma length_push_back s c : String.length (push_back s c) = S (String.length s).
Proof. unfold push_back. rewrite length_append. simpl. lia. Qed.

Lemma push_back_app a b c : push_back (a +:+ b) c = a +:+ push_back b c.
Proof. unfold push_back. apply append_assoc. Qed.

Lemma append_cons x (a b : string) : String x a +:+ b = String x (a +:+ b).
Proof. done. Qed.

Lemma append_empty_l (a : string) : "" +:+ a = a.
Proof. done. Qed.

Lemma append_empty_r (a : string) : a +:+ "" = a.
Proof.
  induction a as [|x a IH]; [done|].
  change (String x a +:+ "") with (String x (a +:+ "")). by rewrite IH.
Qed.

(** One character through the loop of [encode_base64], by the number of
    bits already waiting. *)
Lemma encode_loop_0 c rest val output :
  encode_loop (String c rest) val (-6) output
  = let val := int_add (int_shl val 8) (byte_of c) in
    encode_loop rest val (-4)
      (push_back output (str_at base64_chars (Z.land (Z.shiftr val 2) 63))).
Proof. reflexivity. Qed.

Lemma encode_loop_2 c rest val output :
  encode_loop (String c rest) val (-4) output
  = let val := int_add (int_shl val 8) (byte_of c) in
    encode_loop rest val (-2)
      (push_back output (str_at base64_chars (Z.land (Z.shiftr val 4) 63))).
Proof. reflexivity. Qed.

Lemma encode_loop_4 c rest val output :
  encode_loop (String c rest) val (-2) output
  = let val := int_add (int_shl val 8) (byte_of c) in
    encode_loop rest val (-6)
      (push_back
         (push_back output (str_at base64_chars (Z.land (Z.shiftr val 6) 63)))
         (str_at base64_chars (Z.land (Z.shiftr val 0) 63))).
Proof. reflexivity. Qed.

(** One character of the alphabet through the loop of [decode_base64]. *)
Lemma decode_loop_sextet s rest val valb output :
  0 ≤ s < 64 →
  decode_loop (String (str_at base64_chars s) rest) val valb output
  = let val := int_add (int_shl val 6) s in
    if 0 <=? valb + 6 then
      decode_loop rest val (valb + 6 - 8)
        (push_back output (char_of (Z.land (Z.shiftr val (valb + 6)) 255)))
    else decode_loop rest val (valb + 6) output.
Proof.
  intros Hs. simpl decode_loop. rewrite decode_entry_sextet by done.
  destruct (Z.eqb_spec s 64); [lia|]. done.
Qed.

Lemma sextet_range v n : 0 ≤ Z.land (Z.shiftr v n) 63 < 64.
Proof.
  change 63 with (Z.ones 6). rewrite Z.land_ones by lia.
  apply Z.mod_pos_bound. lia.
Qed.

(** The bits the loops look at. *)
Lemma encode_bits val c k n :
  0 ≤ k → 0 ≤ n → k + 8 ≤ 32 → n + 6 = k + 8 →
  Z.land (Z.shiftr (int_add (int_shl val 8) (byte_of c)) n) 63
  = ((val mod 2 ^ k) * 256 + byte_of c) / 2 ^ n.
Proof.
  intros Hk Hn Hk8 Hnk. change 63 with (Z.ones 6).
  rewrite land_shiftr_ones by lia. rewrite Hnk.
  rewrite int_shl_add_mod by (lia || apply byte_of_range). done.
Qed.

Lemma encode_low val c j :
  0 ≤ j ≤ 8 →
  int_add (int_shl val 8) (byte_of c) mod 2 ^ j = byte_of c mod 2 ^ j.
Proof.
  intros Hj. rewrite (mod_pow2_mod_pow2 _ j 8) by lia.
  change 8 with (0 + 8) at 2.
  rewrite int_shl_add_mod by (lia || apply byte_of_range).
  rewrite Z.pow_0_r, Z.mod_1_r. done.
Qed.

Lemma decode_bits val s k n :
  0 ≤ k → 0 ≤ n → k + 6 ≤ 32 → n + 8 = k + 6 → 0 ≤ s < 64 →
  Z.land (Z.shiftr (int_add (int_shl val 6) s) n) 255
  = ((val mod 2 ^ k) * 64 + s) / 2 ^ n.
Proof.
  intros Hk Hn Hk6 Hnk Hs. change 255 with (Z.ones 8).
  rewrite land_shiftr_ones by lia. rewrite Hnk.
  rewrite int_shl_add_mod by lia. done.
Qed.

Lemma decode_low val s j :
  0 ≤ j ≤ 6 → 0 ≤ s < 64 →
  int_add (int_shl val 6) s mod 2 ^ j = s mod 2 ^ j.
Proof.
  intros Hj Hs. rewrite (mod_pow2_mod_pow2 _ j 6) by lia.
  change 6 with (0 + 6) at 2.
  rewrite int_shl_add_mod by lia.
  rewrite Z.pow_0_r, Z.mod_1_r. done.
Qed.

Lemma final_bits val n k :
  0 ≤ k → 0 ≤ n → k + 8 ≤ 32 → n + 6 = k + 8 →
  Z.land (Z.shiftr (int_shl val 8) n) 63 = ((val mod 2 ^ k) * 256) / 2 ^ n.
Proof.
  intros Hk Hn Hk8 Hnk. change 63 with (Z.ones 6).
  rewrite land_shiftr_ones by lia. rewrite Hnk.
  by rewrite int_shl_mod by lia.
Qed.

Lemma string_ind3 (P : string → Prop) :
  P "" →
  (∀ a, P (String a "")) →
  (∀ a b, P (String a (String b ""))) →
  (∀ a b c s, P s → P (String a (String b (String c s)))) →
  ∀ s, P s.
Proof.
  intros H0 H1 H2 H3. fix IH 1.
  intros [|a [|b [|c s]]];
    [exact H0|exact (H1 a)|exact (H2 a b)|exact (H3 a b c s (IH s))].
Qed.

Lemma mod4_succ n r : (n mod 4 = r)%nat → (S n mod 4 = S r mod 4)%nat.
Proof.
  intros <-. replace (S n) with (n + 1)%nat by lia.
  replace (S (n mod 4)) with (n mod 4 + 1)%nat by lia.
  by rewrite (Nat.Div0.add_mod n 1 4).
Qed.

(** [encode_pad] fills up to the next multiple of four. *)
Lemma encode_pad_S fuel output :
  encode_pad (S fuel) output
  = if (String.length output mod 4 =? 0)%nat then output
    else encode_pad fuel (push_back output "=").
Proof. reflexivity. Qed.

Lemma encode_pad_0 output :
  (String.length output mod 4 = 0)%nat → encode_pad 3 output = output.
Proof. intros H. by rewrite encode_pad_S, H. Qed.

Lemma encode_pad_3 output :
  (String.length output mod 4 = 3)%nat → encode_pad 3 output = output +:+ "=".
Proof.
  intros H. rewrite encode_pad_S, H. change (3 =? 0)%nat with false. cbv iota.
  rewrite encode_pad_S, length_push_back.
  rewrite (mod4_succ _ _ H). done.
Qed.

Lemma encode_pad_2 output :
  (String.length output mod 4 = 2)%nat → encode_pad 3 output = output +:+ "==".
Proof.
  intros H. rewrite encode_pad_S, H. change (2 =? 0)%nat with false. cbv iota.
  rewrite encode_pad_S, length_push_back.
  rewrite (mod4_succ _ _ H). change (3 mod 4 =? 0)%nat with false. cbv iota.
  rewrite encode_pad_S, !length_push_back.
  rewrite (mod4_succ _ _ (mod4_succ _ _ H)).
  change (4 mod 4 =? 0)%nat with true. cbv iota.
  unfold push_back. by rewrite append_assoc.
Qed.

Ltac byte_arith :=
  repeat match goal with
         | |- context [byte_of ?c] =>
             lazymatch goal with
             | _ : 0 ≤ byte_of c < 256 |- _ => fail
             | _ => pose proof (byte_of_range c)
             end
         end;
  Z.div_mod_to_equations; lia.

Lemma encode_sextet_1 val c :
  Z.land (Z.shiftr (int_add (int_shl val 8) (byte_of c)) 2) 63 = byte_of c / 4.
Proof.
  rewrite (encode_bits val c 0 2) by lia.
  rewrite Z.pow_0_r, Z.mod_1_r. done.
Qed.

Lemma encode_sextet_2 val c1 c2 :
  Z.land (Z.shiftr (int_add (int_shl (int_add (int_shl val 8) (byte_of c1)) 8)
                      (byte_of c2)) 4) 63
  = (byte_of c1 mod 4 * 256 + byte_of c2) / 16.
Proof.
  rewrite (encode_bits _ c2 2 4) by lia. by rewrite (encode_low val c1 2) by lia.
Qed.

Lemma encode_sextet_3 val c2 c3 :
  Z.land (Z.shiftr (int_add (int_shl (int_add (int_shl val 8) (byte_of c2)) 8)
                      (byte_of c3)) 6) 63
  = (byte_of c2 mod 16 * 256 + byte_of c3) / 64.
Proof.
  rewrite (encode_bits _ c3 4 6) by lia. by rewrite (encode_low val c2 4) by lia.
Qed.

Lemma encode_sextet_4 val c :
  Z.land (Z.shiftr (int_add (int_shl val 8) (byte_of c)) 0) 63 = byte_of c mod 64.
Proof.
  change 63 with (Z.ones 6). rewrite Z.shiftr_0_r, Z.land_ones by lia.
  apply (encode_low val c 6). lia.
Qed.

Lemma final_sextet_1 val c :
  Z.land (Z.shiftr (int_shl (int_add (int_shl val 8) (byte_of c)) 8) (-4 + 8)) 63
  = (byte_of c mod 4 * 256) / 16.
Proof.
  change (-4 + 8) with 4.
  rewrite (final_bits _ 4 2) by lia. by rewrite (encode_low val c 2) by lia.
Qed.

Lemma final_sextet_2 val c :
  Z.land (Z.shiftr (int_shl (int_add (int_shl val 8) (byte_of c)) 8) (-2 + 8)) 63
  = (byte_of c mod 16 * 256) / 64.
Proof.
  change (-2 + 8) with 6.
  rewrite (final_bits _ 6 4) by lia. by rewrite (encode_low val c 4) by lia.
Qed.

Lemma decode_byte_1 val s1 s2 :
  0 ≤ s1 < 64 → 0 ≤ s2 < 64 →
  Z.land (Z.shiftr (int_add (int_shl (int_add (int_shl val 6) s1) 6) s2) 4) 255
  = (s1 * 64 + s2) / 16.
Proof.
  intros H1 H2. rewrite (decode_bits _ s2 6 4) by lia.
  rewrite (decode_low val s1 6) by lia. by rewrite (Z.mod_small s1) by lia.
Qed.

Lemma decode_byte_2 val s2 s3 :
  0 ≤ s2 < 64 → 0 ≤ s3 < 64 →
  Z.land (Z.shiftr (int_add (int_shl (int_add (int_shl val 6) s2) 6) s3) 2) 255
  = (s2 mod 16 * 64 + s3) / 4.
Proof.
  intros H2 H3. rewrite (decode_bits _ s3 4 2) by lia.
  by rewrite (decode_low val s2 4) by lia.
Qed.

Lemma decode_byte_3 val s3 s4 :
  0 ≤ s3 < 64 → 0 ≤ s4 < 64 →
  Z.land (Z.shiftr (int_add (int_shl (int_add (int_shl val 6) s3) 6) s4) 0) 255
  = s3 mod 4 * 64 + s4.
Proof.
  intros H3 H4. rewrite (decode_bits _ s4 2 0) by lia.
  rewrite (decode_low val s3 2) by lia. change (2 ^ 0) with 1.
  by rewrite Z.div_1_r.
Qed.

Lemma decode_loop_8 s rest val output :
  0 ≤ s < 64 →
  decode_loop (String (str_at base64_chars s) rest) val (-8) output
  = decode_loop rest (int_add (int_shl val 6) s) (-2) output.
Proof. intros Hs. by rewrite decode_loop_sextet. Qed.

Lemma decode_loop_2 s rest val output :
  0 ≤ s < 64 →
  decode_loop (String (str_at base64_chars s) rest) val (-2) output
  = let val := int_add (int_shl val 6) s in
    decode_loop rest val (-4)
      (push_back output (char_of (Z.land (Z.shiftr val 4) 255))).
Proof. intros Hs. by rewrite decode_loop_sextet. Qed.

Lemma decode_loop_4 s rest val output :
  0 ≤ s < 64 →
  decode_loop (String (str_at base64_chars s) rest) val (-4) output
  = let val := int_add (int_shl val 6) s in
    decode_loop rest val (-6)
      (push_back output (char_of (Z.land (Z.shiftr val 2) 255))).
Proof. intros Hs. by rewrite decode_loop_sextet. Qed.

Lemma decode_loop_6 s rest val output :
  0 ≤ s < 64 →
  decode_loop (String (str_at base64_chars s) rest) val (-6) output
  = let val := int_add (int_shl val 6) s in
    decode_loop rest val (-8)
      (push_back output (char_of (Z.land (Z.shiftr val 0) 255))).
Proof. intros Hs. by rewrite decode_loop_sextet. Qed.

(** Three characters in, four out. *)
Lemma encode_loop_block ca cb cc rest val output :
  ∃ val',
    encode_loop (String ca (String cb (String cc rest))) val (-6) output
    = encode_loop rest val' (-6)
        (output +:+
           String (str_at base64_chars (byte_of ca / 4))
             (String (str_at base64_chars ((byte_of ca mod 4 * 256 + byte_of cb) / 16))
                (String (str_at base64_chars
                           ((byte_of cb mod 16 * 256 + byte_of cc) / 64))
                   (String (str_at base64_chars (byte_of cc mod 64)) "")))).
Proof.
  eexists. rewrite encode_loop_0. cbv zeta. rewrite encode_loop_2. cbv zeta.
  rewrite encode_loop_4. cbv zeta.
  rewrite encode_sextet_1, encode_sextet_2, encode_sextet_3, encode_sextet_4.
  unfold push_back. rewrite !append_assoc. reflexivity.
Qed.

(** Four characters of the alphabet in, three bytes out. *)
Lemma decode_loop_block s1 s2 s3 s4 rest val output :
  0 ≤ s1 < 64 → 0 ≤ s2 < 64 → 0 ≤ s3 < 64 → 0 ≤ s4 < 64 →
  ∃ val',
    decode_loop (String (str_at base64_chars s1)
                   (String (str_at base64_chars s2)
                      (String (str_at base64_chars s3)
                         (String (str_at base64_chars s4) rest)))) val (-8) output
    = decode_loop rest val' (-8)
        (output +:+
           String (char_of ((s1 * 64 + s2) / 16))
             (String (char_of ((s2 mod 16 * 64 + s3) / 4))
                (String (char_of (s3 mod 4 * 64 + s4)) ""))).
Proof.
  intros H1 H2 H3 H4. eexists.
  rewrite decode_loop_8, decode_loop_2 by done. cbv zeta.
  rewrite decode_loop_4 by done. cbv zeta. rewrite decode_loop_6 by done. cbv zeta.
  rewrite decode_byte_1, decode_byte_2, decode_byte_3 by done.
  unfold push_back. rewrite !append_assoc. reflexivity.
Qed.

Lemma length_block (n : nat) : ((n + 3 + 2) / 3 = (n + 2) / 3 + 1)%nat.
Proof.
  replace (n + 3 + 2)%nat with (n + 2 + 1 * 3)%nat by lia.
  by rewrite Nat.div_add.
Qed.

(** What the encoder appends for an input, and what the decoder makes of
    it. *)
Lemma encode_decode_from input :
  ∀ val output,
    (String.length output mod 4 = 0)%nat →
    ∃ e,
      encode_finish (encode_loop input val (-6) output) = output +:+ e
      ∧ String.length e = (4 * ((String.length input + 2) / 3))%nat
      ∧ ∀ dval doutput, decode_loop e dval (-8) doutput = doutput +:+ input.
Proof.
  induction input as [|ca|ca cb|ca cb cc rest IH] using string_ind3;
    intros val output Hlen.
  - exists "". simpl encode_loop. unfold encode_finish.
    change (-6 <? -6) with false. cbv iota.
    rewrite encode_pad_0, append_empty_r by done.
    split; [done|]. split; [done|]. intros. by rewrite append_empty_r.
  - rewrite encode_loop_0. cbv zeta. simpl encode_loop. unfold encode_finish.
    change (-6 <? -4) with true. cbv iota.
    rewrite encode_sextet_1, final_sextet_1.
    rewrite encode_pad_2
      by (rewrite !length_push_back; by rewrite (mod4_succ _ _ (mod4_succ _ _ Hlen))).
    unfold push_back. rewrite !append_assoc.
    eexists. split; [reflexivity|]. split; [done|]. intros dval doutput.
    rewrite !append_cons, !append_empty_l.
    assert (0 ≤ byte_of ca / 4 < 64) by byte_arith.
    assert (0 ≤ byte_of ca mod 4 * 256 / 16 < 64) by byte_arith.
    rewrite decode_loop_8, decode_loop_2 by done. cbv zeta.
    rewrite decode_byte_1 by done.
    replace ((byte_of ca / 4 * 64 + byte_of ca mod 4 * 256 / 16) / 16)
      with (byte_of ca) by byte_arith.
    by rewrite char_of_byte_of.
  - rewrite encode_loop_0. cbv zeta. rewrite encode_loop_2. cbv zeta.
    simpl encode_loop. unfold encode_finish.
    change (-6 <? -2) with true. cbv iota.
    rewrite encode_sextet_1, encode_sextet_2, final_sextet_2.
    rewrite encode_pad_3
      by (rewrite !length_push_back;
          by rewrite (mod4_succ _ _ (mod4_succ _ _ (mod4_succ _ _ Hlen)))).
    unfold push_back. rewrite !append_assoc.
    eexists. split; [reflexivity|]. split; [done|]. intros dval doutput.
    rewrite !append_cons, !append_empty_l.
    assert (0 ≤ byte_of ca / 4 < 64) by byte_arith.
    assert (0 ≤ (byte_of ca mod 4 * 256 + byte_of cb) / 16 < 64) by byte_arith.
    assert (0 ≤ byte_of cb mod 16 * 256 / 64 < 64) by byte_arith.
    rewrite decode_loop_8, decode_loop_2 by done. cbv zeta.
    rewrite decode_loop_4 by done. cbv zeta.
    rewrite decode_byte_1, decode_byte_2 by done.
    replace ((byte_of ca / 4 * 64 + (byte_of ca mod 4 * 256 + byte_of cb) / 16) / 16)
      with (byte_of ca) by byte_arith.
    replace (((byte_of ca mod 4 * 256 + byte_of cb) / 16 mod 16 * 64
              + byte_of cb mod 16 * 256 / 64) / 4)
      with (byte_of cb) by byte_arith.
    rewrite !char_of_byte_of. unfold push_back. by rewrite append_assoc.
  - destruct (encode_loop_block ca cb cc rest val output) as [val' ->].
    match goal with
    | |- context [encode_loop rest val' (-6) ?o] =>
        destruct (IH val' o) as (e & He & Hle & Hde)
    end.
    { rewrite length_append. simpl String.length.
      replace (String.length output + 4)%nat
        with (String.length output + 1 * 4)%nat by lia.
      by rewrite Nat.Div0.mod_add. }
    rewrite He, append_assoc. eexists. split; [reflexivity|]. split.
    + rewrite !append_cons, !append_empty_l.
      simpl String.length. rewrite Hle.
      replace (S (S (S (String.length rest))) + 2)%nat
        with (String.length rest + 3 + 2)%nat by lia.
      rewrite length_block. lia.
    + intros dval doutput.
      rewrite !append_cons, !append_empty_l.
      assert (Hs1 : 0 ≤ byte_of ca / 4 < 64) by byte_arith.
      assert (Hs2 : 0 ≤ (byte_of ca mod 4 * 256 + byte_of cb) / 16 < 64)
        by byte_arith.
      assert (Hs3 : 0 ≤ (byte_of cb mod 16 * 256 + byte_of cc) / 64 < 64)
        by byte_arith.
      assert (Hs4 : 0 ≤ byte_of cc mod 64 < 64) by byte_arith.
      destruct (decode_loop_block _ _ _ _ e dval doutput Hs1 Hs2 Hs3 Hs4)
        as [dval' ->].
      rewrite Hde.
      replace ((byte_of ca / 4 * 64 + (byte_of ca mod 4 * 256 + byte_of cb) / 16) / 16)
        with (byte_of ca) by byte_arith.
      replace (((byte_of ca mod 4 * 256 + byte_of cb) / 16 mod 16 * 64
                + (byte_of cb mod 16 * 256 + byte_of cc) / 64) / 4)
        with (byte_of cb) by byte_arith.
      replace ((byte_of cb mod 16 * 256 + byte_of cc) / 64 mod 4 * 64
               + byte_of cc mod 64)
        with (byte_of cc) by byte_arith.
      rewrite !char_of_byte_of. by rewrite append_assoc.
Qed.

Lemma encode_base64_finish input :
  encode_base64 input = encode_finish (encode_loop input 0 (-6) "").
Proof.
  unfold encode_base64, encode_finish.
  by destruct (encode_loop input 0 (-6) "") as [[val valb] output].
Qed.

(** Decoding what [encode_base64] produced gives the input back, for
    every input: the high bits that [val] accumulates and loses over a long
    input are never looked at. *)
Theorem decode_encode_base64 input :
  decode_base64 (encode_base64 input) = input.
Proof.
  rewrite encode_base64_finish.
  destruct (encode_decode_from input 0 "" eq_refl) as (e & -> & _ & Hde).
  unfold decode_base64. change ("" +:+ e) with e. apply Hde.
Qed.

(** [encode_base64] writes four characters for every three bytes of
    input, an incomplete last group padded with [=]. *)
Theorem encode_base64_length input :
  String.length (encode_base64 input) = (4 * ((String.length input + 2) / 3))%nat.
Proof.
  rewrite encode_base64_finish.
  by destruct (encode_decode_from input 0 "" eq_refl) as (e & -> & Hle & _).
Qed.

Lemma decode_loop_app a c b :
  decode_entry c = 64 →
  ∀ val valb output,
    decode_loop (a +:+ String c b) val valb output = decode_loop a val valb output.
Proof.
  intros Hc. induction a as [|x a IH]; intros val valb output.
  - change ("" +:+ String c b) with (String c b). simpl. by rewrite Hc.
  - change (String x a +:+ String c b) with (String x (a +:+ String c b)).
    simpl. destruct (decode_entry x =? 64); [done|].
    destruct (0 <=? valb + 6); apply IH.
Qed.

(** [decode_base64] has no error result: at the first character outside
    the alphabet (the padding [=] included) it stops and returns what it
    has decoded, and nothing after that character is looked at. *)
Theorem decode_base64_stops_at_foreign_character a c b :
  decode_entry c = 64 →
  decode_base64 (a +:+ String c b) = decode_base64 a.
Proof. intros Hc. unfold decode_base64. by apply decode_loop_app. Qed.

Lemma decode_base64_stops_at_foreign_character_witness :
  decode_base64 ("TWFu" +:+ String "="%char "TWFu") = decode_base64 "TWFu".
Proof. apply decode_base64_stops_at_foreign_character. reflexivity. Defined.

(** ** The configuration parser *)

Lemma fmap_S_add (n : nat) (o : option nat) :
  S <$> ((λ i, (n + i)%nat) <$> o) = (λ i, (S n + i)%nat) <$> o.
Proof. by destruct o. Qed.

Lemma find_first_not_of_cons set c s :
  find_first_not_of set (String c s)
  = if str_contains c set then S <$> find_first_not_of set s else Some 0%nat.
Proof. done. Qed.

Lemma find_first_not_of_app set a b :
  find_first_not_of set a = None →
  find_first_not_of set (a +:+ b)
  = (λ i, (String.length a + i)%nat) <$> find_first_not_of set b.
Proof.
  induction a as [|x a IH].
  - intros _. rewrite append_empty_l. by destruct (find_first_not_of set b).
  - rewrite append_cons. simpl. destruct (str_contains x set); [|done].
    destruct (find_first_not_of set a) eqn:Ha; [done|]. intros _.
    rewrite IH by done. apply fmap_S_add.
Qed.

Lemma find_last_not_of_app set a b :
  find_last_not_of set (a +:+ b)
  = match find_last_not_of set b with
    | Some i => Some (String.length a + i)%nat
    | None => find_last_not_of set a
    end.
Proof.
  induction a as [|x a IH].
  - rewrite append_empty_l. by destruct (find_last_not_of set b).
  - rewrite append_cons. simpl. rewrite IH.
    by destruct (find_last_not_of set b).
Qed.

Lemma find_last_none set s :
  find_last_not_of set s = None ↔ find_first_not_of set s = None.
Proof.
  induction s as [|x s IH]; simpl; [done|].
  destruct (find_last_not_of set s), (find_first_not_of set s),
    (str_contains x set); simpl; try done; destruct IH; split; intros; try done;
    match goal with H : None = None → _ |- _ => by specialize (H eq_refl) end.
Qed.

Lemma find_last_not_of_back set s :
  s ≠ "" → str_contains (str_back s) set = false →
  find_last_not_of set s = Some (String.length s - 1)%nat.
Proof.
  induction s as [|a s IH]; [done|]. intros _ Hback. destruct s as [|b s].
  - simpl in *. by rewrite Hback.
  - change (str_back (String a (String b s))) with (str_back (String b s)) in Hback.
    change (find_last_not_of set (String a (String b s)))
      with (match find_last_not_of set (String b s) with
            | Some i => Some (S i)
            | None => if str_contains a set then None else Some 0%nat
            end).
    rewrite IH by done. simpl. by rewrite Nat.sub_0_r.
Qed.

Lemma substring_app_prefix a b : String.substring 0 (String.length a) (a +:+ b) = a.
Proof.
  induction a as [|x a IH].
  - by destruct b.
  - rewrite append_cons. simpl. by rewrite IH.
Qed.

Lemma substring_cons n x s :
  String.substring 0 (S n) (String x s) = String x (String.substring 0 n s).
Proof. done. Qed.

Lemma str_back_push s c : str_back (s +:+ String c "") = c.
Proof.
  induction s as [|x s IH]; [done|]. rewrite append_cons.
  destruct s as [|y s]; [done|]. rewrite append_cons in *.
  change (str_back (String x (String y ?r))) with (str_back (String y r)).
  exact IH.
Qed.

Lemma find_first_not_of_split set s n :
  find_first_not_of set s = Some n →
  s = String.substring 0 n s +:+ str_drop n s
  ∧ find_first_not_of set (String.substring 0 n s) = None
  ∧ ∃ c r, str_drop n s = String c r ∧ str_contains c set = false.
Proof.
  revert n. induction s as [|x s IH]; intros n; [done|]. simpl find_first_not_of.
  destruct (str_contains x set) eqn:Hx.
  - destruct (find_first_not_of set s) as [m|] eqn:Hm; [|done]. intros [= <-].
    destruct (IH m eq_refl) as (Hs & Hnone & c & r & Hdrop & Hc).
    rewrite str_drop_cons, substring_cons, append_cons.
    split; [by rewrite <- Hs|]. split; [|by eauto].
    simpl. by rewrite Hx, Hnone.
  - intros [= <-]. rewrite str_drop_0. split; [done|]. split; [done|]. eauto.
Qed.

Lemma find_last_not_of_split set s n :
  find_last_not_of set s = Some n →
  ∃ t c,
    String.substring 0 (n + 1) s = t +:+ String c ""
    ∧ s = (t +:+ String c "") +:+ str_drop (n + 1) s
    ∧ str_contains c set = false
    ∧ find_last_not_of set (str_drop (n + 1) s) = None.
Proof.
  revert n. induction s as [|x s IH]; intros n; [done|]. simpl find_last_not_of.
  destruct (find_last_not_of set s) as [m|] eqn:Hm.
  - intros [= <-]. destruct (IH m eq_refl) as (t & c & Hsub & Hs & Hc & Hnone).
    exists (String x t), c. change (S m + 1)%nat with (S (m + 1)).
    rewrite substring_cons, str_drop_cons, Hsub, !append_cons.
    by rewrite <- Hs.
  - destruct (str_contains x set) eqn:Hx; [done|]. intros [= <-].
    exists "", x. change (0 + 1)%nat with 1%nat.
    rewrite str_drop_cons, str_drop_0. by destruct s.
Qed.

Lemma tight_push_front x t c :
  str_contains x Parser.whitespace = false →
  str_contains c Parser.whitespace = false →
  tight (String x t +:+ String c "") = true.
Proof.
  intros Hx Hc. rewrite append_cons. unfold tight.
  change (str_front (String x ?r)) with x. rewrite Hx.
  rewrite <- append_cons, str_back_push, Hc. done.
Qed.

Lemma all_whitespace_spec s :
  all_whitespace s = true ↔ find_first_not_of Parser.whitespace s = None.
Proof. unfold all_whitespace. apply bool_decide_eq_true. Qed.

Lemma trim_padded a t b :
  all_whitespace a = true → all_whitespace b = true → tight t = true →
  Parser.trim (a +:+ t +:+ b) = t.
Proof.
  intros Ha%all_whitespace_spec Hb%all_whitespace_spec Ht. unfold Parser.trim.
  rewrite find_first_not_of_app by done. destruct t as [|c t].
  - rewrite append_empty_l, Hb. done.
  - revert Ht. unfold tight. change (str_front (String c t)) with c.
    intros [Hfront Hback]%andb_true_iff.
    apply negb_true_iff in Hfront. apply negb_true_iff in Hback.
    rewrite append_cons, find_first_not_of_cons, Hfront.
    change ((λ i, (String.length a + i)%nat) <$> Some 0%nat)
      with (Some (String.length a + 0)%nat).
    rewrite Nat.add_0_r, <- append_cons, str_drop_app.
    rewrite find_last_not_of_app.
    apply find_last_none in Hb. rewrite Hb.
    rewrite find_last_not_of_back by done.
    replace (String.length (String c t) - 1 + 1)%nat
      with (String.length (String c t)) by (simpl; lia).
    apply substring_app_prefix.
Qed.

(** [trim] takes the whitespace off both ends and nothing else: given a
    string with no whitespace at either end, wrapped in whitespace, it
    returns that string. *)
Theorem trim_removes_outer_whitespace a t b :
  all_whitespace a = true → all_whitespace b = true → tight t = true →
  Parser.trim (a +:+ t +:+ b) = t.
Proof. apply trim_padded. Qed.

Lemma trim_removes_outer_whitespace_witness :
  Parser.trim (String " " (String tab "") +:+ "wine prefix" +:+ String newline "")
  = "wine prefix".
Proof. apply trim_removes_outer_whitespace; reflexivity. Defined.

(** Every string is what [trim] returns for it, with whitespace before
    and after; and what [trim] returns has no whitespace at either end. *)
Theorem trim_splits_off_whitespace s :
  ∃ a b,
    s = a +:+ Parser.trim s +:+ b
    ∧ all_whitespace a = true ∧ all_whitespace b = true
    ∧ tight (Parser.trim s) = true.
Proof.
  unfold Parser.trim.
  destruct (find_first_not_of Parser.whitespace s) as [n|] eqn:Hfirst.
  - destruct (find_first_not_of_split _ _ _ Hfirst) as (Hs & Ha & c & r & Hdrop & Hc).
    rewrite Hdrop in *.
    destruct (find_last_not_of Parser.whitespace (String c r)) as [m|] eqn:Hlast.
    + destruct (find_last_not_of_split _ _ _ Hlast) as (t & c' & Hsub & Hr & Hc' & Hb).
      exists (String.substring 0 n s), (str_drop (m + 1) (String c r)).
      rewrite Hsub. split; [by rewrite <- Hr|].
      split; [by apply all_whitespace_spec|].
      split; [by apply all_whitespace_spec, find_last_none|].
      destruct t as [|x t].
      * rewrite append_empty_l. unfold tight.
        change (str_front (String c' "")) with c'.
        change (str_back (String c' "")) with c'. by rewrite Hc'.
      * apply tight_push_front; [|done].
        rewrite Hr in Hdrop. rewrite !append_cons in Hr. by injection Hr as <- _.
    + apply find_last_none in Hlast. rewrite find_first_not_of_cons, Hc in Hlast.
      done.
  - exists s, "". simpl. rewrite append_empty_r.
    split; [done|]. split; [by apply all_whitespace_spec|]. done.
Qed.

Lemma whitespace_no_equals a :
  all_whitespace a = true → str_contains "=" a = false.
Proof.
  intros Ha%all_whitespace_spec. induction a as [|x a IH]; [done|].
  rewrite find_first_not_of_cons in Ha.
  destruct (str_contains x Parser.whitespace) eqn:Hx; [|done].
  destruct (find_first_not_of Parser.whitespace a); [done|].
  change (str_contains "=" (String x a)) with (Ascii.eqb x "=" || str_contains "=" a).
  rewrite IH by done. rewrite orb_false_r. apply Ascii.eqb_neq. intros ->. done.
Qed.

Lemma str_find_app_absent c a b :
  str_contains c a = false →
  str_find c (a +:+ String c b) = Some (String.length a).
Proof.
  induction a as [|x a IH].
  - intros _. rewrite append_empty_l. simpl. by rewrite Ascii.eqb_refl.
  - rewrite append_cons. simpl. intros [Hx Ha]%orb_false_elim.
    rewrite Hx, IH by done. done.
Qed.

Lemma str_front_app a b : a ≠ "" → str_front (a +:+ b) = str_front a.
Proof. by destruct a. Qed.

Lemma parse_line_padded a k b c v d data :
  let line := (a +:+ k +:+ b) +:+ String "=" (c +:+ v +:+ d) in
  all_whitespace a = true → all_whitespace b = true →
  all_whitespace c = true → all_whitespace d = true →
  tight k = true → str_contains "=" k = false → tight v = true →
  Ascii.eqb (str_front line) "#" = false →
  Ascii.eqb (str_front line) ";" = false →
  Parser.parse_line line data = (true, <[k := v]> data).
Proof.
  intros line Ha Hb Hc Hd Hk Hke Hv Hhash Hsemi. unfold Parser.parse_line.
  rewrite Hhash, Hsemi.
  assert (Hne : String.eqb line "" = false).
  { apply String.eqb_neq. unfold line. intros Hl.
    apply (f_equal String.length) in Hl. rewrite length_append in Hl.
    simpl in Hl. lia. }
  rewrite Hne. simpl orb. cbv iota.
  unfold line. rewrite str_find_app_absent.
  2:{ rewrite !str_contains_app, Hke, !whitespace_no_equals by done. done. }
  rewrite substring_app_prefix.
  replace (String.length (a +:+ k +:+ b) + 1)%nat
    with (String.length ((a +:+ k +:+ b) +:+ "=")).
  2:{ rewrite !length_append. simpl. lia. }
  change (String "="%char (c +:+ v +:+ d)) with ("=" +:+ c +:+ v +:+ d).
  rewrite <- (append_assoc (a +:+ k +:+ b) "="), str_drop_app.
  by rewrite !trim_padded.
Qed.

(** [parse_line] splits an assignment at its first [=] and trims both
    sides: whitespace around the key and around the value is dropped, and
    the value may itself contain [=]. The line must not start with [#] or
    [;]. *)
Theorem parse_line_assignment a k b c v d data :
  let line := (a +:+ k +:+ b) +:+ String "=" (c +:+ v +:+ d) in
  all_whitespace a = true → all_whitespace b = true →
  all_whitespace c = true → all_whitespace d = true →
  tight k = true → str_contains "=" k = false → tight v = true →
  Ascii.eqb (str_front line) "#" = false →
  Ascii.eqb (str_front line) ";" = false →
  Parser.parse_line line data = (true, <[k := v]> data).
Proof. apply parse_line_padded. Qed.

Lemma parse_line_assignment_witness :
  Parser.parse_line
    ((" " +:+ "wine_binary" +:+ " ") +:+ String "=" (" " +:+ "wine -x=1" +:+ "  ")) ∅
  = (true, <["wine_binary" := "wine -x=1"]> ∅).
Proof. apply parse_line_assignment; reflexivity. Defined.

(** ** Saving and loading *)

Lemma getlines_line delimiter s :
  str_contains delimiter s = false →
  ∀ token rest,
    getlines delimiter token (s +:+ String delimiter rest)
    = (token +:+ s) :: getlines delimiter "" rest.
Proof.
  induction s as [|c s IH]; intros Hs token rest.
  - rewrite append_empty_l, append_empty_r. simpl. by rewrite Ascii.eqb_refl.
  - rewrite append_cons. simpl in *. apply orb_false_elim in Hs as [Hc Hs].
    rewrite Hc, IH by done. by rewrite append_assoc.
Qed.

Lemma getlines_write_pairs l :
  Forall (λ kv, str_contains newline kv.1 = false
                ∧ str_contains newline kv.2 = false) l →
  getlines newline "" (Parser.write_pairs l) = map (λ kv, kv.1 +:+ "=" +:+ kv.2) l.
Proof.
  induction 1 as [|[k v] l [Hk Hv] _ IH]; [done|]. simpl in Hk, Hv.
  change (Parser.write_pairs ((k, v) :: l))
    with (k +:+ "=" +:+ v +:+ String newline "" +:+ Parser.write_pairs l).
  replace (k +:+ "=" +:+ v +:+ String newline "" +:+ Parser.write_pairs l)
    with ((k +:+ "=" +:+ v) +:+ String newline (Parser.write_pairs l))
    by (by rewrite !append_assoc).
  rewrite getlines_line, IH; [done|].
  rewrite !str_contains_app, Hk, Hv. done.
Qed.

Lemma storable_key_spec k :
  storable_key k = true →
  tight k = true ∧ str_contains "=" k = false ∧ str_contains newline k = false
  ∧ Ascii.eqb (str_front k) "#" = false ∧ Ascii.eqb (str_front k) ";" = false.
Proof.
  unfold storable_key. rewrite !andb_true_iff, !negb_true_iff.
  by intros [[[[? ?] ?] ?] ?].
Qed.

Lemma storable_value_spec v :
  storable_value v = true → tight v = true ∧ str_contains newline v = false.
Proof. unfold storable_value. by rewrite !andb_true_iff, !negb_true_iff. Qed.

Lemma parse_line_stored k v data :
  storable_key k = true → storable_value v = true →
  Parser.parse_line (k +:+ "=" +:+ v) data = (true, <[k := v]> data).
Proof.
  intros (Hk & Heq & _ & Hhash & Hsemi)%storable_key_spec [Hv _]%storable_value_spec.
  pose proof (parse_line_padded "" k "" "" v "" data) as Hparse.
  rewrite !append_empty_l, !append_empty_r in Hparse.
  apply Hparse; try done.
  - destruct k as [|c k]; [done|exact Hhash].
  - destruct k as [|c k]; [done|exact Hsemi].
Qed.

Lemma foldl_parse_lines l :
  Forall (λ kv, storable_key kv.1 = true ∧ storable_value kv.2 = true) l →
  ∀ data,
    foldl (λ data line, (Parser.parse_line line data).2) data
      (map (λ kv, kv.1 +:+ "=" +:+ kv.2) l)
    = foldl (λ data kv, <[kv.1 := kv.2]> data) data l.
Proof.
  induction 1 as [|[k v] l [Hk Hv] _ IH]; intros data; [done|].
  simpl in *. by rewrite parse_line_stored, IH.
Qed.

Lemma foldl_insert_union (l : list (string * string)) :
  ∀ data : gmap string string,
    foldl (λ data kv, <[kv.1 := kv.2]> data) data l
    = list_to_map (reverse l) ∪ data.
Proof.
  induction l as [|[k v] l IH]; intros data; simpl.
  - by rewrite (left_id_L ∅ (∪)).
  - rewrite IH, reverse_cons, list_to_map_app. simpl.
    rewrite <- (assoc_L (∪)). f_equal.
    by rewrite insert_empty, <- insert_union_singleton_l.
Qed.

Lemma foldl_insert_in_key_order (m : gmap string string) :
  foldl (λ data kv, <[kv.1 := kv.2]> data) ∅ (Parser.in_key_order m) = m.
Proof.
  rewrite foldl_insert_union, (right_id_L ∅ (∪)).
  symmetry. apply list_to_map_flip. unfold Parser.in_key_order.
  by rewrite reverse_Permutation, merge_sort_Permutation.
Qed.

Lemma saved_data_loads_back file_path p p0 d :
  disk_writable d file_path = true →
  map_Forall (λ k v, storable_key k = true ∧ storable_value v = true)
    (Parser.config_data p) →
  ∃ d',
    Parser.save_to_file file_path p d = (true, d')
    ∧ disk_writable d' = disk_writable d
    ∧ (∀ other, other ≠ file_path → disk_text d' !! other = disk_text d !! other)
    ∧ Parser.load_from_file file_path p0 d'
      = (true, Parser.mkConfigurationParser (Parser.config_data p) file_path).
Proof.
  intros Hw Hdata. unfold Parser.save_to_file. rewrite Hw.
  eexists. split; [reflexivity|]. split; [done|].
  split; [intros other Hne; simpl; by rewrite lookup_insert_ne|].
  unfold Parser.load_from_file. simpl. rewrite lookup_insert_eq.
  assert (Hall : Forall (λ kv, storable_key kv.1 = true ∧ storable_value kv.2 = true)
                   (Parser.in_key_order (Parser.config_data p))).
  { unfold Parser.in_key_order. rewrite merge_sort_Permutation.
    apply Forall_forall. intros [k v] Hin%elem_of_map_to_list.
    exact (Hdata k v Hin). }
  rewrite getlines_write_pairs.
  2:{ eapply Forall_impl; [exact Hall|]. intros [k v] [Hk Hv]. simpl in *.
      apply storable_key_spec in Hk as (_ & _ & Hk & _).
      by apply storable_value_spec in Hv as [_ Hv]. }
  by rewrite foldl_parse_lines, foldl_insert_in_key_order.
Qed.

(** A parser whose keys and values have no whitespace at either end and
    no line break, and whose keys have no [=] and do not start with [#] or
    [;], is restored by [load_from_file] from the file [save_to_file] wrote,
    whatever the loading parser held before. *)
Theorem saved_configuration_loads_back file_path p p0 d :
  disk_writable d file_path = true →
  map_Forall (λ k v, storable_key k = true ∧ storable_value v = true)
    (Parser.config_data p) →
  ∃ d',
    Parser.save_to_file file_path p d = (true, d')
    ∧ Parser.load_from_file file_path p0 d'
      = (true, Parser.mkConfigurationParser (Parser.config_data p) file_path).
Proof.
  intros Hw Hdata.
  destruct (saved_data_loads_back file_path p p0 d Hw Hdata) as (d' & ? & _ & _ & ?).
  by exists d'.
Qed.

Lemma saved_configuration_loads_back_witness :
  let p := Parser.set_value "wine_binary" "wine -x=1"
             (Parser.set_value "log_file" "" Parser.empty) in
  ∃ d',
    Parser.save_to_file "/etc/wine.conf" p (mkDisk ∅ (λ _, true)) = (true, d')
    ∧ Parser.load_from_file "/etc/wine.conf" (Parser.set_value "old" "1" Parser.empty) d'
      = (true, Parser.mkConfigurationParser (Parser.config_data p) "/etc/wine.conf").
Proof.
  apply saved_configuration_loads_back; [reflexivity|].
  simpl. apply map_Forall_insert_2; [by split|].
  apply map_Forall_insert_2; [by split|]. apply map_Forall_empty.
Defined.

(** ** The configuration file of a prefix *)

Lemma pretty_N_char_digit d :
  (d < 10)%N →
  isdigit (pretty_N_char d) = true ∧ byte_of (pretty_N_char d) - 48 = Z.of_N d.
Proof.
  intros Hd.
  assert (d = 0 ∨ d = 1 ∨ d = 2 ∨ d = 3 ∨ d = 4 ∨ d = 5 ∨ d = 6 ∨ d = 7 ∨ d = 8
          ∨ d = 9)%N as Hcases by lia.
  repeat (destruct Hcases as [->|Hcases]; [by split|]). by subst.
Qed.

Lemma read_digits_pretty_N_go x :
  ∃ k, ∀ acc s,
    read_digits acc (pretty_N_go x s) = read_digits (acc * k + Z.of_N x) s.
Proof.
  induction (N.lt_wf_0 x) as [x _ IH].
  destruct (N.eq_dec x 0%N) as [->|Hx].
  - exists 1. intros acc s. rewrite pretty_N_go_0. f_equal. lia.
  - destruct (IH (x `div` 10)%N) as [k Hk]; [apply N.div_lt; lia|].
    exists (k * 10). intros acc s. rewrite pretty_N_go_step by lia. rewrite Hk.
    destruct (pretty_N_char_digit (x `mod` 10)%N) as [Hdigit Hvalue];
      [apply N.mod_lt; lia|].
    simpl read_digits. rewrite Hdigit, Hvalue. f_equal.
    pose proof (N.div_mod x 10 ltac:(lia)) as Hdm.
    apply (f_equal Z.of_N) in Hdm. rewrite N2Z.inj_add, N2Z.inj_mul in Hdm.
    change (Z.of_N 10) with 10 in Hdm.
    set (q := Z.of_N (x `div` 10)) in *. set (r := Z.of_N (x `mod` 10)) in *.
    clearbody q r. lia.
Qed.

Lemma pretty_N_go_front x s :
  (0 < x)%N → isdigit (str_front (pretty_N_go x s)) = true.
Proof.
  revert s. induction (N.lt_wf_0 x) as [x _ IH]. intros s Hx.
  rewrite pretty_N_go_step by done.
  destruct (N.eq_dec (x `div` 10)%N 0%N) as [->|Hdiv].
  - rewrite pretty_N_go_0. simpl.
    by destruct (pretty_N_char_digit (x `mod` 10)%N); [apply N.mod_lt; lia|].
  - apply IH; [apply N.div_lt; lia|by apply N.neq_0_lt_0].
Qed.

(** Every character of a string satisfies a test. *)
Lemma pretty_N_go_chars (P : ascii → bool) x :
  (∀ d, (d < 10)%N → P (pretty_N_char d) = true) →
  ∀ s, (∀ c, str_contains c s = true → P c = true) →
       ∀ c, str_contains c (pretty_N_go x s) = true → P c = true.
Proof.
  intros Hdigits. induction (N.lt_wf_0 x) as [x _ IH]. intros s Hs c.
  destruct (N.eq_dec x 0%N) as [->|Hx]; [rewrite pretty_N_go_0; apply Hs|].
  rewrite pretty_N_go_step by lia. apply IH; [apply N.div_lt; lia|].
  intros c'. simpl. intros [Hc'|Hc']%orb_true_iff; [|by apply Hs].
  apply Ascii.eqb_eq in Hc' as <-. apply Hdigits, N.mod_lt. lia.
Qed.

Lemma to_string_chars n c :
  str_contains c (to_string n) = true → isdigit c || Ascii.eqb c "-" = true.
Proof.
  assert (Hgo : ∀ x, str_contains c (pretty_N_go x "") = true →
                     isdigit c || Ascii.eqb c "-" = true).
  { intros x. apply (pretty_N_go_chars (λ c, isdigit c || Ascii.eqb c "-")); [|done].
    intros d Hd. by destruct (pretty_N_char_digit d Hd) as [-> _]. }
  unfold to_string, pretty, pretty_Z. destruct n as [|p|p].
  - intros Hc. change (Ascii.eqb "0" c || false = true) in Hc.
    rewrite orb_false_r in Hc. by apply Ascii.eqb_eq in Hc as <-.
  - unfold pretty, pretty_positive, pretty, pretty_N.
    destruct (decide _); [done|]. apply Hgo.
  - unfold pretty, pretty_positive, pretty, pretty_N.
    destruct (decide _); [done|]. rewrite append_cons, append_empty_l.
    change (str_contains c (String "-" ?s))
      with (Ascii.eqb "-" c || str_contains c s).
    intros [<-%Ascii.eqb_eq|Hc]%orb_true_iff; [done|]. by eapply Hgo.
Qed.

Lemma to_string_nonempty n : to_string n ≠ "".
Proof.
  unfold to_string, pretty, pretty_Z. destruct n as [|p|p]; [done| |done].
  unfold pretty, pretty_positive, pretty, pretty_N.
  destruct (decide _); [done|].
  pose proof (pretty_N_go_front (N.pos p) "" ltac:(lia)) as Hfront.
  by destruct (pretty_N_go (N.pos p) "").
Qed.

Lemma str_contains_front s : s ≠ "" → str_contains (str_front s) s = true.
Proof. destruct s as [|c s]; [done|]. intros _. simpl. by rewrite Ascii.eqb_refl. Qed.

Lemma str_contains_back s : s ≠ "" → str_contains (str_back s) s = true.
Proof.
  induction s as [|c s IH]; [done|]. intros _. destruct s as [|c' s].
  - simpl. by rewrite Ascii.eqb_refl.
  - change (str_back (String c (String c' s))) with (str_back (String c' s)).
    change (str_contains ?x (String c (String c' s)))
      with (Ascii.eqb c x || str_contains x (String c' s)).
    rewrite IH by done. apply orb_true_r.
Qed.

Lemma digit_or_dash_not_whitespace c :
  isdigit c || Ascii.eqb c "-" = true →
  str_contains c Parser.whitespace = false ∧ Ascii.eqb c newline = false.
Proof.
  unfold isdigit. pose proof (byte_of_range c) as Hrange.
  intros Hc. assert (Hbyte : 45 ≤ byte_of c).
  { apply orb_true_iff in Hc as [Hc|Hc%Ascii.eqb_eq]; [lia|by subst]. }
  assert (Hne : ∀ c', byte_of c' < 45 → Ascii.eqb c' c = false).
  { intros c' Hc'. apply Ascii.eqb_neq. intros ->. lia. }
  split.
  - change (str_contains c Parser.whitespace)
      with (Ascii.eqb " " c
            || (Ascii.eqb tab c
                || (Ascii.eqb newline c || (Ascii.eqb carriage_return c || false)))).
    rewrite !Hne by (cbv; reflexivity). done.
  - rewrite Ascii.eqb_sym. apply Hne. cbv. reflexivity.
Qed.

Lemma to_string_storable n : storable_value (to_string n) = true.
Proof.
  unfold storable_value. apply andb_true_iff. split.
  - pose proof (to_string_nonempty n) as Hne. unfold tight.
    pose proof (str_contains_front _ Hne) as Hf.
    pose proof (str_contains_back _ Hne) as Hb.
    apply to_string_chars, digit_or_dash_not_whitespace in Hf as [Hf _].
    apply to_string_chars, digit_or_dash_not_whitespace in Hb as [Hb _].
    destruct (to_string n) as [|c s] eqn:Hn; [done|]. by rewrite Hf, Hb.
  - apply negb_true_iff. destruct (str_contains newline (to_string n)) eqn:Hc; [|done].
    apply to_string_chars, digit_or_dash_not_whitespace in Hc as [_ Hc].
    by rewrite Ascii.eqb_refl in Hc.
Qed.

Lemma skip_space_digit_front s :
  isdigit (str_front s) || Ascii.eqb (str_front s) "-" = true → skip_space s = s.
Proof.
  destruct s as [|c s]; [done|]. simpl str_front. intros Hc. simpl.
  replace (isspace c) with false; [done|]. symmetry.
  unfold isspace. unfold isdigit in Hc. apply orb_false_iff. split.
  - apply Ascii.eqb_neq. intros ->. done.
  - apply orb_true_iff in Hc as [Hc|Hc%Ascii.eqb_eq]; [lia|by subst].
Qed.

(** [std::stoi] reads back what [std::to_string] writes for an [int]. *)
Lemma stoi_to_string n : is_int n = true → stoi (to_string n) = Some n.
Proof.
  intros Hint. unfold is_int in Hint. unfold stoi, to_string, pretty, pretty_Z.
  assert (Hread : ∀ p, read_digits 0 (pretty_N_go (N.pos p) "") = Z.pos p).
  { intros p. destruct (read_digits_pretty_N_go (N.pos p)) as [k ->]. simpl. lia. }
  destruct n as [|p|p]; [done|..];
    unfold pretty, pretty_positive, pretty, pretty_N; destruct (decide _); try done.
  - pose proof (pretty_N_go_front (N.pos p) "" ltac:(lia)) as Hfront.
    rewrite skip_space_digit_front by (by rewrite Hfront).
    destruct (pretty_N_go (N.pos p) "") as [|c s] eqn:Hgo; [done|].
    simpl in Hfront.
    replace (Ascii.eqb c "-") with false
      by (symmetry; apply Ascii.eqb_neq; by intros ->).
    replace (Ascii.eqb c "+") with false
      by (symmetry; apply Ascii.eqb_neq; by intros ->).
    cbn [fst snd str_front]. rewrite Hfront, <- Hgo, Hread.
    by rewrite Hint.
  - rewrite append_cons, append_empty_l.
    rewrite skip_space_digit_front by done.
    pose proof (pretty_N_go_front (N.pos p) "" ltac:(lia)) as Hfront.
    rewrite Ascii.eqb_refl. cbn [fst snd]. rewrite Hfront, Hread.
    change (- Z.pos p) with (Z.neg p). by rewrite Hint.
Qed.

Lemma bool_name_true b : String.eqb (WineConfig.bool_name b) "true" = b.
Proof. by destruct b. Qed.

Lemma bool_name_storable b : storable_value (WineConfig.bool_name b) = true.
Proof. by destruct b. Qed.

Lemma architecture_name_storable a :
  storable_value (WineConfig.architecture_name a) = true.
Proof. by destruct a. Qed.

Lemma architecture_name_read a :
  (if String.eqb (WineConfig.architecture_name a) "win32" then WIN32
   else if String.eqb (WineConfig.architecture_name a) "win64" then WIN64
   else AUTO_DETECT) = a.
Proof. by destruct a. Qed.

Lemma get_value_data key default_value data file_path :
  Parser.get_value key default_value (Parser.mkConfigurationParser data file_path)
  = default default_value (data !! key).
Proof. unfold Parser.get_value. simpl. by destruct (data !! key). Qed.

Ltac lookup_key :=
  repeat match goal with
         | |- context [<[?k := ?v]> ?m !! ?k] => rewrite (lookup_insert_eq m k v)
         | |- context [<[?k := ?v]> ?m !! ?k'] =>
             rewrite (lookup_insert_ne m k k' v) by discriminate
         end.

(** A configuration saved with [save_to_file] and loaded with
    [load_from_file] comes back with every saved member as it was, provided
    its strings have no whitespace at either end and no line break. The
    environment variables, the registry and DLL overrides and the
    winetricks components are not in the file: the loading configuration
    keeps its own. *)
Theorem saved_wine_configuration_loads_back config_file c c0 d :
  disk_writable d config_file = true →
  storable_configuration c = true →
  is_int (Config.nice_level c) = true →
  is_int (Config.max_log_size_mb c) = true →
  WineConfig.load_from_file config_file c0 (WineConfig.save_to_file config_file c d)
  = Some (with_saved_members c c0).
Proof.
  intros Hw Hc Hnice Hmax. unfold storable_configuration in Hc.
  rewrite !andb_true_iff in Hc.
  destruct Hc as [[[[[Hprefix Hbinary] Hresolution] Haudio] Hgraphics] Hlog].
  unfold WineConfig.save_to_file. cbv zeta.
  match goal with
  | |- context [Parser.save_to_file config_file ?parser d] =>
      destruct (saved_data_loads_back config_file parser Parser.empty d Hw)
        as (d' & -> & _ & _ & Hload)
  end.
  { cbn [Parser.set_value Parser.empty Parser.config_data].
    repeat (apply map_Forall_insert_2;
            [split; [reflexivity|];
             first [assumption | apply bool_name_storable
                   | apply architecture_name_storable | apply to_string_storable]|]).
    apply map_Forall_empty. }
  cbn [snd]. unfold WineConfig.load_from_file, Parser.from_file.
  rewrite Hload. cbn [snd Parser.set_value Parser.empty Parser.config_data].
  cbv zeta. rewrite !get_value_data. lookup_key. cbn [default from_option id].
  rewrite !stoi_to_string by done. cbn [mbind option_bind].
  rewrite !bool_name_true, architecture_name_read. reflexivity.
Qed.

Lemma saved_wine_configuration_loads_back_witness :
  WineConfig.load_from_file "/home/u/.wine/config.ini" override_config
    (WineConfig.save_to_file "/home/u/.wine/config.ini" example_config
       (mkDisk ∅ (λ _, true)))
  = Some (with_saved_members example_config override_config).
Proof. apply saved_wine_configuration_loads_back; reflexivity. Defined.

(** Loading a file that cannot be opened is not an error: the prefix and
    the binary stay, and every other member the file would hold is set to
    its built-in default, whatever it was. *)
Theorem missing_configuration_file_resets_members config_file c d :
  disk_text d !! config_file = None →
  WineConfig.load_from_file config_file c d = Some (with_default_members c).
Proof.
  intros Hnone. unfold WineConfig.load_from_file, Parser.from_file,
    Parser.load_from_file. rewrite Hnone. reflexivity.
Qed.

Lemma missing_configuration_file_resets_members_witness :
  WineConfig.load_from_file "/nowhere/wine.conf" override_config (mkDisk ∅ (λ _, true))
  = Some (with_default_members override_config).
Proof. apply missing_configuration_file_resets_members. reflexivity. Defined.

(** After [apply_defaults] the configuration is valid, whatever it was
    and whatever the home directory is. *)
Theorem apply_defaults_makes_valid c os w :
  ∃ c', WineConfig.apply_defaults c os w = Ret (c', w)
        ∧ WineConfig.is_valid c' = true.
Proof.
  unfold WineConfig.apply_defaults. cbv [mbind M_bind mret M_ret].
  assert (Hhome : ∃ home, get_home_directory os w = Ret (home, w)).
  { unfold get_home_directory. cbv [mbind M_bind mret M_ret get ask].
    destruct (environ w !! "HOME"); [by eexists|].
    destruct (sys_pw_dir os); by eexists. }
  destruct Hhome as [home Hhome].
  assert (Hne : String.eqb (home +:+ "/.wine") "" = false).
  { apply String.eqb_neq. intros Hl. apply (f_equal String.length) in Hl.
    rewrite length_append in Hl. simpl in Hl. lia. }
  unfold WineConfig.is_valid.
  destruct (String.eqb_spec (Config.wine_prefix c) "") as [Hp|Hp].
  - rewrite Hhome. eexists. split; [reflexivity|]. cbn [Config.wine_binary
      Config.wine_prefix]. rewrite Hne.
    destruct (String.eqb_spec (Config.wine_binary c) "") as [Hb|Hb]; [done|].
    by apply String.eqb_neq in Hb as ->.
  - eexists. split; [reflexivity|]. cbn [Config.wine_binary Config.wine_prefix].
    apply String.eqb_neq in Hp as ->.
    destruct (String.eqb_spec (Config.wine_binary c) "") as [Hb|Hb]; [done|].
    by apply String.eqb_neq in Hb as ->.
Qed.

(** ** The process table, seen through its operations *)

Lemma table_erase_absent key t : table_find key t = None → table_erase key t = t.
Proof.
  induction t as [|[k i] t IH]; simpl; [done|].
  destruct (k =? key); [done|]. intros Hnone. by rewrite IH.
Qed.

Lemma with_monitored_same w : with_monitored (monitored_processes w) w = w.
Proof. by destruct w. Qed.

(** A record filed with [add_process] is what the queries return for its
    key, whatever was filed there before; the other keys are not
    affected. *)
Theorem registered_record_is_returned p info os w :
  ∃ w1,
    add_process p info os w = Ret (tt, w1)
    ∧ get_process_info p os w1 = Ret (info, w1)
    ∧ is_process_monitored p os w1 = Ret (true, w1)
    ∧ ∀ q, q ≠ p →
           value_of (get_process_info q os w1) = value_of (get_process_info q os w)
           ∧ value_of (is_process_monitored q os w1)
             = value_of (is_process_monitored q os w).
Proof.
  unfold add_process, get_process_info, is_process_monitored. run.
  eexists. split; [reflexivity|]. simpl.
  rewrite table_find_assign_eq. split; [done|]. split.
  { by rewrite bool_decide_eq_true_2. }
  intros q Hq. assert (p ≠ q) by congruence.
  rewrite !table_find_assign_ne by done. split; [|done].
  by destruct (table_find q _).
Qed.

(** After [remove_process] the key is unknown again: the query returns
    the default record and the key is reported as not monitored; the other
    keys are not affected. Removing a key that is not in the table changes
    nothing but the log. *)
Theorem removed_record_is_forgotten p os w :
  ∃ w1,
    remove_process p os w = Ret (tt, w1)
    ∧ get_process_info p os w1 = Ret (ProcessInfo_default, w1)
    ∧ is_process_monitored p os w1 = Ret (false, w1)
    ∧ (∀ q, q ≠ p →
            value_of (get_process_info q os w1) = value_of (get_process_info q os w)
            ∧ value_of (is_process_monitored q os w1)
              = value_of (is_process_monitored q os w))
    ∧ (table_find p (monitored_processes w) = None →
       w1 = with_trace
              (trace w ++ [Logged INFO ("Removed process " +:+ to_string p
                                        +:+ " from monitoring")]) w).
Proof.
  unfold remove_process, get_process_info, is_process_monitored. run.
  eexists. split; [reflexivity|]. simpl.
  rewrite table_find_erase_eq. split; [done|]. split.
  { rewrite bool_decide_eq_false_2; [done|]. by intros [? ?]. }
  split.
  { intros q Hq. assert (p ≠ q) by congruence.
    rewrite !table_find_erase_ne by done. split; [|done].
    by destruct (table_find q _). }
  intros Hnone. by rewrite table_erase_absent, with_monitored_same.
Qed.

(** ** Killing everything *)

Lemma signals_in_app a b : signals_in (a ++ b) = signals_in a ++ signals_in b.
Proof. apply omap_app. Qed.

Lemma kill_each_run l os w :
  ∃ effects,
    for_each (λ info, kill_process (pid info) SIGKILL) l os w
    = Ret (tt, with_trace (trace w ++ effects) w)
    ∧ signals_in effects = map (λ info, (pid info, SIGKILL)) l.
Proof.
  revert w. induction l as [|info l IH]; intros w.
  - exists []. simpl. run. by rewrite app_nil_r, with_trace_same.
  - simpl. cbv [mbind M_bind]. rewrite kill_process_run.
    match goal with
    | |- context [for_each _ l os ?w0] => destruct (IH w0) as (effects & -> & Hsig)
    end.
    eexists (_ :: _ :: effects). simpl. rewrite <- app_assoc. simpl.
    split; [reflexivity|]. unfold signals_in in *. simpl.
    destruct (sys_kill os (pid info) SIGKILL); simpl; by rewrite Hsig.
Qed.

(** [kill_all_processes] sends SIGKILL once to the pid held in every
    record of the table, in key order, whatever the state of the record,
    and leaves the table as it is: no record is removed or marked. *)
Theorem kill_all_processes_signals_every_record os w :
  ∃ effects,
    kill_all_processes os w = Ret (tt, with_trace (trace w ++ effects) w)
    ∧ signals_in effects = map (λ e, (pid e.2, SIGKILL)) (monitored_processes w).
Proof.
  unfold kill_all_processes, get_all_processes. run.
  match goal with
  | |- context [for_each _ ?l os ?w0] =>
      destruct (kill_each_run l os w0) as (effects & -> & Hsig)
  end.
  eexists (_ :: effects). simpl. rewrite <- app_assoc. simpl.
  split; [reflexivity|]. by rewrite Hsig, map_map.
Qed.

(** ** A stat line cut short *)

Lemma get_process_state_truncated os w p line :
  proc_stat os p = Some line → stat_line_truncated line →
  get_process_state p os w = Throw.
Proof.
  intros Hline ([i Hopen] & last_paren & Hclose & Hlen).
  unfold get_process_state. run. rewrite Hline, Hopen, Hclose.
  unfold str_substr. by destruct (Nat.leb_spec (last_paren + 2) (String.length line));
    [lia|].
Qed.

Lemma monitor_scan_truncated os key info line t :
  In (key, info) t →
  sys_kill os key 0 = true →
  proc_stat os (pid info) = Some line → stat_line_truncated line →
  ∀ w, monitor_scan t os w = Throw.
Proof.
  intros Hin Halive Hline Htrunc.
  induction t as [|[k i] t IH]; [done|]. intros w. simpl.
  unfold is_process_alive. run. fold monitor_scan.
  destruct Hin as [[= -> ->]|Hin].
  - rewrite Halive. simpl. rewrite update_process_stats_run.
    by rewrite (get_process_state_truncated os w (pid info) line).
  - specialize (IH Hin). destruct (sys_kill os k 0); simpl.
    + destruct (update_process_stats i os w) as [[i' w1]|]; [|done].
      by rewrite IH.
    + rewrite notify_state_change_run. by rewrite IH.
Qed.

(** [get_process_state] takes the substring two characters after the last
    [)] of the stat line without looking at the length: a line that ends
    with that [)] makes [substr] throw. Nothing catches the exception: the
    pass of the monitor loop that reads such a line, for a process that
    answers the liveness probe, does not complete. *)
Theorem truncated_stat_line_ends_the_monitor os w key info line :
  In (key, info) (monitored_processes w) →
  sys_kill os key 0 = true →
  proc_stat os (pid info) = Some line → stat_line_truncated line →
  get_process_state (pid info) os w = Throw ∧ monitor_tick os w = Throw.
Proof.
  intros Hin Halive Hline Htrunc.
  split; [by eapply get_process_state_truncated|].
  unfold monitor_tick. cbv [mbind M_bind get].
  by rewrite (monitor_scan_truncated os key info line).
Qed.

Lemma truncated_stat_line_ends_the_monitor_witness :
  let os :=
    {| sys_kill := λ _ _, true; sys_now := 7;
       proc_stat := λ _, Some "42 (wine)"; proc_vmrss := λ _, None;
       sys_stat := λ _, None; sys_access_r := λ _, false;
       sys_getcwd := None; sys_pw_dir := None; sys_popen := λ _, None;
       sys_pipe := λ _, None; sys_fork := None; sys_waitpid := λ _, 0;
       uninit_size_t := 0; uninit_double := 0%Q |} in
  get_process_state 42 os (example_tracking RUNNING) = Throw
  ∧ monitor_tick os (example_tracking RUNNING) = Throw.
Proof.
  intros os.
  apply (truncated_stat_line_ends_the_monitor os (example_tracking RUNNING) 42
           (example_record 42 RUNNING) "42 (wine)").
  - left. reflexivity.
  - reflexivity.
  - reflexivity.
  - split; [by eexists|]. exists 8%nat. split; [reflexivity|]. simpl. lia.
Defined.

(** ** The result of a wait *)

Lemma land_127_range status : 0 ≤ Z.land status 127 < 128.
Proof.
  change 127 with (Z.ones 7). rewrite Z.land_ones by lia.
  apply Z.mod_pos_bound. lia.
Qed.

Lemma wexitstatus_range status : 0 ≤ WEXITSTATUS status ≤ 255.
Proof.
  unfold WEXITSTATUS. rewrite Z.shiftr_land.
  change (Z.shiftr 65280 8) with (Z.ones 8). rewrite Z.land_ones by lia.
  pose proof (Z.mod_pos_bound (Z.shiftr status 8) (2 ^ 8) ltac:(lia)). lia.
Qed.

(** [wait_for_process] decodes the status word that [waitpid] leaves and
    returns a value between -126 and 255: the exit status, between 0 and
    255, exactly when the word reports a normal exit; the negated signal
    number when it reports an end by a signal; -1 for any other word. A
    negative result never comes from a word that reports a normal exit. *)
Theorem wait_for_process_result p os w :
  ∃ code,
    wait_for_process p os w
    = Ret (code, with_trace (trace w ++ [Waited p (sys_waitpid os p)]) w)
    ∧ -126 ≤ code ≤ 255
    ∧ (0 ≤ code ↔ WIFEXITED (sys_waitpid os p) = true)
    ∧ (WIFEXITED (sys_waitpid os p) = true → code = WEXITSTATUS (sys_waitpid os p))
    ∧ (WIFEXITED (sys_waitpid os p) = false →
       WIFSIGNALED (sys_waitpid os p) = true →
       code = - WTERMSIG (sys_waitpid os p))
    ∧ (WIFEXITED (sys_waitpid os p) = false →
       WIFSIGNALED (sys_waitpid os p) = false →
       code = -1).
Proof.
  unfold wait_for_process. run. set (status := sys_waitpid os p).
  pose proof (wexitstatus_range status) as Hexit.
  pose proof (land_127_range status) as Hsig.
  destruct (WIFEXITED status) eqn:Hexited.
  - eexists. split; [reflexivity|]. split; [lia|].
    split; [split; [done|lia]|]. by split_and!.
  - destruct (WIFSIGNALED status) eqn:Hsignaled.
    + eexists. split; [reflexivity|].
      unfold WIFEXITED in Hexited. apply Z.eqb_neq in Hexited.
      unfold WIFSIGNALED in Hsignaled. cbv zeta in Hsignaled.
      apply Z.ltb_lt in Hsignaled. unfold WTERMSIG.
      destruct (128 <=? Z.land status 127 + 1) eqn:Hle.
      * apply Z.leb_le in Hle.
        rewrite Z.shiftr_div_pow2 in Hsignaled by lia.
        change (2 ^ 1) with 2 in Hsignaled.
        assert (Z.land status 127 + 1 - 256 < 0) by lia.
        assert ((Z.land status 127 + 1 - 256) / 2 < 0)
          by (apply Z.div_lt_upper_bound; lia).
        lia.
      * split; [lia|]. split; [split; [lia|done]|]. by split_and!.
    + eexists. split; [reflexivity|]. split; [lia|].
      split; [split; [lia|done]|]. by split_and!.
Qed.

(** ** What a call leaves alone *)

Lemma bind_inv {A B} (m : M A) (f : A → M B) os w b w' :
  (m ≫= f) os w = Ret (b, w') →
  ∃ a w1, m os w = Ret (a, w1) ∧ f a os w1 = Ret (b, w').
Proof.
  unfold mbind, M_bind. destruct (m os w) as [[a w1]|]; [|done]. eauto.
Qed.

Global Instance kept_preorder {B} (part : World → B) : PreOrder (kept part).
Proof.
  split; [by intros w|]. intros w1 w2 w3 H12 H23. unfold kept in *. congruence.
Qed.

Global Instance grown_preorder : PreOrder grown.
Proof.
  split.
  - intros w. exists []. by rewrite app_nil_r.
  - intros w1 w2 w3 [e1 H12] [e2 H23]. exists (e1 ++ e2).
    by rewrite H23, H12, app_assoc.
Qed.

Section respects.
Context (R : relation World) `{!PreOrder R}.

Lemma respects_ret {A} (a : A) : respects R (mret a).
Proof. intros os w a' w' [= _ <-]. reflexivity. Qed.

Lemma respects_bind {A B} (m : M A) (f : A → M B) :
  respects R m → (∀ a, respects R (f a)) → respects R (m ≫= f).
Proof.
  intros Hm Hf os w b w' (a & w1 & H1 & H2)%bind_inv.
  etrans; [by eapply Hm|by eapply Hf].
Qed.

Lemma respects_ask : respects R ask.
Proof. intros os w a w' [= _ <-]. reflexivity. Qed.

Lemma respects_get : respects R get.
Proof. intros os w a w' [= _ <-]. reflexivity. Qed.

Lemma respects_throw {A} : respects R (@throw A).
Proof. by intros os w a w'. Qed.

Lemma respects_modify (f : World → World) :
  (∀ w, R w (f w)) → respects R (modify f).
Proof. intros Hf os w a w' [= <- <-]. apply Hf. Qed.

Lemma respects_emit e :
  (∀ w, R w (with_trace (trace w ++ [e]) w)) → respects R (emit e).
Proof. intros He. by apply respects_modify. Qed.

Lemma respects_when b m : respects R m → respects R (when b m).
Proof. destruct b; [done|]. intros _. apply respects_ret. Qed.

Lemma respects_for_each {A} (f : A → M unit) l :
  (∀ x, respects R (f x)) → respects R (for_each f l).
Proof.
  intros Hf. induction l as [|x l IH]; simpl.
  - apply respects_ret.
  - apply respects_bind; [apply Hf|]. intros _. exact IH.
Qed.
End respects.

Ltac side_condition :=
  first [ solve [auto] | reflexivity | by eexists [_]
        | (exists []; by rewrite app_nil_r) ].

Ltac respects_step :=
  lazymatch goal with
  | |- respects _ (_ ≫= _) => apply respects_bind; [apply _| |intros ?]
  | |- respects _ (match ?x with _ => _ end) => destruct x
  | |- respects _ (let _ := _ in _) => cbv zeta
  | |- respects _ (mret _) => apply respects_ret; apply _
  | |- respects _ ask => apply respects_ask; apply _
  | |- respects _ get => apply respects_get; apply _
  | |- respects _ throw => apply respects_throw
  | |- respects _ (logger_debug _) => apply respects_emit; intros ?; side_condition
  | |- respects _ (logger_info _) => apply respects_emit; intros ?; side_condition
  | |- respects _ (logger_warning _) => apply respects_emit; intros ?; side_condition
  | |- respects _ (logger_error _) => apply respects_emit; intros ?; side_condition
  | |- respects _ (emit _) => apply respects_emit; intros ?; side_condition
  | |- respects _ (modify _) => apply respects_modify; intros ?; side_condition
  | |- respects _ (setenv _ _ _) => apply respects_modify; intros ?; side_condition
  | |- respects _ (setenv_each _) => apply respects_modify; intros ?; side_condition
  | |- respects _ (when _ _) => apply respects_when; [apply _|]
  | |- respects _ (for_each _ _) => apply respects_for_each; [apply _|intros ?]
  end.

Ltac respects_auto := repeat respects_step.

(** Operations that touch the state only by adding to the trace respect
    every relation that adding to the trace respects. *)
Section tracing.
Context (R : relation World) `{!PreOrder R}.
Hypothesis traced : ∀ w e, R w (with_trace (trace w ++ [e]) w).

Lemma tracing_resolve_path path : respects R (resolve_path path).
Proof.
  unfold resolve_path, get_home_directory, get_current_directory.
  respects_auto.
Qed.

Lemma tracing_validate_executable exe_path :
  respects R (validate_executable exe_path).
Proof. unfold validate_executable, file_exists. respects_auto. Qed.

Lemma tracing_execute_command cmd : respects R (execute_command cmd).
Proof. unfold execute_command. respects_auto. Qed.

Lemma tracing_pre_launch : respects R execute_pre_launch_commands.
Proof.
  unfold execute_pre_launch_commands. respects_auto.
  apply tracing_execute_command.
Qed.

Lemma tracing_post_launch : respects R execute_post_launch_commands.
Proof.
  unfold execute_post_launch_commands. respects_auto.
  apply tracing_execute_command.
Qed.

Lemma tracing_close_fd fd : respects R (close_fd fd).
Proof. unfold close_fd. respects_auto. Qed.

Lemma tracing_wait_for_process p : respects R (wait_for_process p).
Proof. unfold wait_for_process. respects_auto. Qed.

Lemma tracing_kill p sig : respects R (kill p sig).
Proof. unfold kill. respects_auto. Qed.

(** ... and the descriptors of the capture channels. *)
Hypothesis piped_out : ∀ w fds, R w (with_stdout_pipe fds w).
Hypothesis piped_err : ∀ w fds, R w (with_stderr_pipe fds w).

Lemma piping_close_pipes : respects R close_pipes.
Proof. unfold close_pipes, close_fd. respects_auto. Qed.

Lemma piping_setup_pipes : respects R setup_pipes.
Proof. unfold setup_pipes. respects_auto; apply piping_close_pipes. Qed.

(** ... and the environment. *)
Hypothesis exported : ∀ w e, R w (with_environ e w).

Lemma exporting_assemble_environment : respects R assemble_environment.
Proof.
  unfold assemble_environment, setup_environment, setup_dll_overrides,
    setup_graphics_environment, setup_audio_environment.
  respects_auto.
Qed.
End tracing.

Ltac respects_known :=
  first [ apply tracing_resolve_path | apply tracing_validate_executable
        | apply tracing_pre_launch | apply tracing_post_launch
        | apply tracing_close_fd | apply tracing_wait_for_process
        | apply tracing_kill
        | apply piping_close_pipes | apply piping_setup_pipes
        | apply exporting_assemble_environment
        | (unfold setup_registry_settings, add_process; respects_auto) ];
  try apply _; intros; side_condition.

(** From a step that returned, what it kept of the part [part]. *)
Ltac kept_by Hs part name :=
  lazymatch type of Hs with
  | ?m ?os ?w = Ret (?a, ?w') =>
      assert (name : part w' = part w)
        by (refine ((_ : respects (kept part) m) os w a w' Hs); respects_known)
  end.

(** From a step that returned, that it only added to the trace. *)
Ltac grown_by Hs name :=
  lazymatch type of Hs with
  | ?m ?os ?w = Ret (?a, ?w') =>
      assert (name : grown w w')
        by (refine ((_ : respects grown m) os w a w' Hs); respects_known)
  end.

Tactic Notation "step" hyp(H) "as" ident(a) ident(w) ident(Hs) :=
  apply bind_inv in H as (a & w & Hs & H).

Lemma silent_parts w w' :
  silent w' = silent w →
  environ w' = environ w ∧ launch_flags w' = launch_flags w
  ∧ config w' = config w ∧ custom_environment w' = custom_environment w.
Proof.
  unfold silent, with_trace, launch_flags. intros [= ]. repeat split; congruence.
Qed.

Lemma execute_outcome path args os w resolved_path p w' :
  resolve_path path os w = Ret (resolved_path, w) →
  execute path args os w = Ret (p, w') →
  environ w'
  = (if is_regular_file os resolved_path
     then child_environment (config w) (custom_environment w) (environ w)
     else environ w)
  ∧ launch_flags w' = (if 0 <? p then (p, true) else launch_flags w)
  ∧ (0 < p → p = current_process_pid w').
Proof.
  intros Hres H. unfold execute in H.
  step H as r w0 H0. rewrite Hres in H0. injection H0 as <- <-.
  step H as valid w1 H1. kept_by H1 silent K1.
  rewrite validate_executable_run in H1. injection H1 as <- _.
  destruct (is_regular_file os resolved_path); cbv [negb] in H.
  2:{ injection H as <- <-. apply silent_parts in K1 as (-> & -> & _).
      by repeat split. }
  step H as u2 w2 H2. kept_by H2 silent K2.
  step H as ran w3 H3. kept_by H3 silent K3.
  rewrite execute_pre_launch_commands_run in H3. injection H3 as <- _.
  cbv [negb] in H.
  assert (K : silent w3 = silent w) by congruence.
  apply silent_parts in K as (Kenv & Kflags & Kconfig & Kcustom).
  clear K1 K2 K3 H2.
  step H as u4 w4 H4. step H as u5 w5 H5. step H as u6 w6 H6.
  step H as u7 w7 H7.
  assert (Henv : assemble_environment os w3 = Ret (tt, w7)).
  { unfold assemble_environment. cbv [mbind M_bind]. rewrite H4, H5, H6, H7.
    by destruct u7. }
  kept_by Henv launch_flags Fenv.
  destruct (assemble_environment_run os w3) as (effects & Hrun & _).
  rewrite Hrun in Henv. injection Henv as Henv.
  apply (f_equal environ) in Henv. simpl in Henv.
  rewrite Kenv, Kconfig, Kcustom in Henv.
  clear H4 H5 H6 H7 Hrun.
  step H as u8 w8 H8. kept_by H8 (λ w, (environ w, launch_flags w)) K8.
  step H as piped w9 H9. kept_by H9 (λ w, (environ w, launch_flags w)) K9.
  assert (K : (environ w9, launch_flags w9)
              = (child_environment (config w) (custom_environment w) (environ w),
                 launch_flags w)) by congruence.
  clear K8 K9 H8 H9 Henv Fenv Kenv Kflags Kconfig Kcustom.
  destruct piped; cbv iota in H.
  2:{ injection H as <- <-. apply pair_eq in K as [-> ->]. by repeat split. }
  step H as wg wg' Hget. injection Hget as <- <-.
  step H as os' wa Hask. injection Hask as <- <-.
  step H as u10 w10 H10. kept_by H10 (λ w, (environ w, launch_flags w)) K10.
  destruct (sys_fork os) as [child|].
  - step H as u11 w11 H11. kept_by H11 (λ w, (environ w, launch_flags w)) K11.
    step H as u12 w12 H12. kept_by H12 (λ w, (environ w, launch_flags w)) K12.
    cbv [mbind M_bind modify add_process logger_info emit mret M_ret] in H.
    injection H as <- <-.
    assert (K' : (environ w12, launch_flags w12)
                 = (child_environment (config w) (custom_environment w) (environ w),
                    launch_flags w)) by congruence.
    apply pair_eq in K' as [Kenv _]. by repeat split.
  - step H as u11 w11 H11. kept_by H11 (λ w, (environ w, launch_flags w)) K11.
    step H as u12 w12 H12. kept_by H12 (λ w, (environ w, launch_flags w)) K12.
    injection H as <- <-.
    assert (K' : (environ w12, launch_flags w12)
                 = (child_environment (config w) (custom_environment w) (environ w),
                    launch_flags w)) by congruence.
    apply pair_eq in K' as [-> ->]. by repeat split.
Qed.

(** The trace of a launch that returns the pid of a child: what the
    validation leaves, the announcement, and then, among what follows, the
    spawning of the child with the assembled environment. *)
Lemma execute_launch_trace path args os w resolved_path p w' :
  resolve_path path os w = Ret (resolved_path, w) →
  execute path args os w = Ret (p, w') →
  0 < p →
  ∃ validated rest,
    validate_executable resolved_path os w = Ret (true, validated)
    ∧ trace w'
      = trace validated ++ Logged INFO ("Executing: " +:+ resolved_path) :: rest
    ∧ In (Spawned (build_wine_command resolved_path args (config w))
            (child_environment (config w) (custom_environment w) (environ w))
            (Config.nice_level (config w)) (sys_fork os)) rest.
Proof.
  intros Hres H Hp. unfold execute in H.
  step H as r w0 H0. rewrite Hres in H0. injection H0 as <- <-.
  step H as valid w1 H1. kept_by H1 silent K1.
  destruct valid; cbv [negb] in H; [|injection H as <- _; lia].
  exists w1.
  step H as u2 w2 H2. kept_by H2 silent K2.
  assert (T2 : trace w2
               = trace w1 ++ [Logged INFO ("Executing: " +:+ resolved_path)])
    by (by injection H2 as _ <-).
  step H as ran w3 H3. kept_by H3 silent K3. grown_by H3 G3.
  destruct ran; cbv [negb] in H.
  2:{ step H as u w4 H4. injection H as <- _. lia. }
  assert (K : silent w3 = silent w) by congruence.
  apply silent_parts in K as (Kenv & _ & Kconfig & Kcustom).
  clear K1 K2 K3 H2.
  step H as u4 w4 H4. step H as u5 w5 H5. step H as u6 w6 H6.
  step H as u7 w7 H7.
  assert (Henv : assemble_environment os w3 = Ret (tt, w7)).
  { unfold assemble_environment. cbv [mbind M_bind]. rewrite H4, H5, H6, H7.
    by destruct u7. }
  grown_by Henv G7.
  destruct (assemble_environment_run os w3) as (effects & Hrun & _).
  rewrite Hrun in Henv. injection Henv as Henv.
  assert (K7 : (environ w7, config w7)
               = (child_environment (config w) (custom_environment w) (environ w),
                  config w)).
  { rewrite <- Henv. simpl. by rewrite Kenv, Kconfig, Kcustom. }
  clear H4 H5 H6 H7 Hrun Henv.
  step H as u8 w8 H8. kept_by H8 (λ w, (environ w, config w)) K8. grown_by H8 G8.
  step H as piped w9 H9. kept_by H9 (λ w, (environ w, config w)) K9.
  grown_by H9 G9.
  destruct piped; cbv iota in H; [|injection H as <- _; lia].
  assert (K : (environ w9, config w9)
              = (child_environment (config w) (custom_environment w) (environ w),
                 config w)) by congruence.
  apply pair_eq in K as [Kenv9 Kconfig9].
  assert (G29 : grown w2 w9) by (do 3 (etrans; [eassumption|]); done).
  clear K7 K8 K9 H8 H9 G3 G7 G8 G9.
  step H as wg wg' Hget. injection Hget as <- <-.
  step H as os' wa Hask. injection Hask as <- <-.
  step H as u10 w10 H10.
  assert (T10 : trace w10
                = trace w9
                  ++ [Spawned (build_wine_command resolved_path args (config w))
                        (child_environment (config w) (custom_environment w)
                           (environ w))
                        (Config.nice_level (config w)) (sys_fork os)]).
  { injection H10 as _ <-. simpl. by rewrite Kenv9, Kconfig9. }
  assert (G : grown w10 w').
  { destruct (sys_fork os) as [child|].
    - step H as u11 w11 H11. grown_by H11 G11.
      step H as u12 w12 H12. grown_by H12 G12.
      step H as u13 w13 H13. grown_by H13 G13.
      step H as u14 w14 H14. grown_by H14 G14.
      step H as u15 w15 H15. grown_by H15 G15.
      step H as u16 w16 H16. grown_by H16 G16.
      injection H as _ <-. do 5 (etrans; [eassumption|]). done.
    - step H as u11 w11 H11. step H as u12 w12 H12. injection H as <- _. lia. }
  destruct G29 as [before T9]. destruct G as [after T].
  exists (before ++ Spawned (build_wine_command resolved_path args (config w))
                      (child_environment (config w) (custom_environment w)
                         (environ w))
                      (Config.nice_level (config w)) (sys_fork os) :: after).
  split; [done|]. split.
  - rewrite T, T10, T9, T2, <- !app_assoc. done.
  - apply in_or_app. right. by left.
Qed.

(** ** Claims on the validation of the executable *)

(** C10. For an existing regular file, executable validation succeeds
    whatever the extension: with .exe, .msi or .bat (in any letter case)
    it leaves no trace, with any other extension it logs one warning and
    nothing else. The launch then proceeds: when the capture channels can
    be created and the system spawns a child, the launch returns the
    child's pid; its trace is what the validation left, the announcement
    of the launch, and then, among what follows, the spawning of that
    child with the Wine command for the file and the assembled
    environment; and the record of the child is filed under its pid. *)
Theorem validation_ignores_extension exe_path os w :
  is_regular_file os exe_path = true →
  let ext := transform_tolower (get_extension exe_path) in
  let validated :=
    if String.eqb ext ".exe" || String.eqb ext ".msi" || String.eqb ext ".bat"
    then w
    else with_trace
           (trace w ++ [Logged WARNING ("Unexpected file extension: " +:+ ext)]) w in
  validate_executable exe_path os w = Ret (true, validated)
  ∧ ∀ path args child,
      resolve_path path os w = Ret (exe_path, w) →
      pipes_available os (config w) = true →
      sys_fork os = Some child →
      ∃ w' rest,
        execute path args os w = Ret (Z.pos child, w')
        ∧ trace w'
          = trace validated ++ Logged INFO ("Executing: " +:+ exe_path) :: rest
        ∧ In (Spawned (build_wine_command exe_path args (config w))
                (child_environment (config w) (custom_environment w) (environ w))
                (Config.nice_level (config w)) (Some child)) rest
        ∧ table_find (Z.pos child) (monitored_processes w')
          = Some (launched_record os (config w) (Z.pos child) exe_path args).
Proof.
  intros Hreg ext validated.
  assert (Hval : validate_executable exe_path os w = Ret (true, validated)).
  { rewrite validate_executable_run, Hreg. subst validated ext. cbv zeta.
    destruct (String.eqb _ ".exe"), (String.eqb _ ".msi"), (String.eqb _ ".bat");
      simpl; by rewrite ?app_nil_r, ?with_trace_same. }
  split; [exact Hval|].
  intros path args child Hres Hpipes Hfork.
  destruct (execute_spec path args os w exe_path Hres)
    as (p & w' & Hrun & _ & Hcase & _ & _ & Hgo).
  specialize (Hgo Hreg Hpipes child Hfork). subst p.
  destruct (execute_launch_trace _ _ _ _ _ _ _ Hres Hrun)
    as (validated' & rest & Hval' & Htrace & Hin); [lia|].
  rewrite Hval in Hval'. injection Hval' as <-.
  exists w', rest. rewrite Hfork in Hin. split_and!; [done..|].
  destruct Hcase as [[? _]|(child' & _ & _ & -> & _)]; [lia|].
  apply table_find_assign_eq.
Qed.

Lemma validation_ignores_extension_witness :
  is_regular_file (example_os 0) "/home/u/tool.bin" = true
  ∧ validate_executable "/home/u/tool.bin" (example_os 0) example_world
    = Ret (true, with_trace [Logged WARNING "Unexpected file extension: .bin"]
                   example_world)
  ∧ ∃ w' rest,
      execute "tool.bin" [] (example_os 0) example_world = Ret (42, w')
      ∧ trace w'
        = [Logged WARNING "Unexpected file extension: .bin";
           Logged INFO "Executing: /home/u/tool.bin"] ++ rest
      ∧ In (Spawned ["wine"; "/home/u/tool.bin"]
              (child_environment example_config ∅ {[ "HOME" := "/home/u" ]})
              0 (Some 42%positive)) rest
      ∧ state <$> table_find 42 (monitored_processes w') = Some STARTING.
Proof.
  split; [reflexivity|].
  destruct (validation_ignores_extension "/home/u/tool.bin" (example_os 0)
              example_world eq_refl) as [Hval Hgo].
  split; [exact Hval|].
  destruct (Hgo "tool.bin" [] 42%positive eq_refl eq_refl eq_refl)
    as (w' & rest & Hrun & Htrace & Hin & Hfind).
  exists w', rest. split; [exact Hrun|]. split; [exact Htrace|].
  split; [exact Hin|]. by rewrite Hfind.
Defined.

(** ** What a launch leaves in the executor *)

(** A launch whose executable passes validation leaves the manager's own
    environment equal to the environment assembled for the child, whatever
    it returns: the variables are exported before the pipes and the child
    are created, and nothing takes them back when one of these fails. *)
Theorem launch_exports_environment path args os w resolved_path :
  resolve_path path os w = Ret (resolved_path, w) →
  is_regular_file os resolved_path = true →
  ∃ p w',
    execute path args os w = Ret (p, w')
    ∧ environ w'
      = child_environment (config w) (custom_environment w) (environ w).
Proof.
  intros Hres Hreg.
  destruct (execute_spec path args os w resolved_path Hres) as (p & w' & H & _).
  exists p, w'. split; [done|].
  destruct (execute_outcome _ _ _ _ _ _ _ Hres H) as (Henv & _).
  by rewrite Hreg in Henv.
Qed.

Lemma launch_exports_environment_witness :
  ∃ w',
    execute "/home/u/game.exe" [] (example_os_dead 0) example_world = Ret (-1, w')
    ∧ environ w' !! "WINEPREFIX" = Some "/home/u/.wine".
Proof.
  destruct (launch_exports_environment "/home/u/game.exe" [] (example_os_dead 0)
              example_world "/home/u/game.exe" eq_refl eq_refl)
    as (p & w' & H & Henv).
  exists w'. rewrite Henv. split; [|by vm_compute].
  rewrite H. f_equal. f_equal.
  assert (Hp : value_of (execute "/home/u/game.exe" [] (example_os_dead 0)
                           example_world) = Some (-1)) by (vm_compute; reflexivity).
  rewrite H in Hp. by injection Hp.
Defined.

(** A launch always returns. When it returns the pid of a child, the
    executor reports that it is executing and that pid as current; when
    it fails, both answers are what they were before the call. *)
Theorem launch_sets_flags_on_success_only path args os w :
  ∃ p w',
    execute path args os w = Ret (p, w')
    ∧ is_executing os w'
      = Ret (if 0 <? p then true else execution_active w, w')
    ∧ get_current_pid os w'
      = Ret (if 0 <? p then p else current_process_pid w, w').
Proof.
  destruct (resolve_path_run path os w) as (resolved_path & Hres).
  destruct (execute_spec path args os w resolved_path Hres) as (p & w' & H & _).
  exists p, w'. split; [done|].
  destruct (execute_outcome _ _ _ _ _ _ _ Hres H) as (_ & Hflags & _).
  unfold is_executing, get_current_pid. run.
  unfold launch_flags in Hflags. destruct (0 <? p); by injection Hflags as -> ->.
Qed.

(** After a synchronous launch has waited for its child, the executor no
    longer reports that it is executing, but the pid of that child is
    still the current one: [terminate_current_process] then sends SIGTERM
    to the pid of a process that has already been waited for. *)
Theorem finished_sync_launch_keeps_current_pid path args os w p w1 :
  execute path args os w = Ret (p, w1) →
  0 < p →
  ∃ exit_code w2 w3,
    execute_sync path args os w = Ret (exit_code, w2)
    ∧ is_executing os w2 = Ret (false, w2)
    ∧ get_current_pid os w2 = Ret (p, w2)
    ∧ terminate_current_process os w2 = Ret (tt, w3)
    ∧ signals_in (trace w3) = signals_in (trace w2) ++ [(p, SIGTERM)].
Proof.
  intros H Hp.
  destruct (resolve_path_run path os w) as (resolved_path & Hres).
  destruct (execute_outcome _ _ _ _ _ _ _ Hres H) as (_ & _ & Hpid).
  specialize (Hpid Hp).
  destruct (execute_sync_run _ _ _ _ _ _ H Hp) as (code & w2 & rest & Hsync & _).
  assert (Hflags : launch_flags w2 = (p, false)).
  { unfold execute_sync in Hsync.
    step Hsync as p' w1' H1. rewrite H in H1. injection H1 as <- <-.
    destruct (Z.leb_spec p 0); [lia|].
    step Hsync as c w3 H3. kept_by H3 current_process_pid K3.
    step Hsync as u4 w4 H4. kept_by H4 current_process_pid K4.
    step Hsync as u5 w5 H5. injection H5 as _ <-.
    step Hsync as u6 w6 H6. kept_by H6 launch_flags K6.
    step Hsync as u7 w7 H7. kept_by H7 launch_flags K7.
    injection Hsync as _ <-. rewrite K7, K6. unfold launch_flags. simpl.
    congruence. }
  unfold launch_flags in Hflags. injection Hflags as Hcur Hact.
  exists code, w2. eexists. split; [done|].
  unfold is_executing, get_current_pid, terminate_current_process. run.
  rewrite Hcur, Hact. destruct (Z.ltb_spec 0 p); [|lia].
  repeat split; try reflexivity.
  simpl. unfold signals_in. rewrite !omap_app. simpl. by rewrite app_nil_r.
Qed.

Lemma finished_sync_launch_keeps_current_pid_witness :
  ∃ exit_code w2 w3,
    execute_sync "/home/u/game.exe" [] (example_os 0) example_world
    = Ret (exit_code, w2)
    ∧ is_executing (example_os 0) w2 = Ret (false, w2)
    ∧ get_current_pid (example_os 0) w2 = Ret (42, w2)
    ∧ terminate_current_process (example_os 0) w2 = Ret (tt, w3)
    ∧ signals_in (trace w3) = signals_in (trace w2) ++ [(42, SIGTERM)].
Proof.
  destruct (execute "/home/u/game.exe" [] (example_os 0) example_world)
    as [[p w1]|] eqn:H; [|by vm_compute in H].
  assert (Hp : p = 42).
  { apply (f_equal value_of) in H. vm_compute in H. by injection H. }
  subst p.
  exact (finished_sync_launch_keeps_current_pid "/home/u/game.exe" []
           (example_os 0) example_world 42 w1 H eq_refl).
Defined.

(** A variable added with [add_environment_variable] and exported by a
    launch outlives its removal: once a launch has passed validation,
    [remove_environment_variable] takes the variable out of the custom
    table, not out of the manager's own environment, and the environment
    assembled for the next child still defines it, when no setting of the
    configuration defines a variable of that name. *)
Theorem removed_variable_is_still_exported path args os w resolved_path k v :
  resolve_path path os w = Ret (resolved_path, w) →
  is_regular_file os resolved_path = true →
  valid_name k = true →
  custom_environment w !! k = Some v →
  Config.environment_variables (config w) !! k = None →
  early_feature (config w) k = None →
  late_feature (config w) k = None →
  ∃ p w1 w2,
    execute path args os w = Ret (p, w1)
    ∧ remove_environment_variable k os w1 = Ret (tt, w2)
    ∧ custom_environment w2 !! k = None
    ∧ child_environment (config w2) (custom_environment w2) (environ w2) !! k
      = Some v.
Proof.
  intros Hres Hreg Hk Hcustom Hconfig Hearly Hlate.
  destruct (execute_spec path args os w resolved_path Hres)
    as (p & w1 & H & (_ & Hcfg & Hcu & _) & _).
  destruct (execute_outcome _ _ _ _ _ _ _ Hres H) as (Henv & _).
  rewrite Hreg in Henv.
  exists p, w1. eexists. split; [done|].
  unfold remove_environment_variable. run. split; [reflexivity|]. simpl.
  split; [apply lookup_delete_eq|].
  rewrite Hcfg, Hcu, Henv, !lookup_child_environment by done.
  unfold user_override, first_defined. simpl.
  by rewrite Hlate, Hearly, Hconfig, Hcustom, lookup_delete_eq.
Qed.

Lemma removed_variable_is_still_exported_witness :
  ∃ p w1 w2,
    execute "/home/u/game.exe" [] (example_os 0)
      (with_custom_environment {[ "LANG" := "C" ]} example_world) = Ret (p, w1)
    ∧ remove_environment_variable "LANG" (example_os 0) w1 = Ret (tt, w2)
    ∧ custom_environment w2 !! "LANG" = None
    ∧ child_environment (config w2) (custom_environment w2) (environ w2) !! "LANG"
      = Some "C".
Proof.
  apply (removed_variable_is_still_exported "/home/u/game.exe" [] (example_os 0)
           (with_custom_environment {[ "LANG" := "C" ]} example_world)
           "/home/u/game.exe" "LANG" "C"); by vm_compute.
Defined.

(** ** PathResolver: normalising a path *)

Lemma str_replace_char_absent a b s :
  a ≠ b → str_contains a (str_replace_char a b s) = false.
Proof.
  intros Hab. induction s as [|c s IH]; [done|].
  cbn [str_replace_char str_contains]. rewrite IH, orb_false_r.
  destruct (Ascii.eqb_spec c a) as [->|Hc]; by apply Ascii.eqb_neq.
Qed.

Lemma str_replace_char_id a b s :
  str_contains a s = false → str_replace_char a b s = s.
Proof.
  induction s as [|c s IH]; [done|]. cbn [str_replace_char str_contains].
  intros [Hc Hs]%orb_false_elim. by rewrite Hc, IH.
Qed.

Lemma find_double_slash_cons a s :
  str_find_str "//" (String a s)
  = if Ascii.eqb a "/" && Ascii.eqb (str_front s) "/" then Some 0%nat
    else S <$> str_find_str "//" s.
Proof.
  cbn [str_find_str String.prefix].
  destruct (ascii_dec "/" a) as [<-|Ha].
  - change (Ascii.eqb "/" "/") with true. cbn [andb].
    destruct s as [|b s]; [reflexivity|]. cbn [str_front String.prefix].
    destruct (ascii_dec "/" b) as [<-|Hb]; [by destruct s|].
    by rewrite (proj2 (Ascii.eqb_neq b "/")) by done.
  - by rewrite (proj2 (Ascii.eqb_neq a "/")) by done.
Qed.

Lemma str_replace_cons i len str a s :
  str_replace (S i) len str (String a s) = String a (str_replace i len str s).
Proof.
  unfold str_replace. rewrite substring_cons, append_cons.
  change (S i + len)%nat with (S (i + len)). by rewrite str_drop_cons.
Qed.

Lemma str_replace_double_slash a b s :
  str_replace 0 2 "/" (String a (String b s)) = String "/" s.
Proof.
  unfold str_replace. change (0 + 2)%nat with 2%nat.
  rewrite !str_drop_cons, str_drop_0. by destruct s.
Qed.

Lemma front_eq_spec s c :
  c ≠ zero → Ascii.eqb (str_front s) c = true → ∃ s', s = String c s'.
Proof.
  intros Hc H. destruct s as [|a s]; cbn [str_front] in H.
  - apply Ascii.eqb_eq in H. by destruct Hc.
  - apply Ascii.eqb_eq in H as ->. by exists s.
Qed.

(** One round of the loop: the first pair of slashes becomes one slash. *)
Lemma collapse_round s pos :
  str_find_str "//" s = Some pos →
  squeeze (str_replace pos 2 "/" s) = squeeze s
  ∧ str_front (str_replace pos 2 "/" s) = str_front s
  ∧ S (String.length (str_replace pos 2 "/" s)) = String.length s.
Proof.
  revert pos. induction s as [|a s IH]; intros pos; [done|].
  rewrite find_double_slash_cons.
  destruct (Ascii.eqb a "/" && Ascii.eqb (str_front s) "/") eqn:Hpair.
  - intros [= <-]. apply andb_prop in Hpair as [->%Ascii.eqb_eq Hs].
    apply front_eq_spec in Hs as [s' ->]; [|done].
    rewrite str_replace_double_slash. by repeat split.
  - destruct (str_find_str "//" s) as [pos'|] eqn:Hfind; [|done].
    intros [= <-]. destruct (IH pos' eq_refl) as (Hsq & Hfront & Hlen).
    rewrite str_replace_cons. cbn [squeeze str_front String.length].
    by rewrite Hfront, Hpair, Hsq, Hlen.
Qed.

Lemma squeeze_without_double_slash s :
  str_find_str "//" s = None → squeeze s = s.
Proof.
  induction s as [|a s IH]; [done|]. rewrite find_double_slash_cons.
  cbn [squeeze].
  destruct (Ascii.eqb a "/" && Ascii.eqb (str_front s) "/"); [done|].
  destruct (str_find_str "//" s); [done|]. intros _. by rewrite IH.
Qed.

Lemma squeeze_front s : str_front (squeeze s) = str_front s.
Proof.
  induction s as [|a s IH]; [done|]. cbn [squeeze].
  destruct (Ascii.eqb a "/" && Ascii.eqb (str_front s) "/") eqn:Hpair; [|done].
  apply andb_prop in Hpair as [->%Ascii.eqb_eq Hs%Ascii.eqb_eq].
  by rewrite IH, Hs.
Qed.

Lemma squeeze_no_double_slash s : str_find_str "//" (squeeze s) = None.
Proof.
  induction s as [|a s IH]; [done|]. cbn [squeeze].
  destruct (Ascii.eqb a "/" && Ascii.eqb (str_front s) "/") eqn:Hpair; [done|].
  by rewrite find_double_slash_cons, squeeze_front, Hpair, IH.
Qed.

Lemma squeeze_absent c s :
  str_contains c s = false → str_contains c (squeeze s) = false.
Proof.
  induction s as [|a s IH]; [done|]. cbn [squeeze str_contains].
  intros [Ha Hs]%orb_false_elim.
  destruct (Ascii.eqb a "/" && Ascii.eqb (str_front s) "/"); [by apply IH|].
  cbn [str_contains]. by rewrite Ha, IH.
Qed.

Lemma collapse_slashes_squeeze fuel s :
  (String.length s ≤ fuel)%nat → Resolver.collapse_slashes fuel s = squeeze s.
Proof.
  revert s. induction fuel as [|fuel IH]; intros s Hfuel.
  - by destruct s; [|simpl in Hfuel; lia].
  - cbn [Resolver.collapse_slashes].
    destruct (str_find_str "//" s) as [pos|] eqn:Hfind.
    + destruct (collapse_round s pos Hfind) as (Hsq & _ & Hlen).
      rewrite IH by lia. exact Hsq.
    + by rewrite squeeze_without_double_slash.
Qed.

Lemma normalize_path_squeeze path :
  Resolver.normalize_path path = squeeze (str_replace_char backslash "/" path).
Proof. unfold Resolver.normalize_path. by apply collapse_slashes_squeeze. Qed.

(** [normalize_path] returns the path with every backslash turned into a
    slash and every run of slashes reduced to one: the result holds no
    backslash and no two slashes in a row, and normalising it again
    changes nothing. *)
Theorem normalize_path_normal_form path :
  Resolver.normalize_path path = squeeze (str_replace_char backslash "/" path)
  ∧ str_contains backslash (Resolver.normalize_path path) = false
  ∧ str_find_str "//" (Resolver.normalize_path path) = None
  ∧ Resolver.normalize_path (Resolver.normalize_path path)
    = Resolver.normalize_path path.
Proof.
  assert (Hfree : str_contains backslash
                    (squeeze (str_replace_char backslash "/" path)) = false)
    by by apply squeeze_absent, str_replace_char_absent.
  split; [apply normalize_path_squeeze|].
  rewrite !normalize_path_squeeze. split; [done|].
  split; [apply squeeze_no_double_slash|].
  rewrite str_replace_char_id by done.
  apply squeeze_without_double_slash, squeeze_no_double_slash.
Qed.

(** ** PathResolver: drive letters *)

Lemma toupper_not_lower c : is_lower (toupper c) = false.
Proof. by destruct c as [[] [] [] [] [] [] [] []]. Qed.

Lemma toupper_fixed c : is_lower c = false → toupper c = c.
Proof. unfold is_lower, toupper. cbv zeta. by intros ->. Qed.

Lemma toupper_idempotent c : toupper (toupper c) = toupper c.
Proof. apply toupper_fixed, toupper_not_lower. Qed.

Lemma is_upper_spec d :
  is_upper d = true → is_lower d = false ∧ d ≠ "/"%char ∧ d ≠ zero.
Proof. by destruct d as [[] [] [] [] [] [] [] []]. Qed.

Lemma read_mappings_keys dosdevices fs entries key unix_path :
  Resolver.read_mappings dosdevices fs entries !! key = Some unix_path →
  ∃ entry, entry ∈ entries ∧ key = String (str_at entry 0) "".
Proof.
  unfold Resolver.read_mappings.
  cut (∀ acc : gmap string string,
         foldl (λ mappings entry,
             if (String.length entry =? 2)%nat && Ascii.eqb (str_at entry 1) ":" then
               let drive := str_at entry 0 in
               let link_path := join_paths dosdevices entry in
               match sys_readlink fs link_path with
               | Some resolved_path => <[String drive "" := resolved_path]> mappings
               | None => mappings
               end
             else mappings) acc entries !! key = Some unix_path →
         acc !! key = Some unix_path
         ∨ ∃ entry, entry ∈ entries ∧ key = String (str_at entry 0) "").
  { intros H Hkey. by destruct (H ∅ Hkey) as [?|?]. }
  induction entries as [|entry entries IH]; intros acc; [by left|].
  cbn [foldl]. intros [Hacc|(e & He & ->)]%IH.
  - destruct (_ && _); [|by left]. cbv zeta in Hacc.
    destruct (sys_readlink fs _); [|by left].
    destruct (decide (key = String (str_at entry 0) "")) as [->|Hne].
    + right. exists entry. split; [left|done].
    + left. by rewrite lookup_insert_ne in Hacc.
  - right. exists e. split; [by right|done].
Qed.

(** The constructor files a link of dosdevices under the first character
    of its name as it stands, and a drive is looked up under its
    upper-case letter: of a directory whose names all start with a
    lower-case letter, as Wine's c: and z: do, no mapping is ever found,
    and [windows_to_unix] returns every path as it was given. *)
Theorem lower_case_drive_links_are_never_resolved prefix fs windows_path :
  Forall (λ entry, is_lower (str_at entry 0) = true)
    (list_directory (join_paths prefix "dosdevices") fs) →
  Resolver.windows_to_unix windows_path (Resolver.new prefix fs) = windows_path.
Proof.
  intros Hlower. unfold Resolver.windows_to_unix.
  destruct (_ || _); [done|]. cbv zeta.
  assert (Hnone : Resolver.resolve_drive_letter (toupper (str_at windows_path 0))
                    (Resolver.new prefix fs) = "").
  { unfold Resolver.resolve_drive_letter, Resolver.new. cbv zeta.
    cbn [Resolver.path_mappings].
    destruct (directory_exists _ fs); [|by rewrite lookup_empty].
    destruct (_ !! _) as [unix_path|] eqn:Hkey; [|done].
    apply read_mappings_keys in Hkey as (entry & Hentry & [= Hdrive]).
    rewrite Forall_forall in Hlower. apply Hlower in Hentry.
    by rewrite <- Hdrive, toupper_not_lower in Hentry. }
  by rewrite Hnone.
Qed.

Lemma lower_case_drive_links_are_never_resolved_witness :
  Resolver.path_mappings (Resolver.new "/home/u/.wine" example_dosdevices)
  = {[ "c" := "../drive_c"; "z" := "/" ]}
  ∧ Resolver.windows_to_unix "C:\windows\notepad.exe"
      (Resolver.new "/home/u/.wine" example_dosdevices)
    = "C:\windows\notepad.exe".
Proof.
  split; [by vm_compute|].
  apply lower_case_drive_links_are_never_resolved.
  vm_compute. by repeat constructor.
Defined.

Lemma str_at_0 a s : str_at (String a s) 0 = a.
Proof. done. Qed.

Lemma str_at_1 a b s : str_at (String a (String b s)) 1 = b.
Proof. done. Qed.

Lemma windows_to_unix_mapped d rest unix_path r :
  Resolver.path_mappings r !! String (toupper d) "" = Some unix_path →
  unix_path ≠ "" →
  rest ≠ "" →
  Resolver.windows_to_unix (String d (String ":" rest)) r
  = unix_path +:+ str_replace_char backslash "/" rest.
Proof.
  intros Hkey Hpath Hrest. unfold Resolver.windows_to_unix.
  rewrite str_at_0, str_at_1.
  change (Ascii.eqb ":" ":") with true.
  destruct rest as [|c rest]; [done|].
  change (String.length (String d (String ":" (String c rest))) <? 3)%nat
    with (S (S (S (String.length rest))) <? 3)%nat.
  destruct (Nat.ltb_spec (S (S (S (String.length rest)))) 3) as [?|_]; [lia|].
  cbn [orb negb]. cbv zeta.
  unfold Resolver.resolve_drive_letter. cbv zeta.
  rewrite toupper_idempotent, Hkey.
  destruct (String.eqb_spec unix_path "") as [?|_]; [done|].
  by rewrite !str_drop_cons, str_drop_0.
Qed.

(** A drive made with [create_drive_mapping] is resolved by
    [windows_to_unix] whichever case its letter is written in: the path
    after the colon, its backslashes turned into slashes, is appended to
    the mapped directory. *)
Theorem created_drive_mapping_resolves drive unix_path r fs d rest :
  (Resolver.create_drive_mapping drive unix_path r fs).1.1 = true →
  unix_path ≠ "" →
  rest ≠ "" →
  toupper d = toupper drive →
  Resolver.windows_to_unix (String d (String ":" rest))
    (Resolver.create_drive_mapping drive unix_path r fs).1.2
  = unix_path +:+ str_replace_char backslash "/" rest.
Proof.
  intros Hmade Hpath Hrest Hd. apply windows_to_unix_mapped; [|done..].
  unfold Resolver.create_drive_mapping in *. cbv zeta in *.
  destruct (sys_symlink fs _ _); [|done]. cbn [fst snd Resolver.path_mappings].
  by rewrite Hd, lookup_insert_eq.
Qed.

Lemma created_drive_mapping_resolves_witness :
  Resolver.windows_to_unix "c:\windows\notepad.exe"
    (Resolver.create_drive_mapping "C" "/home/u/.wine/drive_c"
       (Resolver.new "/home/u/.wine" example_dosdevices) example_dosdevices).1.2
  = "/home/u/.wine/drive_c/windows/notepad.exe".
Proof.
  by apply (created_drive_mapping_resolves "C" "/home/u/.wine/drive_c"
              (Resolver.new "/home/u/.wine" example_dosdevices) example_dosdevices
              "c" "\windows\notepad.exe").
Defined.

(** ** PathResolver: there and back *)

Lemma position_find_prefix pattern s :
  (position (str_find_str pattern s) =? 0) = String.prefix pattern s.
Proof.
  destruct s as [|a s]; cbn [str_find_str];
    destruct (String.prefix pattern _); try done.
  destruct (str_find_str pattern s) as [n|]; [|done].
  cbn [fmap option_fmap option_map position]. apply Z.eqb_neq. lia.
Qed.

Lemma prefix_split a b :
  String.prefix a b = true → b = a +:+ str_drop (String.length a) b.
Proof.
  revert b. induction a as [|x a IH]; intros b.
  - intros _. by rewrite str_drop_0, append_empty_l.
  - destruct b as [|y b]; [done|]. cbn [String.prefix].
    destruct (ascii_dec x y) as [<-|]; [|done]. intros Hprefix.
    cbn [String.length]. rewrite str_drop_cons, append_cons. f_equal.
    by apply IH.
Qed.

Lemma str_replace_char_back a b s :
  str_contains b s = false →
  str_replace_char b a (str_replace_char a b s) = s.
Proof.
  induction s as [|c s IH]; [done|]. cbn [str_replace_char str_contains].
  intros [Hc Hs]%orb_false_elim. rewrite IH by done. f_equal.
  destruct (Ascii.eqb_spec c a) as [->|Hca].
  - by rewrite Ascii.eqb_refl.
  - by rewrite Hc.
Qed.

Lemma str_replace_char_empty a b s : str_replace_char a b s = "" → s = "".
Proof. by destruct s. Qed.

Lemma in_key_order_lookup (m : gmap string string) kv :
  In kv (Parser.in_key_order m) → m !! kv.1 = Some kv.2.
Proof.
  unfold Parser.in_key_order. rewrite <- list_elem_of_In, merge_sort_Permutation.
  destruct kv as [k v]. by rewrite elem_of_map_to_list.
Qed.

Lemma lookup_in_key_order (m : gmap string string) k v :
  m !! k = Some v → In (k, v) (Parser.in_key_order m).
Proof.
  unfold Parser.in_key_order. rewrite <- list_elem_of_In, merge_sort_Permutation.
  by rewrite elem_of_map_to_list.
Qed.

(** A path that [unix_to_windows] has turned into a Windows path is
    turned back into itself by [windows_to_unix], when every drive is
    filed under one upper-case letter with a directory that is not empty,
    the path starts with the directory of some drive, is itself the
    directory of no drive, and holds no backslash. *)
Theorem unix_path_survives_round_trip unix_path r :
  (∀ key directory,
     Resolver.path_mappings r !! key = Some directory →
     (∃ d, key = String d "" ∧ is_upper d = true)
     ∧ directory ≠ "" ∧ directory ≠ unix_path) →
  (∃ key directory,
     Resolver.path_mappings r !! key = Some directory
     ∧ String.prefix directory unix_path = true) →
  str_contains backslash unix_path = false →
  Resolver.windows_to_unix (Resolver.unix_to_windows unix_path r) r = unix_path.
Proof.
  intros Hdrives (key & directory & Hkey & Hprefix) Hfree.
  unfold Resolver.unix_to_windows.
  destruct (find _ _) as [[k v]|] eqn:Hfind.
  2:{ apply lookup_in_key_order in Hkey.
      eapply find_none in Hfind; [|exact Hkey].
      cbn [snd] in Hfind. by rewrite position_find_prefix, Hprefix in Hfind. }
  clear key directory Hkey Hprefix.
  apply find_some in Hfind as [Hin Hstarts].
  apply in_key_order_lookup in Hin. cbn [fst snd] in *.
  rewrite position_find_prefix in Hstarts. apply prefix_split in Hstarts.
  destruct (Hdrives k v Hin) as ((d & -> & Hd) & Hv & Hproper).
  apply is_upper_spec in Hd as (Hlower & Hslash & _).
  set (rest := str_drop (String.length v) unix_path) in *.
  assert (Hrest : rest ≠ "").
  { intros Hempty. rewrite Hempty, append_empty_r in Hstarts. by destruct Hproper. }
  assert (Hrest_free : str_contains backslash rest = false).
  { rewrite Hstarts, str_contains_app in Hfree.
    by apply orb_false_elim in Hfree as [_ ?]. }
  rewrite !append_cons, append_empty_l. cbn [str_replace_char].
  rewrite (proj2 (Ascii.eqb_neq d "/")) by done.
  change (Ascii.eqb ":" "/") with false. cbv iota.
  rewrite (windows_to_unix_mapped d _ v).
  - by rewrite str_replace_char_back.
  - by rewrite toupper_fixed.
  - done.
  - by intros ?%str_replace_char_empty.
Qed.

Lemma unix_path_survives_round_trip_witness :
  Resolver.unix_to_windows "/home/u/.wine/drive_c/windows/notepad.exe"
    (Resolver.mkPathResolver "/home/u/.wine" {[ "C" := "/home/u/.wine/drive_c" ]})
  = "C:\windows\notepad.exe"
  ∧ Resolver.windows_to_unix
      (Resolver.unix_to_windows "/home/u/.wine/drive_c/windows/notepad.exe"
         (Resolver.mkPathResolver "/home/u/.wine"
            {[ "C" := "/home/u/.wine/drive_c" ]}))
      (Resolver.mkPathResolver "/home/u/.wine" {[ "C" := "/home/u/.wine/drive_c" ]})
    = "/home/u/.wine/drive_c/windows/notepad.exe".
Proof.
  split; [by vm_compute|].
  apply unix_path_survives_round_trip.
  - cbn [Resolver.path_mappings].
    intros key directory [<- <-]%lookup_singleton_Some.
    split; [by exists "C"%char|]. by split.
  - exists "C", "/home/u/.wine/drive_c". by split.
  - by vm_compute.
Defined.

(** ** Reading the state of a process *)

Lemma get_process_state_line_witness :
  get_process_state 42 (example_os_stopped 0) (example_tracking RUNNING)
  = Ret (PAUSED, example_tracking RUNNING).
Proof.
  by apply (get_process_state_line (example_os_stopped 0) 42
              (example_tracking RUNNING) "42 (wine" "T" " 1 42 42 0 -1").
Defined.
